(** * Batch job orchestration

    A model of [ai-services/src/api/endpoints/batch_processing.py]: the
    in-memory job store ([BATCH_JOBS], [JOB_QUEUE], [PROCESSING_JOBS]), job
    submission, the admission pass, the executor and cancellation.

    The module runs on one asyncio event loop, so a coroutine runs without
    interruption from one [await] that suspends to the next.  Each such run
    is one event of the model; the order of events is not constrained,
    except in the runs of [run_fifo], in which the tasks run their first
    step in the order of their creation, as the event loop has it.
    [progress_percentage] is a binary64 float, computed as Python computes
    it.  The values of [time.time()] are only stored and compared and are
    read as rationals.  [asyncio.CancelledError] is taken not to be an
    [Exception] (Python 3.8 and later), so [except Exception] lets it
    through. *)

From Stdlib Require Import ZArith QArith Floats.
From stdpp Require Import base gmap sets list strings sorting.
Close Scope Q_scope.

(** ** Data model *)

Inductive BatchStatus := PENDING | PROCESSING | COMPLETED | FAILED | CANCELLED.

Inductive BatchJobType :=
  | NLP_ANALYSIS
  | DOCUMENT_CLASSIFICATION
  | RISK_ASSESSMENT
  | REGULATORY_ANALYSIS
  | MODEL_TRAINING
  | BULK_PREDICTION.

#[global] Instance BatchStatus_eq_dec : EqDecision BatchStatus.
Proof. solve_decision. Defined.

#[global] Instance BatchJobType_eq_dec : EqDecision BatchJobType.
Proof. solve_decision. Defined.

(** The values of [Dict[str, Any]] and [List[Dict[str, Any]]] that a JSON
    request body can carry.  A dict is kept as the list of its entries in
    insertion order. *)
#[warnings="-register-all"] Inductive Any :=
  | PyNone
  | PyBool (b : bool)
  | PyInt (z : Z)
  | PyFloat (q : Q)
  | PyStr (s : string)
  | PyList (l : list Any)
  | PyDict (d : list (string * Any)).

Definition Time := Q.

(** The exceptions the module can raise while a job runs. *)
Inductive PyException :=
  | ValueError_unknown_job_type (t : BatchJobType)
  | ValueError_semaphore_value
  | TypeError_not_iterable
  | ZeroDivisionError
  | ProcessingError (msg : string).

(** What the mock of each job type puts in a result next to [index],
    [input] and [processed_at]. *)
Inductive ResultPayload :=
  | sentiment_entities
  | classification
  | risk_score_level
  | regulatory_type_impact
  | prediction_confidence.

Record ResultEntry := {
  res_index : nat;
  res_input : Any;
  res_payload : ResultPayload;
  res_processed_at : Time
}.

(** Entries of [job.errors]: the per-item entry of the [except] arms (the
    NLP one carries [input], the others do not) and the job-level entry
    with [type = job_failure]. *)
Inductive ErrorEntry :=
  | item_error_entry (index : nat) (input : option Any)
      (error : PyException) (timestamp : Time)
  | job_failure (error : PyException) (timestamp : Time).

Record BatchJobRequest := {
  req_job_type : BatchJobType;
  req_name : string;
  req_description : option string;
  req_items : list (list (string * Any));
  req_parameters : list (string * Any);
  req_priority : Z;
  req_max_workers : Z;
  req_timeout_per_item : Z
}.

Record BatchJob := {
  job_id : string;
  job_type : BatchJobType;
  name : string;
  description : option string;
  status : BatchStatus;
  created_at : Time;
  started_at : option Time;
  completed_at : option Time;
  total_items : nat;
  processed_items : nat;
  successful_items : nat;
  failed_items : nat;
  progress_percentage : float;
  results : list ResultEntry;
  errors : list ErrorEntry;
  parameters : list (string * Any);
  priority : Z;
  max_workers : Z
}.

(** Attribute assignment [job.field = v]. *)
Definition set_status (v : BatchStatus) (job : BatchJob) : BatchJob :=
  {| job_id := job_id job; job_type := job_type job; name := name job;
     description := description job; status := v;
     created_at := created_at job; started_at := started_at job;
     completed_at := completed_at job; total_items := total_items job;
     processed_items := processed_items job;
     successful_items := successful_items job;
     failed_items := failed_items job;
     progress_percentage := progress_percentage job; results := results job;
     errors := errors job; parameters := parameters job;
     priority := priority job; max_workers := max_workers job |}.

Definition set_started_at (v : option Time) (job : BatchJob) : BatchJob :=
  {| job_id := job_id job; job_type := job_type job; name := name job;
     description := description job; status := status job;
     created_at := created_at job; started_at := v;
     completed_at := completed_at job; total_items := total_items job;
     processed_items := processed_items job;
     successful_items := successful_items job;
     failed_items := failed_items job;
     progress_percentage := progress_percentage job; results := results job;
     errors := errors job; parameters := parameters job;
     priority := priority job; max_workers := max_workers job |}.

Definition set_completed_at (v : option Time) (job : BatchJob) : BatchJob :=
  {| job_id := job_id job; job_type := job_type job; name := name job;
     description := description job; status := status job;
     created_at := created_at job; started_at := started_at job;
     completed_at := v; total_items := total_items job;
     processed_items := processed_items job;
     successful_items := successful_items job;
     failed_items := failed_items job;
     progress_percentage := progress_percentage job; results := results job;
     errors := errors job; parameters := parameters job;
     priority := priority job; max_workers := max_workers job |}.

Definition set_processed_items (v : nat) (job : BatchJob) : BatchJob :=
  {| job_id := job_id job; job_type := job_type job; name := name job;
     description := description job; status := status job;
     created_at := created_at job; started_at := started_at job;
     completed_at := completed_at job; total_items := total_items job;
     processed_items := v; successful_items := successful_items job;
     failed_items := failed_items job;
     progress_percentage := progress_percentage job; results := results job;
     errors := errors job; parameters := parameters job;
     priority := priority job; max_workers := max_workers job |}.

Definition set_successful_items (v : nat) (job : BatchJob) : BatchJob :=
  {| job_id := job_id job; job_type := job_type job; name := name job;
     description := description job; status := status job;
     created_at := created_at job; started_at := started_at job;
     completed_at := completed_at job; total_items := total_items job;
     processed_items := processed_items job; successful_items := v;
     failed_items := failed_items job;
     progress_percentage := progress_percentage job; results := results job;
     errors := errors job; parameters := parameters job;
     priority := priority job; max_workers := max_workers job |}.

Definition set_failed_items (v : nat) (job : BatchJob) : BatchJob :=
  {| job_id := job_id job; job_type := job_type job; name := name job;
     description := description job; status := status job;
     created_at := created_at job; started_at := started_at job;
     completed_at := completed_at job; total_items := total_items job;
     processed_items := processed_items job;
     successful_items := successful_items job; failed_items := v;
     progress_percentage := progress_percentage job; results := results job;
     errors := errors job; parameters := parameters job;
     priority := priority job; max_workers := max_workers job |}.

Definition set_progress_percentage (v : float) (job : BatchJob)
    : BatchJob :=
  {| job_id := job_id job; job_type := job_type job; name := name job;
     description := description job; status := status job;
     created_at := created_at job; started_at := started_at job;
     completed_at := completed_at job; total_items := total_items job;
     processed_items := processed_items job;
     successful_items := successful_items job;
     failed_items := failed_items job; progress_percentage := v;
     results := results job; errors := errors job;
     parameters := parameters job; priority := priority job;
     max_workers := max_workers job |}.

Definition set_results (v : list ResultEntry) (job : BatchJob) : BatchJob :=
  {| job_id := job_id job; job_type := job_type job; name := name job;
     description := description job; status := status job;
     created_at := created_at job; started_at := started_at job;
     completed_at := completed_at job; total_items := total_items job;
     processed_items := processed_items job;
     successful_items := successful_items job;
     failed_items := failed_items job;
     progress_percentage := progress_percentage job; results := v;
     errors := errors job; parameters := parameters job;
     priority := priority job; max_workers := max_workers job |}.

Definition set_errors (v : list ErrorEntry) (job : BatchJob) : BatchJob :=
  {| job_id := job_id job; job_type := job_type job; name := name job;
     description := description job; status := status job;
     created_at := created_at job; started_at := started_at job;
     completed_at := completed_at job; total_items := total_items job;
     processed_items := processed_items job;
     successful_items := successful_items job;
     failed_items := failed_items job;
     progress_percentage := progress_percentage job; results := results job;
     errors := v; parameters := parameters job; priority := priority job;
     max_workers := max_workers job |}.

(** ** Python helpers *)

Fixpoint dict_lookup (d : list (string * Any)) (k : string) : option Any :=
  match d with
  | [] => None
  | (k', v) :: d' => if decide (k' = k) then Some v else dict_lookup d' k
  end.

(** [d.get(k, dflt)] *)
Definition dict_get (d : list (string * Any)) (k : string) (dflt : Any) : Any :=
  default dflt (dict_lookup d k).

(** The elements a [for] loop or a comprehension draws from a value:
    a list yields its elements, a dict its keys, a string its characters;
    [None] stands for the [TypeError] of a value that is not iterable. *)
Definition py_iter (v : Any) : option (list Any) :=
  match v with
  | PyList l => Some l
  | PyDict d => Some (map (λ kv, PyStr kv.1) d)
  | PyStr s =>
      Some
        (map (λ c, PyStr (String c EmptyString))
           (Stdlib.Strings.String.list_ascii_of_string s))
  | PyNone | PyBool _ | PyInt _ | PyFloat _ => None
  end.

Definition enumerate {A} (l : list A) : list (nat * A) :=
  imap (λ i x, (i, x)) l.

(** [job.parameters.get("items", [])], the value every executor iterates. *)
Definition parameter_items (job : BatchJob) : option (list Any) :=
  py_iter (dict_get (parameters job) "items" (PyList [])).

(** [float(n)] for a counter [n]: the nearest binary64 number, [n] itself
    below [2^53]. *)
Definition float_of_nat (n : nat) : float :=
  SF2Prim (binary_normalize prec emax (Z.of_nat n) 0 false).

(** [(processed / total) * 100], for [total <> 0], in binary64: the
    quotient is rounded, and then the product.  The counters are lengths
    of lists in memory; for integers below [2^53] the [/] of Python is the
    division of the two floats. *)
Definition percentage (processed total : nat) : float :=
  (float_of_nat processed / float_of_nat total * 100)%float.

Definition mock_payload (t : BatchJobType) : ResultPayload :=
  match t with
  | NLP_ANALYSIS => sentiment_entities
  | DOCUMENT_CLASSIFICATION => classification
  | RISK_ASSESSMENT => risk_score_level
  | REGULATORY_ANALYSIS => regulatory_type_impact
  | MODEL_TRAINING | BULK_PREDICTION => prediction_confidence
  end.

(** [l.remove(x)] for an [x] that is in [l]: the first occurrence goes. *)
Fixpoint remove_first (x : string) (l : list string) : list string :=
  match l with
  | [] => []
  | y :: l' => if decide (y = x) then l' else y :: remove_first x l'
  end.

(** [l.sort(key=key, reverse=True)]: a stable sort, largest key first;
    elements with equal keys keep their order. *)
Fixpoint insert_desc (key : string → Z) (x : string) (l : list string)
    : list string :=
  match l with
  | [] => [x]
  | y :: l' => if (key x <? key y)%Z then y :: insert_desc key x l' else x :: l
  end.

Fixpoint sort_desc (key : string → Z) (l : list string) : list string :=
  match l with
  | [] => []
  | x :: l' => insert_desc key x (sort_desc key l')
  end.

(** ** The store and the event loop *)

(** The state of the task that runs [_process_batch_job] for one job:
    created by [asyncio.create_task] and not yet run, or suspended in
    [await asyncio.gather(...)] ([raised] is the first exception an item
    task has passed to the gather, which the task receives when it
    resumes). *)
Inductive Task :=
  | task_created
  | task_gathering (raised : option PyException).

(** The [process_item] tasks of one NLP job that have not finished:
    [waiting] ones have not entered [async with semaphore], [sleeping]
    ones are inside the [try] at [await asyncio.sleep(0.1)], [cancelled]
    ones were sleeping when the gather was cancelled and have their
    [finally] block still to run. *)
Record ItemTasks := {
  waiting : list (nat * Any);
  sleeping : list (nat * Any);
  cancelled : list (nat * Any)
}.

(** [BATCH_JOBS], [JOB_QUEUE] and [PROCESSING_JOBS] are the module's
    globals.  The rest is the event loop: the item tasks per job, the
    [_process_batch_job] tasks that were cancelled while in the gather and
    have not unwound yet (with the exception an item task's [finally]
    raised meanwhile, if any), and the number of [_process_job_queue]
    background tasks added and not yet run. *)
Record State := {
  BATCH_JOBS : gmap string BatchJob;
  JOB_QUEUE : list string;
  PROCESSING_JOBS : gmap string Task;
  item_tasks : gmap string ItemTasks;
  cancelled_tasks : gmap string (option PyException);
  background_tasks : nat
}.

Definition initial : State :=
  {| BATCH_JOBS := ∅; JOB_QUEUE := []; PROCESSING_JOBS := ∅;
     item_tasks := ∅; cancelled_tasks := ∅; background_tasks := 0 |}.

Definition no_item_tasks : ItemTasks :=
  {| waiting := []; sleeping := []; cancelled := [] |}.

Definition item_tasks_of (s : State) (job_id : string) : ItemTasks :=
  default no_item_tasks (item_tasks s !! job_id).

(** The sort key [BATCH_JOBS[jid].priority].  Every id in the queue is a
    key of [BATCH_JOBS] (see [queue_pending]), so the default is never
    used. *)
Definition priority_of (jobs : gmap string BatchJob) (jid : string) : Z :=
  from_option priority 0%Z (jobs !! jid).

Inductive HTTPException := HTTP_404 | HTTP_400.

(** What happened inside the [try] of [_process_batch_job]. *)
Inductive Outcome :=
  | returned
  | raised_exception (e : PyException)
  | awaiting_gather (children : list (nat * Any)).

(** One run of a coroutine between two suspensions. *)
Inductive Event :=
  | create_job (request : BatchJobRequest) (job_id : string) (now : Time)
  | cancel_job (job_id : string) (now : Time)
  | admission_pass
  | task_start (job_id : string) (now : Time)
  | task_resume (job_id : string) (now : Time)
  | cancelled_task_end (job_id : string) (now : Time)
  | item_enter (job_id : string)
  | item_finish (job_id : string) (k : nat) (now : Time)
  | item_cancelled (job_id : string) (k : nat).

Definition set_job (job_id : string) (job : BatchJob) (s : State) : State :=
  {| BATCH_JOBS := <[job_id := job]> (BATCH_JOBS s);
     JOB_QUEUE := JOB_QUEUE s;
     PROCESSING_JOBS := PROCESSING_JOBS s;
     item_tasks := item_tasks s;
     cancelled_tasks := cancelled_tasks s;
     background_tasks := background_tasks s |}.

Definition set_processing (p : gmap string Task) (s : State) : State :=
  {| BATCH_JOBS := BATCH_JOBS s;
     JOB_QUEUE := JOB_QUEUE s;
     PROCESSING_JOBS := p;
     item_tasks := item_tasks s;
     cancelled_tasks := cancelled_tasks s;
     background_tasks := background_tasks s |}.

Definition set_item_tasks (job_id : string) (its : ItemTasks) (s : State)
    : State :=
  {| BATCH_JOBS := BATCH_JOBS s;
     JOB_QUEUE := JOB_QUEUE s;
     PROCESSING_JOBS := PROCESSING_JOBS s;
     item_tasks := <[job_id := its]> (item_tasks s);
     cancelled_tasks := cancelled_tasks s;
     background_tasks := background_tasks s |}.

Definition set_cancelled_tasks (c : gmap string (option PyException))
    (s : State) : State :=
  {| BATCH_JOBS := BATCH_JOBS s;
     JOB_QUEUE := JOB_QUEUE s;
     PROCESSING_JOBS := PROCESSING_JOBS s;
     item_tasks := item_tasks s;
     cancelled_tasks := c;
     background_tasks := background_tasks s |}.

Definition set_queue (q : list string) (s : State) : State :=
  {| BATCH_JOBS := BATCH_JOBS s;
     JOB_QUEUE := q;
     PROCESSING_JOBS := PROCESSING_JOBS s;
     item_tasks := item_tasks s;
     cancelled_tasks := cancelled_tasks s;
     background_tasks := background_tasks s |}.

Definition set_background_tasks (n : nat) (s : State) : State :=
  {| BATCH_JOBS := BATCH_JOBS s;
     JOB_QUEUE := JOB_QUEUE s;
     PROCESSING_JOBS := PROCESSING_JOBS s;
     item_tasks := item_tasks s;
     cancelled_tasks := cancelled_tasks s;
     background_tasks := n |}.

Section Executor.

(** The [try] bodies of the executors are mocks: they build a constant
    result and raise nothing.  [item_error t i item] is the exception that
    the processing they stand in for raises on item [i] of a job of type
    [t], if any; for the mocks as written it is [no_item_error]. *)
Variable item_error : BatchJobType → nat → Any → option PyException.

(** ** Submission *)

Definition new_job (request : BatchJobRequest) (jid : string) (now : Time)
    : BatchJob :=
  {| job_id := jid;
     job_type := req_job_type request;
     name := req_name request;
     description := req_description request;
     status := PENDING;
     created_at := now;
     started_at := None;
     completed_at := None;
     total_items := length (req_items request);
     processed_items := 0;
     successful_items := 0;
     failed_items := 0;
     progress_percentage := 0%float;
     results := [];
     errors := [];
     parameters := req_parameters request;
     priority := req_priority request;
     max_workers := req_max_workers request |}.

(** [create_batch_job]; [jid] is the fresh [uuid.uuid4()]. *)
Definition create_batch_job (request : BatchJobRequest) (jid : string)
    (now : Time) (s : State) : State :=
  let jobs := <[jid := new_job request jid now]> (BATCH_JOBS s) in
  {| BATCH_JOBS := jobs;
     JOB_QUEUE := sort_desc (priority_of jobs) (JOB_QUEUE s ++ [jid]);
     PROCESSING_JOBS := PROCESSING_JOBS s;
     item_tasks := item_tasks s;
     cancelled_tasks := cancelled_tasks s;
     background_tasks := S (background_tasks s) |}.

(** The [queue_position] of the response: [JOB_QUEUE.index(job_id) + 1]. *)
Definition queue_position (s : State) (jid : string) : option nat :=
  S <$> (fst <$> list_find (λ j, j = jid) (JOB_QUEUE s)).

(** ** Admission: [_process_job_queue] *)

Fixpoint process_queue_loop (jobs : gmap string BatchJob) (queue : list string)
    (processing : gmap string Task) : list string * gmap string Task :=
  match queue with
  | [] => ([], processing)
  | job_id :: rest =>
      if decide (size processing < 3) then
        match jobs !! job_id with
        | Some job =>
            if decide (status job = PENDING)
            then
              process_queue_loop jobs rest
                (<[job_id := task_created]> processing)
            else process_queue_loop jobs rest processing
        | None => process_queue_loop jobs rest processing
        end
      else (queue, processing)
  end.

Definition _process_job_queue (s : State) : State :=
  let qp :=
    process_queue_loop (BATCH_JOBS s) (JOB_QUEUE s) (PROCESSING_JOBS s) in
  {| BATCH_JOBS := BATCH_JOBS s;
     JOB_QUEUE := qp.1;
     PROCESSING_JOBS := qp.2;
     item_tasks := item_tasks s;
     cancelled_tasks := cancelled_tasks s;
     background_tasks := background_tasks s |}.

(** ** Execution *)

(** The [try]/[except] around one item. *)
Definition record_item (t : BatchJobType) (now : Time) (it : nat * Any)
    (job : BatchJob) : BatchJob :=
  match item_error t it.1 it.2 with
  | None =>
      set_successful_items (S (successful_items job))
        (set_results
           (results job ++
            [{| res_index := it.1; res_input := it.2;
                res_payload := mock_payload t; res_processed_at := now |}])
           job)
  | Some e =>
      set_failed_items (S (failed_items job))
        (set_errors
           (errors job ++
            [item_error_entry it.1
               (if decide (t = NLP_ANALYSIS) then Some it.2 else None) e now])
           job)
  end.

(** [job.processed_items += 1] and then
    [job.progress_percentage = (job.processed_items / job.total_items) * 100],
    which raises when [total_items] is 0. *)
Definition count_item (job : BatchJob) : BatchJob * option PyException :=
  let job' := set_processed_items (S (processed_items job)) job in
  if decide (total_items job' = 0) then (job', Some ZeroDivisionError)
  else
    (set_progress_percentage
       (percentage (processed_items job') (total_items job')) job',
     None).

(** The [for] loop of the four executors that never suspend. *)
Fixpoint process_items (t : BatchJobType) (now : Time)
    (items : list (nat * Any)) (job : BatchJob)
    : BatchJob * option PyException :=
  match items with
  | [] => (job, None)
  | it :: rest =>
      match count_item (record_item t now it job) with
      | (job', Some e) => (job', Some e)
      | (job', None) => process_items t now rest job'
      end
  end.

Definition process_batch (t : BatchJobType) (now : Time) (job : BatchJob)
    : BatchJob * option PyException :=
  match parameter_items job with
  | None => (job, Some TypeError_not_iterable)
  | Some items => process_items t now (enumerate items) job
  end.

Definition _process_document_batch := process_batch DOCUMENT_CLASSIFICATION.
Definition _process_risk_batch := process_batch RISK_ASSESSMENT.
Definition _process_regulatory_batch := process_batch REGULATORY_ANALYSIS.
Definition _process_prediction_batch := process_batch BULK_PREDICTION.

(** [_process_nlp_batch] up to the [await] of [asyncio.gather]: the
    semaphore, then one [process_item] task per item.  A gather of no
    tasks is done at once. *)
Definition _process_nlp_batch (job : BatchJob) : Outcome :=
  if decide (max_workers job < 0)%Z
  then raised_exception ValueError_semaphore_value
  else
    match parameter_items job with
    | None => raised_exception TypeError_not_iterable
    | Some [] => returned
    | Some items => awaiting_gather (enumerate items)
    end.

Definition of_loop (r : BatchJob * option PyException) : BatchJob * Outcome :=
  (r.1, from_option raised_exception returned r.2).

(** The dispatch on [job.job_type]. *)
Definition run_executor (now : Time) (job : BatchJob) : BatchJob * Outcome :=
  match job_type job with
  | NLP_ANALYSIS => (job, _process_nlp_batch job)
  | DOCUMENT_CLASSIFICATION => of_loop (_process_document_batch now job)
  | RISK_ASSESSMENT => of_loop (_process_risk_batch now job)
  | REGULATORY_ANALYSIS => of_loop (_process_regulatory_batch now job)
  | BULK_PREDICTION => of_loop (_process_prediction_batch now job)
  | MODEL_TRAINING =>
      (job, raised_exception (ValueError_unknown_job_type MODEL_TRAINING))
  end.

(** The end of the [try] of [_process_batch_job] and its [except] arm. *)
Definition job_completed (now : Time) (job : BatchJob) : BatchJob :=
  set_progress_percentage 100%float
    (set_completed_at (Some now) (set_status COMPLETED job)).

Definition job_failed (e : PyException) (now : Time) (job : BatchJob)
    : BatchJob :=
  set_errors (errors job ++ [job_failure e now])
    (set_completed_at (Some now) (set_status FAILED job)).

(** The [finally] of [_process_batch_job], after the job was written. *)
Definition task_done (job_id : string) (job : BatchJob) (s : State) : State :=
  set_processing (delete job_id (PROCESSING_JOBS s)) (set_job job_id job s).

(** [_process_batch_job] from its start to the end or to the gather. *)
Definition _process_batch_job (job_id : string) (now : Time) (s : State)
    : option State :=
  job ← BATCH_JOBS s !! job_id;
  let started := set_started_at (Some now) (set_status PROCESSING job) in
  match run_executor now started with
  | (job', returned) => Some (task_done job_id (job_completed now job') s)
  | (job', raised_exception e) =>
      Some (task_done job_id (job_failed e now job') s)
  | (job', awaiting_gather children) =>
      Some
        (set_item_tasks job_id
           {| waiting := children; sleeping := []; cancelled := [] |}
           (set_processing
              (<[job_id := task_gathering None]> (PROCESSING_JOBS s))
              (set_job job_id job' s)))
  end.

(** [_process_batch_job] when the gather hands back control. *)
Definition _process_batch_job_resume (job_id : string) (now : Time)
    (s : State) : option State :=
  job ← BATCH_JOBS s !! job_id;
  match PROCESSING_JOBS s !! job_id with
  | Some (task_gathering (Some e)) =>
      Some (task_done job_id (job_failed e now job) s)
  | Some (task_gathering None) =>
      match waiting (item_tasks_of s job_id),
            sleeping (item_tasks_of s job_id) with
      | [], [] => Some (task_done job_id (job_completed now job) s)
      | _, _ => None
      end
  | _ => None
  end.

(** ** The item tasks of an NLP job *)

(** [process_item] from its start through [async with semaphore] to the
    sleep: the first waiting task, when the semaphore has a permit left. *)
Definition process_item_enter (job_id : string) (s : State) : option State :=
  job ← BATCH_JOBS s !! job_id;
  let its := item_tasks_of s job_id in
  match waiting its with
  | [] => None
  | it :: rest =>
      if decide (Z.of_nat (length (sleeping its) + length (cancelled its))
                 < max_workers job)%Z
      then
        Some
          (set_item_tasks job_id
             {| waiting := rest; sleeping := sleeping its ++ [it];
                cancelled := cancelled its |} s)
      else None
  end.

(** An exception that leaves an item task reaches the gather, which keeps
    the first one for the waiting [_process_batch_job]. *)
Definition gather_exception (job_id : string) (r : option PyException)
    (s : State) : State :=
  match r, PROCESSING_JOBS s !! job_id with
  | Some e, Some (task_gathering None) =>
      set_processing
        (<[job_id := task_gathering (Some e)]> (PROCESSING_JOBS s)) s
  | _, _ => s
  end.

(** [process_item] from the end of the sleep to its end. *)
Definition process_item_finish (job_id : string) (k : nat) (now : Time)
    (s : State) : option State :=
  job ← BATCH_JOBS s !! job_id;
  let its := item_tasks_of s job_id in
  it ← sleeping its !! k;
  let r := count_item (record_item NLP_ANALYSIS now it job) in
  Some
    (gather_exception job_id r.2
       (set_item_tasks job_id
          {| waiting := waiting its; sleeping := delete k (sleeping its);
             cancelled := cancelled its |}
          (set_job job_id r.1 s))).

(** The same for a cancelled [_process_batch_job] task. *)
Definition cancelled_exception (job_id : string) (r : option PyException)
    (s : State) : State :=
  match r, cancelled_tasks s !! job_id with
  | Some e, Some None =>
      set_cancelled_tasks (<[job_id := Some e]> (cancelled_tasks s)) s
  | _, _ => s
  end.

(** [process_item] when [CancelledError] arrives at the sleep: neither arm
    of the [try] runs, the [finally] does. *)
Definition process_item_cancelled (job_id : string) (k : nat) (s : State)
    : option State :=
  job ← BATCH_JOBS s !! job_id;
  let its := item_tasks_of s job_id in
  it ← cancelled its !! k;
  let r := count_item job in
  Some
    (cancelled_exception job_id r.2
       (set_item_tasks job_id
          {| waiting := waiting its; sleeping := sleeping its;
             cancelled := delete k (cancelled its) |}
          (set_job job_id r.1 s))).

(** ** Cancellation *)

(** [PROCESSING_JOBS[job_id].cancel()].  A task in a pending gather
    cancels the gather, which cancels the item tasks: the waiting ones end
    without running their body, the sleeping ones get [CancelledError].
    When the gather is done already only the task itself is cancelled. *)
Definition task_cancel (job_id : string) (s : State) : State :=
  match PROCESSING_JOBS s !! job_id with
  | Some (task_gathering None) =>
      let its := item_tasks_of s job_id in
      set_cancelled_tasks (<[job_id := None]> (cancelled_tasks s))
        (set_item_tasks job_id
           {| waiting := []; sleeping := [];
              cancelled := cancelled its ++ sleeping its |} s)
  | Some (task_gathering (Some _)) =>
      set_cancelled_tasks (<[job_id := None]> (cancelled_tasks s)) s
  | Some task_created | None => s
  end.

Definition cancel_batch_job (job_id : string) (now : Time) (s : State)
    : HTTPException + State :=
  match BATCH_JOBS s !! job_id with
  | None => inl HTTP_404
  | Some job =>
      if decide (status job = COMPLETED) then inl HTTP_400
      else
        let s1 :=
          if decide (status job = PROCESSING) then
            if decide (is_Some (PROCESSING_JOBS s !! job_id)) then
              let s' := task_cancel job_id s in
              set_processing (delete job_id (PROCESSING_JOBS s')) s'
            else s
          else s in
        let s2 :=
          if decide (job_id ∈ JOB_QUEUE s1)
          then set_queue (remove_first job_id (JOB_QUEUE s1)) s1
          else s1 in
        inr
          (set_job job_id
             (set_completed_at (Some now) (set_status CANCELLED job)) s2)
  end.

(** A cancelled [_process_batch_job] unwinds: with the exception of an item
    task through the [except] arm, with [CancelledError] past it; the
    [finally] runs in both cases. *)
Definition _process_batch_job_cancelled (job_id : string) (now : Time)
    (s : State) : option State :=
  job ← BATCH_JOBS s !! job_id;
  r ← cancelled_tasks s !! job_id;
  let s' := set_cancelled_tasks (delete job_id (cancelled_tasks s)) s in
  match r with
  | Some e => Some (task_done job_id (job_failed e now job) s')
  | None => Some (set_processing (delete job_id (PROCESSING_JOBS s')) s')
  end.

(** ** Events and runs *)

Definition apply_event (s : State) (ev : Event) : option State :=
  match ev with
  | create_job request jid now =>
      match BATCH_JOBS s !! jid with
      | None => Some (create_batch_job request jid now s)
      | Some _ => None
      end
  | cancel_job jid now =>
      match cancel_batch_job jid now s with
      | inl _ => Some s
      | inr s' => Some s'
      end
  | admission_pass =>
      match background_tasks s with
      | 0 => None
      | S n => Some (_process_job_queue (set_background_tasks n s))
      end
  | task_start jid now =>
      match PROCESSING_JOBS s !! jid with
      | Some task_created => _process_batch_job jid now s
      | _ => None
      end
  | task_resume jid now => _process_batch_job_resume jid now s
  | cancelled_task_end jid now => _process_batch_job_cancelled jid now s
  | item_enter jid => process_item_enter jid s
  | item_finish jid k now => process_item_finish jid k now s
  | item_cancelled jid k => process_item_cancelled jid k s
  end.

Fixpoint run (s : State) (evs : list Event) : option State :=
  match evs with
  | [] => Some s
  | ev :: evs' => s' ← apply_event s ev; run s' evs'
  end.

Definition reachable (s : State) : Prop := ∃ evs, run initial evs = Some s.

End Executor.

(** The mocks as they are written: no item raises. *)
Definition no_item_error : BatchJobType → nat → Any → option PyException :=
  λ _ _ _, None.

(** ** Invariants *)

Definition idle (its : ItemTasks) : Prop :=
  waiting its = [] ∧ sleeping its = [] ∧ cancelled its = [].

Definition fresh_counters (job : BatchJob) : Prop :=
  processed_items job = 0 ∧ successful_items job = 0 ∧ failed_items job = 0.

Definition counters_eq (job : BatchJob) : Prop :=
  processed_items job = successful_items job + failed_items job.

Definition counters_le (job : BatchJob) : Prop :=
  successful_items job + failed_items job ≤ processed_items job.

(** What [progress_percentage] holds while the job is not completed: the
    [0.0] of the submission until an item is counted and the division is
    done, and then the percentage of the last count. *)
Definition progress_tracks (job : BatchJob) : Prop :=
  (total_items job = 0 → progress_percentage job = 0%float) ∧
  (processed_items job = 0 → progress_percentage job = 0%float) ∧
  (total_items job ≠ 0 → processed_items job ≠ 0 →
   progress_percentage job
   = percentage (processed_items job) (total_items job)).

Definition progress_inv (job : BatchJob) : Prop :=
  (status job = COMPLETED → progress_percentage job = 100%float) ∧
  (status job ≠ COMPLETED → progress_tracks job).

(** The life of one job id, seen through the store and the event loop:
    not submitted; queued; popped by an admission pass with its task not
    yet run; running in the gather; completed; or failed or cancelled. *)
Definition job_ok (oj : option BatchJob) (queued : Prop) (task : option Task)
    (its : ItemTasks) (ctask : option (option PyException)) : Prop :=
  match oj with
  | None => ¬ queued ∧ task = None ∧ idle its ∧ ctask = None
  | Some job =>
      counters_le job ∧ progress_inv job ∧
      ((queued ∧ task = None ∧ status job = PENDING ∧ fresh_counters job ∧
        idle its ∧ ctask = None) ∨
       (¬ queued ∧ task = Some task_created ∧
        (status job = PENDING ∨ status job = CANCELLED) ∧
        fresh_counters job ∧ idle its ∧ ctask = None) ∨
       (¬ queued ∧ (∃ r, task = Some (task_gathering r)) ∧
        status job = PROCESSING ∧ counters_eq job ∧ cancelled its = [] ∧
        ctask = None) ∨
       (¬ queued ∧ task = None ∧ status job = COMPLETED ∧ counters_eq job ∧
        idle its ∧ ctask = None) ∨
       (¬ queued ∧ task = None ∧
        (status job = FAILED ∨ status job = CANCELLED)))
  end.

Definition job_ok_at (s : State) (j : string) : Prop :=
  job_ok (BATCH_JOBS s !! j) (j ∈ JOB_QUEUE s) (PROCESSING_JOBS s !! j)
    (item_tasks_of s j) (cancelled_tasks s !! j).

Record invariant (s : State) : Prop := {
  inv_jobs : ∀ j, job_ok_at s j;
  inv_queue_NoDup : NoDup (JOB_QUEUE s);
  inv_processing_size : size (PROCESSING_JOBS s) ≤ 3
}.

(** The jobs whose status is [PROCESSING]. *)
Definition processing_status_jobs (s : State) : gmap string BatchJob :=
  filter (λ kv, status kv.2 = PROCESSING) (BATCH_JOBS s).

(** The effect of one item on what the invariant looks at. *)
Definition step_counted (job job' : BatchJob) (r : option PyException) : Prop :=
  status job' = status job ∧ total_items job' = total_items job ∧
  (counters_le job → counters_le job') ∧
  (progress_tracks job → progress_tracks job') ∧
  (is_Some r → total_items job = 0).

Definition outcome_is_gather (o : Outcome) : Prop :=
  match o with awaiting_gather _ => True | _ => False end.

(** ** Proof automation *)

(** The five phases of a submitted job in [job_ok], and the choice of the
    phase the job is in afterwards. *)
Ltac phases H :=
  destruct H as
    (? & ? &
     [(? & ? & ? & ? & (? & ? & ?) & ?) |
      [(? & ? & [?|?] & ? & (? & ? & ?) & ?) |
       [(? & [? ?] & ? & ? & ? & ?) |
        [(? & ? & ? & ? & (? & ? & ?) & ?) | (? & ? & [?|?])]]]]);
  try done.

Ltac close_phase :=
  solve [split_and!; first [done | eauto | congruence | tauto | lia]].

Ltac pick_phase :=
  first
    [ solve [left; close_phase]
    | solve [right; left; close_phase]
    | solve [do 2 right; left; close_phase]
    | solve [do 3 right; left; close_phase]
    | solve [do 4 right; close_phase] ].

(** Shared opening of the preservation proofs: other job ids keep their
    view of the state. *)
Ltac other_job frame s :=
  apply (frame s); cbn;
  rewrite ?lookup_insert_ne, ?lookup_delete_ne by done; done.

Ltac this_job :=
  unfold job_ok_at, item_tasks_of in *; cbn;
  rewrite ?lookup_insert_eq, ?lookup_delete_eq; cbn.

(** ** The specification's statements *)

Definition occurrences (j : string) (l : list string) : nat :=
  length (filter (λ x, x = j) l).

(** The queue invariant as the specification words it: the ids in the
    queue are pending jobs, and every pending job is in the queue exactly
    once. *)
Definition queue_is_the_pending_jobs (s : State) : Prop :=
  (∀ j, j ∈ JOB_QUEUE s →
     ∃ job, BATCH_JOBS s !! j = Some job ∧ status job = PENDING) ∧
  (∀ j job, BATCH_JOBS s !! j = Some job → status job = PENDING →
     occurrences j (JOB_QUEUE s) = 1).


(** ** Example submissions and runs *)

Definition text_item (t : string) : list (string * Any) := [("text", PyStr t)].

Definition request (t : BatchJobType) (items : list (list (string * Any)))
    (params : list (string * Any)) (prio : Z) : BatchJobRequest :=
  {| req_job_type := t;
     req_name := "job";
     req_description := None;
     req_items := items;
     req_parameters := params;
     req_priority := prio;
     req_max_workers := 5;
     req_timeout_per_item := 60 |}.

(** An NLP job whose two items are also passed under [parameters]. *)
Definition nlp_request (prio : Z) : BatchJobRequest :=
  request NLP_ANALYSIS [text_item "a"; text_item "b"]
    [("items", PyList [PyDict (text_item "a"); PyDict (text_item "b")])] prio.

Definition state_after (evs : list Event) : State :=
  default initial (run no_item_error initial evs).

(** Four NLP jobs are submitted, each followed by its admission pass;
    three are admitted and start, the fourth stays queued. *)
Definition saturating_run : list Event :=
  [create_job (nlp_request 5) "j1" 1%Q; admission_pass;
   create_job (nlp_request 5) "j2" 2%Q; admission_pass;
   create_job (nlp_request 5) "j3" 3%Q; admission_pass;
   create_job (nlp_request 5) "j4" 4%Q; admission_pass;
   task_start "j1" 5%Q;
   task_start "j2" 6%Q;
   task_start "j3" 7%Q].

(** A job is submitted and popped by the admission pass. *)
Definition popped_run : list Event :=
  [create_job (nlp_request 5) "j1" 1%Q; admission_pass].

(** A model-training job without items is submitted, admitted and run. *)
Definition model_training_run : list Event :=
  [create_job (request MODEL_TRAINING [] [] 5) "j1" 1%Q;
   admission_pass;
   task_start "j1" 2%Q].

(** The job ["j1"] after a run. *)
Definition job_after (evs : list Event) (jid : string) : option BatchJob :=
  BATCH_JOBS (state_after evs) !! jid.

(** After [saturating_run], the first item of ["j1"] is processed. *)
Definition progress_run : list Event :=
  saturating_run ++ [item_enter "j1"; item_finish "j1" 0 8%Q].

(** The job ["j1"] at the end of [progress_run]. *)
Definition half_done_job : BatchJob :=
  {| job_id := "j1";
     job_type := NLP_ANALYSIS;
     name := "job";
     description := None;
     status := PROCESSING;
     created_at := 1%Q;
     started_at := Some 5%Q;
     completed_at := None;
     total_items := 2;
     processed_items := 1;
     successful_items := 1;
     failed_items := 0;
     progress_percentage := 50%float;
     results :=
       [{| res_index := 0; res_input := PyDict (text_item "a");
           res_payload := sentiment_entities; res_processed_at := 8%Q |}];
     errors := [];
     parameters := req_parameters (nlp_request 5);
     priority := 5;
     max_workers := 5 |}.




(** A job with two items, as the tests and the demo submit it (the items
    under [items], none under [parameters]), is submitted, admitted and
    run. *)
Definition two_items_run (t : BatchJobType) : list Event :=
  [create_job (request t [text_item "a"; text_item "b"] [] 5) "j1" 1%Q;
   admission_pass;
   task_start "j1" 2%Q].

(** An admitted job is cancelled before its task has run; then the task
    runs. *)
Definition cancel_before_start_run : list Event :=
  popped_run ++ [cancel_job "j1" 2%Q; task_start "j1" 3%Q].

(** A queued job is cancelled. *)
Definition cancelled_run : list Event :=
  [create_job (nlp_request 5) "j1" 1%Q; cancel_job "j1" 2%Q].

Definition is_submission (ev : Event) : bool :=
  match ev with create_job _ _ _ => true | _ => false end.

(** What the specification promises a queued job when a slot is freed:
    some continuation without a new submission creates its task. *)
Definition started_without_submission
    (item_error : BatchJobType → nat → Any → option PyException)
    (s : State) (j : string) : Prop :=
  ∃ evs s',
    Forall (λ ev, is_submission ev = false) evs ∧
    run item_error s evs = Some s' ∧
    is_Some (PROCESSING_JOBS s' !! j).

(** After [saturating_run], job ["j1"] processes its two items and
    completes, which frees its slot; ["j4"] is still queued. *)
Definition slot_freed_run : list Event :=
  saturating_run ++
  [item_enter "j1"; item_enter "j1";
   item_finish "j1" 0 8%Q; item_finish "j1" 0 9%Q;
   task_resume "j1" 10%Q].

(** ** The order of the queue *)

(** Job [a] is served before job [b]: its priority is higher, or it is
    the same and [a] was not created after [b]. *)
Definition served_before (jobs : gmap string BatchJob) (a b : string)
    : Prop :=
  ∃ ja jb,
    jobs !! a = Some ja ∧ jobs !! b = Some jb ∧
    ((priority jb < priority ja)%Z ∨
     priority ja = priority jb ∧ (created_at ja <= created_at jb)%Q).

Definition queue_ordered (s : State) : Prop :=
  StronglySorted (served_before (BATCH_JOBS s)) (JOB_QUEUE s).

(** The values [time.time()] returns to the submissions of a run. *)
Definition creation_time (ev : Event) : option Time :=
  match ev with create_job _ _ now => Some now | _ => None end.

Definition creation_times (evs : list Event) : list Time :=
  omap creation_time evs.

Definition same_identity (job job' : BatchJob) : Prop :=
  priority job' = priority job ∧ created_at job' = created_at job.

(** The jobs in the queue were created no later than the times [ts]. *)
Definition queue_created_by (s : State) (ts : list Time) : Prop :=
  ∀ j job t,
    j ∈ JOB_QUEUE s → BATCH_JOBS s !! j = Some job → t ∈ ts →
    (created_at job <= t)%Q.

(** With the three slots taken, job ["A"] is submitted with priority 1 and
    then job ["B"] with priority 9. *)
Definition priority_run : list Event :=
  [create_job (nlp_request 5) "j1" 1%Q; admission_pass;
   create_job (nlp_request 5) "j2" 2%Q; admission_pass;
   create_job (nlp_request 5) "j3" 3%Q; admission_pass;
   task_start "j1" 4%Q; task_start "j2" 5%Q; task_start "j3" 6%Q;
   create_job (nlp_request 1) "A" 7%Q; admission_pass;
   create_job (nlp_request 9) "B" 8%Q; admission_pass].

(** ** The history of a job record *)

(** The assignments to a [BatchJob] that occur in the module: the
    attribute writes of [_process_batch_job], [cancel_batch_job] and the
    executors, and the appends to [results] and [errors] together with
    the counter they bump. *)
Inductive job_mutation : BatchJob → BatchJob → Prop :=
  | mutate_status v job : job_mutation job (set_status v job)
  | mutate_started_at v job : job_mutation job (set_started_at v job)
  | mutate_completed_at v job : job_mutation job (set_completed_at v job)
  | mutate_progress v job :
      job_mutation job (set_progress_percentage v job)
  | mutate_processed job :
      job_mutation job (set_processed_items (S (processed_items job)) job)
  | mutate_result r job :
      job_mutation job
        (set_successful_items (S (successful_items job))
           (set_results (results job ++ [r]) job))
  | mutate_item_error i input e now job :
      job_mutation job
        (set_failed_items (S (failed_items job))
           (set_errors (errors job ++ [item_error_entry i input e now]) job))
  | mutate_job_failure e now job :
      job_mutation job (set_errors (errors job ++ [job_failure e now]) job).

Definition job_history : BatchJob → BatchJob → Prop := rtc job_mutation.

Definition is_item_error (e : ErrorEntry) : bool :=
  match e with item_error_entry _ _ _ _ => true | job_failure _ _ => false end.

(** What a submission fixes in the record. *)
Definition same_submission (job job' : BatchJob) : Prop :=
  job_id job' = job_id job ∧ job_type job' = job_type job ∧
  name job' = name job ∧ description job' = description job ∧
  created_at job' = created_at job ∧ total_items job' = total_items job ∧
  parameters job' = parameters job ∧ priority job' = priority job ∧
  max_workers job' = max_workers job.

(** What only grows in the record. *)
Definition job_grows (job job' : BatchJob) : Prop :=
  processed_items job ≤ processed_items job' ∧
  successful_items job ≤ successful_items job' ∧
  failed_items job ≤ failed_items job' ∧
  results job `prefix_of` results job' ∧
  errors job `prefix_of` errors job'.

(** The run of job ["j1"] from its admission to its completion. *)
Definition first_job_steps : list Event :=
  [admission_pass; task_start "j1" 2%Q;
   item_enter "j1"; item_enter "j1";
   item_finish "j1" 0 3%Q; item_finish "j1" 0 4%Q;
   task_resume "j1" 5%Q].

Definition first_job_run : list Event :=
  create_job (nlp_request 5) "j1" 1%Q :: first_job_steps.

(** The job an event works on; the admission pass works on the queue. *)
Definition event_target (ev : Event) : option string :=
  match ev with
  | create_job _ jid _ | cancel_job jid _ | task_start jid _
  | task_resume jid _ | cancelled_task_end jid _ | item_enter jid
  | item_finish jid _ _ | item_cancelled jid _ => Some jid
  | admission_pass => None
  end.

(** A job that was cancelled while it was queued, [job] being its record
    before the cancellation: only [completed_at] can differ from the
    record the cancellation wrote, and the job has no task of any kind. *)
Definition withdrawn (s : State) (j : string) (job : BatchJob) : Prop :=
  (∃ t, BATCH_JOBS s !! j
        = Some (set_completed_at t (set_status CANCELLED job))) ∧
  (j ∉ JOB_QUEUE s) ∧
  PROCESSING_JOBS s !! j = None ∧
  idle (item_tasks_of s j) ∧
  cancelled_tasks s !! j = None.

(** Job ["j4"] waits in the queue and is cancelled there; then ["j1"]
    completes and a new submission triggers an admission pass. *)
Definition cancel_queued_steps : list Event :=
  [item_enter "j1"; item_enter "j1";
   item_finish "j1" 0 9%Q; item_finish "j1" 0 10%Q; task_resume "j1" 11%Q;
   create_job (nlp_request 5) "j5" 12%Q; admission_pass;
   cancel_job "j4" 13%Q].

(** ** What an executor records *)

Definition item_result (t : BatchJobType) (now : Time) (it : nat * Any)
    : ResultEntry :=
  {| res_index := it.1; res_input := it.2;
     res_payload := mock_payload t; res_processed_at := now |}.

(** The result entries and the error entries of a list of indexed items,
    in the order of the items. *)
Definition item_results
    (item_error : BatchJobType → nat → Any → option PyException)
    (t : BatchJobType) (now : Time) (its : list (nat * Any))
    : list ResultEntry :=
  omap (λ it, match item_error t it.1 it.2 with
              | None => Some (item_result t now it)
              | Some _ => None
              end) its.

Definition item_errors
    (item_error : BatchJobType → nat → Any → option PyException)
    (t : BatchJobType) (now : Time) (its : list (nat * Any))
    : list ErrorEntry :=
  omap (λ it, (λ e, item_error_entry it.1
                      (if decide (t = NLP_ANALYSIS) then Some it.2 else None)
                      e now) <$> item_error t it.1 it.2) its.

(** The job types whose executor is a plain loop. *)
Definition sequential (t : BatchJobType) : Prop :=
  t = DOCUMENT_CLASSIFICATION ∨ t = RISK_ASSESSMENT ∨
  t = REGULATORY_ANALYSIS ∨ t = BULK_PREDICTION.

(** Whether every second item fails. *)
Definition odd_items_fail : BatchJobType → nat → Any → option PyException :=
  λ _ i _, if Nat.odd i then Some (ProcessingError "odd") else None.

(** A risk-assessment job with three items under [parameters]. *)
Definition three_items_job : BatchJob :=
  new_job
    (request RISK_ASSESSMENT [text_item "a"; text_item "b"; text_item "c"]
       [("items", PyList [PyStr "a"; PyStr "b"; PyStr "c"])] 5)
    "j1" 1%Q.

(** A risk-assessment submission without items whose [parameters] hold two
    items of their own, popped by the admission pass. *)
Definition uncounted_items_run : list Event :=
  [create_job
     (request RISK_ASSESSMENT [] [("items", PyList [PyStr "a"; PyStr "b"])] 5)
     "j1" 1%Q;
   admission_pass].

(** ** The place of a new job in the queue *)

Definition by_priority (jobs : gmap string BatchJob) (a b : string) : Prop :=
  (priority_of jobs b ≤ priority_of jobs a)%Z.

Definition queue_by_priority (s : State) : Prop :=
  StronglySorted (by_priority (BATCH_JOBS s)) (JOB_QUEUE s).

(** The queued jobs a submission of priority [p] goes behind, and those it
    goes ahead of. *)
Definition queued_ahead (s : State) (p : Z) : list string :=
  filter (λ j, (p ≤ priority_of (BATCH_JOBS s) j)%Z) (JOB_QUEUE s).

Definition queued_behind (s : State) (p : Z) : list string :=
  filter (λ j, (priority_of (BATCH_JOBS s) j < p)%Z) (JOB_QUEUE s).

(** ** The endpoints that read the store *)

(** An index of a slice over a list of [n] elements: a negative one counts
    from the end, and both kinds are clamped to the list. *)
Definition slice_index (n : nat) (i : Z) : nat :=
  if decide (i < 0)%Z then Z.to_nat (Z.max 0 (i + Z.of_nat n))
  else Nat.min (Z.to_nat i) n.

(** [l[start:stop]] *)
Definition py_slice {A} (l : list A) (start stop : Z) : list A :=
  let a := slice_index (length l) start in
  let b := slice_index (length l) stop in
  take (b - a) (drop a l).

(** The [data] of the response of [get_job_results]; [rr_errors] is the
    key [errors], which is there only on request. *)
Record ResultsResponse := {
  rr_job_id : string;
  rr_status : BatchStatus;
  rr_results : list ResultEntry;
  rr_total_results : nat;
  rr_limit : Z;
  rr_offset : Z;
  rr_has_more : bool;
  rr_errors : option (list ErrorEntry)
}.

(** [get_job_results]; the left summand is the status code of the
    [HTTPException] it raises. *)
Definition get_job_results (s : State) (job_id : string) (limit offset : Z)
    (include_errors : bool) : nat + ResultsResponse :=
  match BATCH_JOBS s !! job_id with
  | None => inl 404
  | Some job =>
      inr
        {| rr_job_id := job_id;
           rr_status := status job;
           rr_results := py_slice (results job) offset (offset + limit);
           rr_total_results := length (results job);
           rr_limit := limit;
           rr_offset := offset;
           rr_has_more :=
             bool_decide (offset + limit < Z.of_nat (length (results job)))%Z;
           rr_errors := if include_errors then Some (errors job) else None |}
  end.

(** The [i]-th page of [limit] results, for a client that starts at
    offset 0 and advances by [limit]. *)
Definition results_page (s : State) (j : string) (limit : Z) (i : nat)
    : nat + ResultsResponse :=
  get_job_results s j limit (Z.of_nat i * limit) false.

(** What that client has collected after page [k]. *)
Definition collected_results (s : State) (j : string) (limit : Z) (k : nat)
    : list ResultEntry :=
  flat_map
    (λ i, match results_page s j limit i with
          | inr r => rr_results r
          | inl _ => []
          end)
    (seq 0 (S k)).

(** One entry of [queue_preview]. *)
Record QueueEntry := {
  qe_position : nat;
  qe_job_id : string;
  qe_name : string;
  qe_job_type : BatchJobType;
  qe_priority : Z;
  qe_total_items : nat
}.

(** The [data] of the response of [get_queue_status]; [qs_status_counts]
    is the dict that has one key for each value of [BatchStatus]. *)
Record QueueStatus := {
  qs_queue_length : nat;
  qs_processing_jobs : nat;
  qs_status_counts : BatchStatus → nat;
  qs_queue_preview : list QueueEntry;
  qs_total_jobs : nat
}.

(** [sum(1 for job in BATCH_JOBS.values() if job.status == status)] *)
Definition status_count (s : State) (st : BatchStatus) : nat :=
  size (filter (λ kv : string * BatchJob, status kv.2 = st) (BATCH_JOBS s)).

(** The loop over [enumerate(JOB_QUEUE[:10])]; [None] stands for the
    [KeyError] of [BATCH_JOBS[job_id]]. *)
Definition queue_info (s : State) : option (list QueueEntry) :=
  mapM
    (λ ij : nat * string,
       job ← BATCH_JOBS s !! ij.2;
       Some {| qe_position := ij.1 + 1;
               qe_job_id := ij.2;
               qe_name := name job;
               qe_job_type := job_type job;
               qe_priority := priority job;
               qe_total_items := total_items job |})
    (enumerate (take 10 (JOB_QUEUE s))).

(** [get_queue_status]; an exception in its body is answered with
    status code 500. *)
Definition get_queue_status (s : State) : nat + QueueStatus :=
  match queue_info s with
  | None => inl 500
  | Some info =>
      inr {| qs_queue_length := length (JOB_QUEUE s);
             qs_processing_jobs := size (PROCESSING_JOBS s);
             qs_status_counts := status_count s;
             qs_queue_preview := info;
             qs_total_jobs := size (BATCH_JOBS s) |}
  end.

(** ** The semaphore of an NLP job *)

(** The item tasks that are inside [async with semaphore]: those that
    sleep there, and those that were cancelled there and have not run
    their way out yet. *)
Definition in_semaphore (its : ItemTasks) : nat :=
  length (sleeping its) + length (cancelled its).

Definition semaphore_bound (s : State) (j : string) : Prop :=
  ∀ job, BATCH_JOBS s !! j = Some job →
    (Z.of_nat (in_semaphore (item_tasks_of s j)) ≤ Z.max 0 (max_workers job))%Z.

(** An NLP job of five items and two workers: both permits are taken, and
    one item is done. *)
Definition two_workers_run : list Event :=
  [create_job
     {| req_job_type := NLP_ANALYSIS; req_name := "job";
        req_description := None; req_items := [[]; []; []; []; []];
        req_parameters :=
          [("items", PyList [PyInt 1; PyInt 2; PyInt 3; PyInt 4; PyInt 5])];
        req_priority := 5; req_max_workers := 2;
        req_timeout_per_item := 60 |} "j1" 1%Q;
   admission_pass; task_start "j1" 2%Q;
   item_enter "j1"; item_enter "j1"; item_finish "j1" 1 3%Q;
   item_enter "j1"].

(** ** Which items a job has dealt with *)

Definition error_index (e : ErrorEntry) : option nat :=
  match e with
  | item_error_entry i _ _ _ => Some i
  | job_failure _ _ => None
  end.

(** The indices of the items that have an entry in [results] or an
    item-level entry in [errors]. *)
Definition recorded_indices (job : BatchJob) : list nat :=
  (res_index <$> results job) ++ omap error_index (errors job).

(** Every item under [parameters] is recorded once or is one of the
    [pending] item tasks, and not both; a result carries the item of its
    index. *)
Definition accounts_for (job : BatchJob) (pending : list (nat * Any))
    : Prop :=
  ∃ items,
    parameter_items job = Some items ∧
    recorded_indices job ++ pending.*1 ≡ₚ seq 0 (length items) ∧
    (∀ r, r ∈ results job → items !! res_index r = Some (res_input r)) ∧
    (∀ it, it ∈ pending → items !! it.1 = Some it.2).

Definition items_accounted (s : State) (j : string) : Prop :=
  ∀ job, BATCH_JOBS s !! j = Some job →
    (j ∈ JOB_QUEUE s ∨ PROCESSING_JOBS s !! j = Some task_created →
     results job = [] ∧ errors job = []) ∧
    (∀ r, PROCESSING_JOBS s !! j = Some (task_gathering r) →
       accounts_for job
         (waiting (item_tasks_of s j) ++ sleeping (item_tasks_of s j))) ∧
    (status job = COMPLETED → accounts_for job []).

(** The number of queued jobs an admission pass starts in state [s]. *)
Definition free_slots_taken (s : State) : nat :=
  length (JOB_QUEUE s) `min` (3 - size (PROCESSING_JOBS s)).

(** ** Listing the jobs *)

(** [jobs.sort(key=lambda j: j.created_at, reverse=True)]: a stable sort,
    newest first; jobs created at the same time keep their order. *)
Fixpoint insert_newest (x : BatchJob) (l : list BatchJob) : list BatchJob :=
  match l with
  | [] => [x]
  | y :: l' =>
      if Qlt_le_dec (created_at x) (created_at y)
      then y :: insert_newest x l'
      else x :: l
  end.

Fixpoint sort_newest (l : list BatchJob) : list BatchJob :=
  match l with
  | [] => []
  | x :: l' => insert_newest x (sort_newest l')
  end.

(** The [data] of the response of [list_batch_jobs]. *)
Record JobsPage := {
  jp_jobs : list BatchJob;
  jp_total_jobs : nat;
  jp_limit : Z;
  jp_offset : Z;
  jp_has_more : bool
}.

(** [list_batch_jobs]; [values] is [list(BATCH_JOBS.values())], the
    records in the order of their submission.  A status and a job type
    are never falsy, so a filter applies exactly when it is given. *)
Definition list_batch_jobs (values : list BatchJob)
    (status_filter : option BatchStatus)
    (job_type_filter : option BatchJobType) (limit offset : Z) : JobsPage :=
  let jobs := values in
  let jobs :=
    match status_filter with
    | Some st => filter (λ job, status job = st) jobs
    | None => jobs
    end in
  let jobs :=
    match job_type_filter with
    | Some t => filter (λ job, job_type job = t) jobs
    | None => jobs
    end in
  let jobs := sort_newest jobs in
  {| jp_jobs := py_slice jobs offset (offset + limit);
     jp_total_jobs := length jobs;
     jp_limit := limit;
     jp_offset := offset;
     jp_has_more := bool_decide (offset + limit < Z.of_nat (length jobs))%Z |}.

(** A job passes the filters that are given. *)
Definition passes (status_filter : option BatchStatus)
    (job_type_filter : option BatchJobType) (job : BatchJob) : Prop :=
  from_option (λ st, status job = st) True status_filter ∧
  from_option (λ t, job_type job = t) True job_type_filter.

#[global] Instance passes_dec status_filter job_type_filter job :
  Decision (passes status_filter job_type_filter job).
Proof.
  unfold passes. destruct status_filter, job_type_filter; cbn; apply _.
Defined.

Definition newest_first (l : list BatchJob) : Prop :=
  StronglySorted (λ a b, (created_at b <= created_at a)%Q) l.

(** The records of a state, in the order of the keys of the map. *)
Definition stored_jobs (s : State) : list BatchJob :=
  (map_to_list (BATCH_JOBS s)).*2.

(** ** Submission of a file *)

(** [s.endswith(suffix)] *)
Definition endswith (s suffix : string) : bool :=
  bool_decide
    (Stdlib.Strings.String.list_ascii_of_string suffix
     `suffix_of` Stdlib.Strings.String.list_ascii_of_string s).

(** How the body of [create_job_from_file] ends when it does not reach
    [create_batch_job]: with the [HTTPException] of status 400 that it
    raises itself, or with an exception of the code it calls. *)
Inductive UploadFailure :=
  | unsupported_file_format
  | upload_exception.

Section Upload.

(** The library code [create_job_from_file] calls; [None] stands for an
    exception.  [decode_utf8] is [content.decode('utf-8')], [json_loads]
    is [json.loads], [read_csv_records] is the import of pandas followed by
    [pd.read_csv(io.StringIO(text)).to_dict('records')], and
    [validate_items] and [validate_parameters] are the validation of the
    fields [items] and [parameters] by [BatchJobRequest]. *)
Variable decode_utf8 : list Byte.byte → option string.
Variable json_loads : string → option Any.
Variable read_csv_records : string → option Any.
Variable validate_items : Any → option (list (list (string * Any))).
Variable validate_parameters : Any → option (list (string * Any)).

(** The [try] block up to the request; a file without a name has no
    [endswith]. *)
Definition upload_request (filename : option string)
    (content : list Byte.byte) (job_type : BatchJobType) (name : string)
    (description : option string) (parameters : string)
    : UploadFailure + BatchJobRequest :=
  match filename with
  | None => inl upload_exception
  | Some fname =>
      let parsed : UploadFailure + Any :=
        if endswith fname ".json" then
          from_option inr (inl upload_exception)
            (decode_utf8 content ≫= json_loads)
        else if endswith fname ".csv" then
          from_option inr (inl upload_exception)
            (decode_utf8 content ≫= read_csv_records)
        else inl unsupported_file_format in
      match parsed with
      | inl e => inl e
      | inr items =>
          let parsed_parameters := default (PyDict []) (json_loads parameters) in
          match validate_items items, validate_parameters parsed_parameters with
          | Some items', Some parameters' =>
              inr {| req_job_type := job_type;
                     req_name := name;
                     req_description :=
                       Some
                         match description with
                         | None | Some "" => "Batch job from " +:+ fname
                         | Some d => d
                         end;
                     req_items := items';
                     req_parameters := parameters';
                     req_priority := 5;
                     req_max_workers := 5;
                     req_timeout_per_item := 60 |}
          | _, _ => inl upload_exception
          end
      end
  end.

(** [create_job_from_file]: whatever the [try] block raises is answered
    with status code 500. *)
Definition create_job_from_file (filename : option string)
    (content : list Byte.byte) (job_type : BatchJobType) (name : string)
    (description : option string) (parameters : string)
    (jid : string) (now : Time) (s : State) : nat + State :=
  match upload_request filename content job_type name description parameters
  with
  | inl _ => inl 500
  | inr request => inr (create_batch_job request jid now s)
  end.

End Upload.

(** A parser that accepts the text ["[]"] only, as the empty list. *)
Definition loads_empty_list (text : string) : option Any :=
  if decide (text = "[]") then Some (PyList []) else None.

Definition items_of_list (v : Any) : option (list (list (string * Any))) :=
  match v with PyList [] => Some [] | _ => None end.

Definition parameters_of_dict (v : Any) : option (list (string * Any)) :=
  match v with PyDict d => Some d | _ => None end.

(** ** Cancellation of a running job *)

(** An exception reaches the gather of a job only from the division by
    [total_items]. *)
Definition gather_raised (s : State) (j : string) : Prop :=
  ∀ job e,
    BATCH_JOBS s !! j = Some job →
    PROCESSING_JOBS s !! j = Some (task_gathering (Some e)) →
    total_items job = 0.

(** A job that was cancelled while it was running, [job] being its record
    before the cancellation and [m] the number of item tasks that were
    inside the semaphore then: it has no task and no item task that can
    still record something, and its record differs from [job] in the
    status, in [completed_at], and in [processed_items] and the progress,
    which the unwinding item tasks still count up. *)
Definition stopped (s : State) (j : string) (job : BatchJob) (m : nat)
    : Prop :=
  (∃ job',
     BATCH_JOBS s !! j = Some job' ∧ status job' = CANCELLED ∧
     results job' = results job ∧ errors job' = errors job ∧
     successful_items job' = successful_items job ∧
     failed_items job' = failed_items job ∧
     total_items job' = total_items job ∧
     processed_items job ≤ processed_items job' ∧
     processed_items job' + length (cancelled (item_tasks_of s j))
     = processed_items job + m) ∧
  (j ∉ JOB_QUEUE s) ∧
  PROCESSING_JOBS s !! j = None ∧
  waiting (item_tasks_of s j) = [] ∧
  sleeping (item_tasks_of s j) = [] ∧
  (cancelled_tasks s !! j = None ∨ cancelled_tasks s !! j = Some None).

(** Job ["j1"] of [two_workers_run] is cancelled, and one of its two
    item tasks in the semaphore has unwound. *)
Definition cancel_running_steps : list Event :=
  [item_cancelled "j1" 0; cancelled_task_end "j1" 5%Q].

(** ** The items a job can count *)





(** ** The order in which jobs start *)

(** The ids for which [_process_job_queue] calls [asyncio.create_task], in
    the order of the calls. *)
Fixpoint tasks_created (jobs : gmap string BatchJob) (queue : list string)
    (processing : gmap string Task) : list string :=
  match queue with
  | [] => []
  | job_id :: rest =>
      if decide (size processing < 3) then
        match jobs !! job_id with
        | Some job =>
            if decide (status job = PENDING)
            then
              job_id
              :: tasks_created jobs rest
                   (<[job_id := task_created]> processing)
            else tasks_created jobs rest processing
        | None => tasks_created jobs rest processing
        end
      else []
  end.

Section Fifo.

Variable item_error : BatchJobType → nat → Any → option PyException.

(** [asyncio.create_task] schedules the first step of the new task with
    [call_soon], and the event loop runs what is ready first in, first
    out: tasks run their first step in the order of their creation.
    [ready] lists the tasks that are created and have not run yet, the
    oldest first; a pass appends the tasks it creates, and only the task
    at the head can start. *)
Definition ready_step (s : State) (ready : list string) (ev : Event)
    : option (list string) :=
  match ev with
  | admission_pass =>
      Some
        (ready
         ++ tasks_created (BATCH_JOBS s) (JOB_QUEUE s) (PROCESSING_JOBS s))
  | task_start jid _ =>
      match ready with
      | j :: rest => if decide (j = jid) then Some rest else None
      | [] => None
      end
  | _ => Some ready
  end.

(** The runs of the model in which the tasks start in that order. *)
Fixpoint run_fifo (s : State) (ready : list string) (evs : list Event)
    : option (State * list string) :=
  match evs with
  | [] => Some (s, ready)
  | ev :: evs' =>
      s' ← apply_event item_error s ev;
      ready' ← ready_step s ready ev;
      run_fifo s' ready' evs'
  end.

End Fifo.

(** [b] stands before [a] in the list. *)
Definition before (b a : string) (l : list string) : Prop :=
  ∃ l1 l2 l3, l = l1 ++ b :: l2 ++ a :: l3.

(** The job has not made the transition to processing: the first step of
    its task, which sets [status] and [started_at], has not run. *)
Definition not_started (s : State) (a : string) : Prop :=
  ∃ job,
    BATCH_JOBS s !! a = Some job ∧ started_at job = None ∧
    status job ≠ PROCESSING.

(** The jobs that wait for their first step, in the order in which they
    will take it: the created tasks, then the queue.  Every other job has
    started at some time, or was cancelled while it was queued. *)
Record fifo_inv (s : State) (ready : list string) : Prop := {
  fifo_NoDup : NoDup (ready ++ JOB_QUEUE s);
  fifo_ready :
    ∀ j, j ∈ ready → PROCESSING_JOBS s !! j = Some task_created;
  fifo_waiting :
    ∀ j job,
      j ∈ ready ++ JOB_QUEUE s → BATCH_JOBS s !! j = Some job →
      started_at job = None;
  fifo_others :
    ∀ j job,
      BATCH_JOBS s !! j = Some job →
      j ∈ ready ++ JOB_QUEUE s ∨ started_at job ≠ None ∨
      ∃ job0, withdrawn s j job0 ∧ started_at job0 = None
}.

(** After [priority_run], the jobs ["j1"] and ["j2"] process their items
    and complete: two slots are free, ["B"] and ["A"] wait in the queue. *)
Definition two_slots_freed_run : list Event :=
  priority_run ++
  [item_enter "j1"; item_enter "j1";
   item_finish "j1" 0 9%Q; item_finish "j1" 0 10%Q; task_resume "j1" 11%Q;
   item_enter "j2"; item_enter "j2";
   item_finish "j2" 0 12%Q; item_finish "j2" 0 13%Q; task_resume "j2" 14%Q].

(** The next submission, and the admission pass it schedules. *)
Definition next_submission : list Event :=
  [create_job (nlp_request 1) "C" 15%Q; admission_pass].

(** Two submissions of the same priority; the clock is set back between
    them. *)
Definition clock_back_run : list Event :=
  [create_job (nlp_request 5) "A" 2%Q; create_job (nlp_request 5) "B" 1%Q].

(** * Proofs *)

Section Proofs.

Variable item_error : BatchJobType → nat → Any → option PyException.

Lemma fresh_progress_tracks job :
  fresh_counters job → progress_percentage job = 0%float →
  progress_tracks job.
Proof. intros (Hp & _ & _) Hz. split_and!; done. Qed.

(** One pass through the [try]/[except] counts the item as a success or as
    a failure and leaves the rest alone. *)
Lemma record_item_spec t now it job :
  let job' := record_item item_error t now it job in
  status job' = status job ∧ total_items job' = total_items job ∧
  processed_items job' = processed_items job ∧
  progress_percentage job' = progress_percentage job ∧
  successful_items job' + failed_items job'
  = S (successful_items job + failed_items job).
Proof.
  unfold record_item. destruct (item_error _ _ _); cbn; repeat split; lia.
Qed.

Lemma count_item_spec job :
  let r := count_item job in
  status r.1 = status job ∧ total_items r.1 = total_items job ∧
  processed_items r.1 = S (processed_items job) ∧
  successful_items r.1 = successful_items job ∧
  failed_items r.1 = failed_items job ∧
  match r.2 with
  | None =>
      total_items job ≠ 0 ∧
      progress_percentage r.1
      = percentage (S (processed_items job)) (total_items job)
  | Some e =>
      e = ZeroDivisionError ∧ total_items job = 0 ∧
      progress_percentage r.1 = progress_percentage job
  end.
Proof.
  unfold count_item. cbn. case_decide; cbn; repeat split; done.
Qed.

Lemma count_item_counted job job0 :
  status job = status job0 → total_items job = total_items job0 →
  processed_items job = processed_items job0 →
  progress_percentage job = progress_percentage job0 →
  successful_items job + failed_items job
  ≤ S (successful_items job0 + failed_items job0) →
  step_counted job0 (count_item job).1 (count_item job).2.
Proof.
  intros Hs Ht Hp Hg Hc.
  destruct (count_item_spec job) as (Hs' & Ht' & Hp' & Hsu & Hf & Hr).
  unfold step_counted, counters_le, progress_tracks.
  rewrite Hs', Ht', Hp', Hsu, Hf, Hs, Ht, Hp.
  destruct (count_item job).2 as [e|]; cbn.
  - destruct Hr as (_ & Hz & Hg'). rewrite Hg', Hg.
    rewrite Ht in Hz.
    split; [done|]. split; [done|]. split; [lia|]. split; [|done].
    intros (H0 & _ & _). split_and!; done.
  - destruct Hr as (Hnz & Hg'). rewrite Hg'. rewrite Ht in Hnz.
    split; [done|]. split; [done|]. split; [lia|]. split.
    + intros _. split_and!; try done. intros _ _. by rewrite Ht, Hp.
    + intros [? ?]; done.
Qed.

Lemma item_processed_counted t now it job :
  let r := count_item (record_item item_error t now it job) in
  step_counted job r.1 r.2 ∧ (counters_eq job → counters_eq r.1).
Proof.
  destruct (record_item_spec t now it job) as (Hs & Ht & Hp & Hg & Hc).
  cbn. split.
  - apply count_item_counted; try done. lia.
  - destruct (count_item_spec (record_item item_error t now it job))
      as (_ & _ & Hp' & Hsu & Hf & _).
    unfold counters_eq. rewrite Hp', Hsu, Hf, Hp. lia.
Qed.

Lemma item_cancelled_counted job :
  step_counted job (count_item job).1 (count_item job).2.
Proof. apply count_item_counted; try done. lia. Qed.

Lemma step_counted_refl job : step_counted job job None.
Proof. unfold step_counted. split_and!; done. Qed.

Lemma step_counted_trans job1 job2 job3 r :
  step_counted job1 job2 None → step_counted job2 job3 r →
  step_counted job1 job3 r.
Proof.
  intros (Hs & Ht & Hl & Hg & _) (Hs' & Ht' & Hl' & Hg' & Hr).
  unfold step_counted. split_and!; try congruence; try tauto.
  intros ?. rewrite <- Ht. tauto.
Qed.

Lemma process_items_counted t now items job :
  let r := process_items item_error t now items job in
  step_counted job r.1 r.2 ∧ (counters_eq job → counters_eq r.1).
Proof.
  revert job. induction items as [|it rest IH]; intros job; cbn.
  - split; [apply step_counted_refl | done].
  - destruct (item_processed_counted t now it job) as [H1 H2].
    destruct (count_item (record_item item_error t now it job))
      as [job' [e|]] eqn:E; cbn in *.
    + done.
    + destruct (IH job') as [H3 H4]. split.
      * eapply step_counted_trans; eauto.
      * tauto.
Qed.

Lemma of_loop_spec job (r : BatchJob * option PyException) :
  step_counted job r.1 r.2 ∧ (counters_eq job → counters_eq r.1) →
  status (of_loop r).1 = status job ∧
  total_items (of_loop r).1 = total_items job ∧
  (counters_le job → counters_le (of_loop r).1) ∧
  (counters_eq job → counters_eq (of_loop r).1) ∧
  (progress_tracks job → progress_tracks (of_loop r).1) ∧
  ¬ outcome_is_gather (of_loop r).2.
Proof.
  intros [(Hs & Ht & Hl & Hg & _) He]. unfold of_loop. cbn.
  split_and!; try done. destruct r.2; cbn; tauto.
Qed.

Lemma process_batch_counted t now job :
  let r := process_batch item_error t now job in
  step_counted job r.1 r.2 ∧ (counters_eq job → counters_eq r.1) ∨
  r = (job, Some TypeError_not_iterable).
Proof.
  unfold process_batch. destruct (parameter_items job); [left|by right].
  apply process_items_counted.
Qed.

Lemma run_executor_spec now job :
  let r := run_executor item_error now job in
  status r.1 = status job ∧ total_items r.1 = total_items job ∧
  (counters_le job → counters_le r.1) ∧
  (counters_eq job → counters_eq r.1) ∧
  (progress_tracks job → progress_tracks r.1) ∧
  (outcome_is_gather r.2 → r.1 = job).
Proof.
  assert (Hloop : ∀ t,
    let r := of_loop (process_batch item_error t now job) in
    status r.1 = status job ∧ total_items r.1 = total_items job ∧
    (counters_le job → counters_le r.1) ∧
    (counters_eq job → counters_eq r.1) ∧
    (progress_tracks job → progress_tracks r.1) ∧
    (outcome_is_gather r.2 → r.1 = job)).
  { intros t. cbn. destruct (process_batch_counted t now job) as [H| ->].
    - apply of_loop_spec in H. destruct H as (?&?&?&?&?&?).
      split_and!; try done.
    - cbn. split_and!; done. }
  unfold run_executor.
  destruct (job_type job); try apply Hloop; cbn; split_and!; done.
Qed.

Lemma job_ok_at_frame s s' j :
  BATCH_JOBS s' !! j = BATCH_JOBS s !! j →
  (j ∈ JOB_QUEUE s' ↔ j ∈ JOB_QUEUE s) →
  PROCESSING_JOBS s' !! j = PROCESSING_JOBS s !! j →
  item_tasks s' !! j = item_tasks s !! j →
  cancelled_tasks s' !! j = cancelled_tasks s !! j →
  job_ok_at s j → job_ok_at s' j.
Proof.
  unfold job_ok_at, item_tasks_of. intros -> Hq -> -> ->.
  unfold job_ok. destruct (BATCH_JOBS s !! j); tauto.
Qed.

Lemma process_item_enter_invariant s jid s' :
  invariant s → process_item_enter jid s = Some s' → invariant s'.
Proof.
  intros [Hj Hnd Hsz] H. unfold process_item_enter in H.
  destruct (BATCH_JOBS s !! jid) as [job|] eqn:Ejob; [cbn in H|done].
  destruct (waiting (item_tasks_of s jid)) as [|it rest] eqn:Ew; [done|].
  case_decide; [|done]. injection H as <-.
  split; [|done|done]. intros j.
  destruct (decide (j = jid)) as [->|Hne]; [|other_job job_ok_at_frame s].
  specialize (Hj jid). unfold job_ok_at, item_tasks_of in *. cbn.
  rewrite lookup_insert_eq. rewrite Ejob in *.
  unfold job_ok, idle in *. rewrite Ew in Hj. cbn.
  phases Hj; split_and!; try done; pick_phase.
Qed.

Lemma progress_inv_counted job job' r :
  step_counted job job' r → status job ≠ COMPLETED →
  progress_inv job → progress_inv job'.
Proof.
  intros (Hs & _ & _ & Hg & _) Hn [_ Hp]. unfold progress_inv.
  rewrite Hs. split; [done|]. auto.
Qed.

Lemma process_item_finish_invariant s jid k now s' :
  invariant s → process_item_finish item_error jid k now s = Some s' →
  invariant s'.
Proof.
  intros [Hj Hnd Hsz] H. unfold process_item_finish in H.
  destruct (BATCH_JOBS s !! jid) as [job|] eqn:Ejob; [cbn in H|done].
  destruct (sleeping (item_tasks_of s jid) !! k) as [it|] eqn:Ek;
    [cbn in H|done].
  injection H as <-.
  destruct (item_processed_counted NLP_ANALYSIS now it job) as [Hc Heq].
  cbn in Hc, Heq.
  set (r := count_item (record_item item_error NLP_ANALYSIS now it job)) in *.
  assert (Hsl : sleeping (item_tasks_of s jid) ≠ []).
  { intros E. by rewrite E in Ek. }
  unfold gather_exception. cbn -[count_item].
  assert (Hjid := Hj jid). unfold job_ok_at in Hjid.
  rewrite Ejob in Hjid. unfold job_ok, idle in Hjid.
  pose proof (progress_inv_counted _ _ _ Hc) as Hpr'.
  destruct Hc as (Hs & Ht & Hl & Hg & Hz).
  split.
  - intros j. destruct (decide (j = jid)) as [->|Hne].
    + unfold job_ok_at, item_tasks_of in *.
      phases Hjid;
      destruct r.2, (PROCESSING_JOBS s !! jid) as [[|[]]|] eqn:Ep; cbn;
        rewrite ?lookup_insert_eq; unfold job_ok, idle; cbn;
        (split_and!;
         [auto | apply Hpr'; [congruence|done] | rewrite Hs; pick_phase]).
    + destruct r.2, (PROCESSING_JOBS s !! jid) as [[|[]]|]; other_job job_ok_at_frame s.
  - by destruct r.2, (PROCESSING_JOBS s !! jid) as [[|[]]|].
  - destruct r.2, (PROCESSING_JOBS s !! jid) as [[|[]]|] eqn:Ep; cbn;
      try done.
    by rewrite map_size_insert_Some by (by rewrite Ep).
Qed.

Lemma process_item_cancelled_invariant s jid k s' :
  invariant s → process_item_cancelled jid k s = Some s' → invariant s'.
Proof.
  intros [Hj Hnd Hsz] H. unfold process_item_cancelled in H.
  destruct (BATCH_JOBS s !! jid) as [job|] eqn:Ejob; [cbn in H|done].
  destruct (cancelled (item_tasks_of s jid) !! k) as [it|] eqn:Ek;
    [cbn in H|done].
  injection H as <-.
  pose proof (item_cancelled_counted job) as Hc.
  assert (Hsl : cancelled (item_tasks_of s jid) ≠ []).
  { intros E. by rewrite E in Ek. }
  unfold cancelled_exception. cbn -[count_item].
  assert (Hjid := Hj jid). unfold job_ok_at in Hjid.
  rewrite Ejob in Hjid. unfold job_ok, idle in Hjid.
  pose proof (progress_inv_counted _ _ _ Hc) as Hpr'.
  destruct Hc as (Hs & Ht & Hl & Hg & Hz).
  split.
  - intros j. destruct (decide (j = jid)) as [->|Hne].
    + unfold job_ok_at, item_tasks_of in *.
      phases Hjid;
      destruct (count_item job).2, (cancelled_tasks s !! jid) as [[]|]
        eqn:Ep; cbn;
        rewrite ?lookup_insert_eq; unfold job_ok, idle; cbn;
        (split_and!;
         [auto | apply Hpr'; [congruence|done] | rewrite Hs; pick_phase]).
    + destruct (count_item job).2, (cancelled_tasks s !! jid) as [[]|];
        other_job job_ok_at_frame s.
  - by destruct (count_item job).2, (cancelled_tasks s !! jid) as [[]|].
  - by destruct (count_item job).2, (cancelled_tasks s !! jid) as [[]|].
Qed.

Lemma size_delete_le {A} (m : gmap string A) i : size (delete i m) ≤ size m.
Proof. apply map_subseteq_size, delete_subseteq. Qed.

Lemma job_failed_progress_inv e now job :
  status job ≠ COMPLETED → progress_inv job →
  progress_inv (job_failed e now job).
Proof. intros Hn [_ Hp]. split; [done|]. intros _. by apply Hp. Qed.

Lemma job_completed_progress_inv now job :
  progress_inv (job_completed now job).
Proof. split; [done|]. by intros []. Qed.

Lemma task_done_invariant s jid job job' :
  invariant s → BATCH_JOBS s !! jid = Some job →
  jid ∉ JOB_QUEUE s →
  counters_le job' → progress_inv job' →
  (status job' = COMPLETED ∧ counters_eq job' ∧ idle (item_tasks_of s jid) ∧
   cancelled_tasks s !! jid = None ∨
   status job' = FAILED) →
  invariant (task_done jid job' s).
Proof.
  intros [Hj Hnd Hsz] Ejob Hq Hle Hpr Hst. split; [|done|].
  - intros j. destruct (decide (j = jid)) as [->|Hne]; [|other_job job_ok_at_frame s].
    unfold job_ok_at, item_tasks_of in *. cbn.
    rewrite lookup_insert_eq, lookup_delete_eq. cbn.
    split_and!; [done..|]. destruct Hst as [(?&?&?&?)|?]; pick_phase.
  - cbn. etrans; [apply size_delete_le|done].
Qed.

Lemma _process_batch_job_resume_invariant s jid now s' :
  invariant s → _process_batch_job_resume jid now s = Some s' →
  invariant s'.
Proof.
  intros Hinv H. unfold _process_batch_job_resume in H.
  destruct (BATCH_JOBS s !! jid) as [job|] eqn:Ejob; [cbn in H|done].
  assert (Hjid := inv_jobs _ Hinv jid). unfold job_ok_at in Hjid.
  rewrite Ejob in Hjid. unfold job_ok, idle in Hjid.
  destruct (PROCESSING_JOBS s !! jid) as [[|[e|]]|] eqn:Ep; try done.
  - injection H as <-. phases Hjid.
    eapply task_done_invariant; eauto.
    apply job_failed_progress_inv; [congruence|done].
  - destruct (waiting (item_tasks_of s jid)) eqn:Ew; [|done].
    destruct (sleeping (item_tasks_of s jid)) eqn:Es; [|done].
    injection H as <-. phases Hjid.
    eapply task_done_invariant; eauto.
    + apply job_completed_progress_inv.
    + left. unfold idle. by split_and!.
Qed.

Lemma _process_batch_job_cancelled_invariant s jid now s' :
  invariant s → _process_batch_job_cancelled jid now s = Some s' →
  invariant s'.
Proof.
  intros Hinv H. unfold _process_batch_job_cancelled in H.
  destruct (BATCH_JOBS s !! jid) as [job|] eqn:Ejob; [cbn in H|done].
  destruct (cancelled_tasks s !! jid) as [r|] eqn:Ec; [cbn in H|done].
  assert (Hjid := inv_jobs _ Hinv jid). unfold job_ok_at in Hjid.
  rewrite Ejob, Ec in Hjid. unfold job_ok, idle in Hjid.
  destruct Hinv as [Hj Hnd Hsz].
  assert (Hgoal : ∀ job',
    counters_le job' → progress_inv job' →
    status job' = FAILED ∨ status job' = CANCELLED →
    invariant
      (set_processing (delete jid (PROCESSING_JOBS s))
         (set_job jid job'
            (set_cancelled_tasks (delete jid (cancelled_tasks s)) s)))).
  { intros job' Hle Hpr Hst. split; [|done|].
    - intros j. destruct (decide (j = jid)) as [->|Hne]; [|other_job job_ok_at_frame s].
      unfold job_ok_at, item_tasks_of in *. cbn.
      rewrite lookup_insert_eq, !lookup_delete_eq. cbn.
      phases Hjid; split_and!; try done; pick_phase.
    - cbn. etrans; [apply size_delete_le|done]. }
  destruct r as [e|]; injection H as <-.
  - apply Hgoal.
    + by phases Hjid.
    + apply job_failed_progress_inv; phases Hjid; congruence.
    + by left.
  - replace (set_cancelled_tasks (delete jid (cancelled_tasks s)) s) with
      (set_job jid job (set_cancelled_tasks (delete jid (cancelled_tasks s)) s)).
    + apply Hgoal; phases Hjid; auto.
    + unfold set_job. cbn. by rewrite insert_id.
Qed.

Lemma _process_batch_job_invariant s jid now s' :
  invariant s → PROCESSING_JOBS s !! jid = Some task_created →
  _process_batch_job item_error jid now s = Some s' → invariant s'.
Proof.
  intros Hinv Ep H. unfold _process_batch_job in H.
  destruct (BATCH_JOBS s !! jid) as [job|] eqn:Ejob; [cbn in H|done].
  assert (Hjid := inv_jobs _ Hinv jid). unfold job_ok_at in Hjid.
  rewrite Ejob, Ep in Hjid. unfold job_ok in Hjid.
  set (started := set_started_at (Some now) (set_status PROCESSING job)) in *.
  destruct (run_executor_spec now started) as (Hs & Ht & Hl & He & Hg & Hw).
  assert (counters_eq started ∧ counters_le started ∧ progress_tracks started
          ∧ (jid ∉ JOB_QUEUE s) ∧ idle (item_tasks_of s jid)
          ∧ cancelled_tasks s !! jid = None) as (He0 & Hl0 & Hg0 & Hq & Hi & Hc).
  { phases Hjid;
      (split_and!; try done;
       [ unfold counters_eq, fresh_counters in *; cbn; lia
       | match goal with H : progress_inv _ |- _ => apply H; congruence end ]).
  }
  destruct (run_executor item_error now started) as [job' [|e|children]];
    cbn in *; injection H as <-.
  - eapply task_done_invariant; eauto.
    + apply job_completed_progress_inv.
    + left. auto.
  - eapply task_done_invariant; eauto.
    apply job_failed_progress_inv; [congruence|].
    split; [by rewrite Hs|]. auto.
  - rewrite (Hw I) in *. destruct Hinv as [Hj Hnd Hsz]. split; [|done|].
    + intros j. destruct (decide (j = jid)) as [->|Hne]; [|other_job job_ok_at_frame s].
      unfold job_ok_at, item_tasks_of. cbn. rewrite !lookup_insert_eq. cbn.
      split_and!.
      * exact Hl0.
      * split; [done|]. intros _. exact Hg0.
      * do 2 right. left. split_and!; eauto.
    + cbn. by rewrite map_size_insert_Some by (by rewrite Ep).
Qed.

(** *** The queue operations *)

Lemma elem_of_remove_first_ne j x l :
  j ≠ x → j ∈ remove_first x l ↔ j ∈ l.
Proof.
  intros Hne. induction l as [|y l IH]; cbn; [done|].
  case_decide; subst; rewrite !elem_of_cons; [|rewrite IH]; naive_solver.
Qed.

Lemma remove_first_sublist x l : remove_first x l `sublist_of` l.
Proof.
  induction l as [|y l IH]; cbn; [done|].
  case_decide; [by apply sublist_cons|by apply sublist_skip].
Qed.

Lemma NoDup_remove_first x l : NoDup l → NoDup (remove_first x l).
Proof. intros H. exact (sublist_NoDup _ _ H (remove_first_sublist x l)). Qed.

Lemma not_elem_of_remove_first x l : NoDup l → x ∉ remove_first x l.
Proof.
  induction 1 as [|y l Hy Hnd IH]; cbn; [by apply not_elem_of_nil|].
  case_decide; subst; [done|]. rewrite elem_of_cons. naive_solver.
Qed.

Lemma insert_desc_Permutation key x l : insert_desc key x l ≡ₚ x :: l.
Proof.
  induction l as [|y l IH]; cbn; [done|].
  destruct (key x <? key y)%Z; [|done]. rewrite IH. apply Permutation_swap.
Qed.

Lemma sort_desc_Permutation key l : sort_desc key l ≡ₚ l.
Proof.
  induction l as [|x l IH]; cbn; [done|].
  by rewrite insert_desc_Permutation, IH.
Qed.

Lemma task_cancel_queue jid s : JOB_QUEUE (task_cancel jid s) = JOB_QUEUE s.
Proof.
  unfold task_cancel. by destruct (PROCESSING_JOBS s !! jid) as [[|[]]|].
Qed.

Lemma cancel_batch_job_invariant s jid now s' :
  invariant s → cancel_batch_job jid now s = inr s' → invariant s'.
Proof.
  intros Hinv H. unfold cancel_batch_job in H.
  destruct (BATCH_JOBS s !! jid) as [job|] eqn:Ejob; [|done].
  case_decide as Hcomp; [done|].
  assert (Hjid := inv_jobs _ Hinv jid). unfold job_ok_at in Hjid.
  rewrite Ejob in Hjid. unfold job_ok in Hjid.
  destruct Hinv as [Hj Hnd Hsz]. injection H as <-.
  set (job' := set_completed_at (Some now) (set_status CANCELLED job)).
  assert (counters_le job' ∧ progress_inv job') as [Hle' Hpr'].
  { destruct Hjid as (Hle & [_ Hpr] & _). split; [done|].
    split; [done|]. intros _. by apply Hpr. }
  assert (Hdead : ∀ s0,
    (∀ j, j ≠ jid → job_ok_at s0 j) → (jid ∉ JOB_QUEUE s0) →
    PROCESSING_JOBS s0 !! jid = None → NoDup (JOB_QUEUE s0) →
    size (PROCESSING_JOBS s0) ≤ 3 → invariant (set_job jid job' s0)).
  { intros s0 Ho Hq Hp Hn Hz. split; [|done..].
    intros j. destruct (decide (j = jid)) as [->|Hne];
      [|apply (job_ok_at_frame s0); cbn;
        rewrite ?lookup_insert_ne by done; auto].
    this_job. split_and!; [done..|]. do 4 right. split_and!; auto. }
  phases Hjid;
    (destruct (decide (status job = PROCESSING)) as [Hst|Hst];
     [try congruence|try done]);
    [..|destruct (decide (is_Some (PROCESSING_JOBS s !! jid)))
          as [Hsome|Hsome]; [|by destruct Hsome]|idtac|idtac];
    (destruct (decide (jid ∈ JOB_QUEUE _)) as [Hin|Hin]; cbn in Hin;
     rewrite ?task_cancel_queue in Hin; try done).
  - (* queued *)
    apply Hdead; cbn.
    + intros j Hne. apply (job_ok_at_frame s); cbn; try done.
      by apply elem_of_remove_first_ne.
    + by apply not_elem_of_remove_first.
    + done.
    + by apply NoDup_remove_first.
    + done.
  - (* admitted, pending *)
    split; [|done..].
    intros j. destruct (decide (j = jid)) as [->|Hne]; [|other_job job_ok_at_frame s].
    this_job. split_and!; [done..|]. right; left. unfold idle.
    split_and!; auto.
  - (* admitted, cancelled before *)
    split; [|done..].
    intros j. destruct (decide (j = jid)) as [->|Hne]; [|other_job job_ok_at_frame s].
    this_job. split_and!; [done..|]. right; left. unfold idle.
    split_and!; auto.
  - (* running *)
    unfold task_cancel.
    match goal with H : PROCESSING_JOBS s !! jid = _ |- _ => rewrite H end.
    assert (Hsz' : size (delete jid (PROCESSING_JOBS s)) ≤ 3).
    { etrans; [apply size_delete_le|done]. }
    destruct x; cbn; apply Hdead; cbn;
      first
        [ done | by rewrite lookup_delete_eq
        | intros j Hne; other_job job_ok_at_frame s ].
  - (* failed *)
    by apply Hdead.
  - (* cancelled *)
    by apply Hdead.
Qed.

Lemma create_batch_job_invariant s request jid now :
  invariant s → BATCH_JOBS s !! jid = None →
  invariant (create_batch_job request jid now s).
Proof.
  intros [Hj Hnd Hsz] Efresh.
  assert (Hjid := Hj jid). unfold job_ok_at in Hjid.
  rewrite Efresh in Hjid. destruct Hjid as (Hq & Hp & Hi & Hc).
  split; [|cbn..|done].
  - intros j. destruct (decide (j = jid)) as [->|Hne].
    + this_job. rewrite sort_desc_Permutation.
      split_and!.
      * unfold counters_le. cbn. lia.
      * split; [done|]. intros _. by split_and!.
      * left. split_and!; try done. set_solver.
    + apply (job_ok_at_frame s); cbn;
        rewrite ?lookup_insert_ne by done; try done.
      rewrite sort_desc_Permutation. set_solver.
  - rewrite sort_desc_Permutation. apply NoDup_app. split_and!; [done| |].
    + intros j ? ->%list_elem_of_singleton. done.
    + apply NoDup_singleton.
Qed.

(** The admission loop pops a prefix of the queue and creates a task for
    each popped job. *)
Lemma process_queue_loop_spec jobs q pj :
  (∀ j, j ∈ q → ∃ job, jobs !! j = Some job ∧ status job = PENDING) →
  ∃ popped,
    q = popped ++ (process_queue_loop jobs q pj).1 ∧
    (∀ j, (process_queue_loop jobs q pj).2 !! j
          = if decide (j ∈ popped) then Some task_created else pj !! j) ∧
    (size pj ≤ 3 → size (process_queue_loop jobs q pj).2 ≤ 3) ∧
    (popped = [] ↔ q = [] ∨ 3 ≤ size pj).
Proof.
  revert pj. induction q as [|j0 q IH]; intros pj Hq; cbn.
  - exists []. split_and!; try done. split; [by left|done].
  - case_decide as Hlt.
    + destruct (Hq j0) as (job & -> & Hst); [by left|].
      rewrite decide_True by done.
      destruct (IH (<[j0:=task_created]> pj)) as (popped & E & Hl & Hs & _).
      { intros j Hj. apply Hq. by right. }
      exists (j0 :: popped). split_and!.
      * cbn. by f_equal.
      * intros j. rewrite Hl. destruct (decide (j = j0)) as [->|Hne].
        -- rewrite (decide_True (P := j0 ∈ j0 :: popped)) by by left.
           case_decide; [done|]. by rewrite lookup_insert_eq.
        -- rewrite lookup_insert_ne by done.
           destruct (decide (j ∈ popped)).
           ++ rewrite decide_True; [done|by right].
           ++ rewrite decide_False; [done|]. rewrite elem_of_cons. tauto.
      * intros _. apply Hs. rewrite map_size_insert.
        destruct (pj !! j0); cbn; lia.
      * split; [done|]. intros [?|?]; [done|lia].
    + exists []. split_and!; try done. split; [|done]. intros _. right. lia.
Qed.

Lemma _process_job_queue_invariant s :
  invariant s → invariant (_process_job_queue s).
Proof.
  intros [Hj Hnd Hsz].
  destruct (process_queue_loop_spec (BATCH_JOBS s) (JOB_QUEUE s) (PROCESSING_JOBS s))
    as (popped & E & Hl & Hs & _).
  { intros j Hin. specialize (Hj j). unfold job_ok_at, job_ok in Hj.
    destruct (BATCH_JOBS s !! j) as [job|]; [|tauto].
    exists job. split; [done|]. by phases Hj. }
  rewrite E in Hnd. apply NoDup_app in Hnd as (Hnd1 & Hdis & Hnd2).
  split; cbn; [|done|auto].
  intros j. specialize (Hj j). unfold job_ok_at, item_tasks_of in *. cbn.
  rewrite Hl. rewrite E in Hj. unfold job_ok in *.
  destruct (decide (j ∈ popped)) as [Hin|Hin].
  - assert (Hout : j ∉ (process_queue_loop (BATCH_JOBS s) (JOB_QUEUE s)
                          (PROCESSING_JOBS s)).1) by auto.
    destruct (BATCH_JOBS s !! j) as [job|];
      [|destruct Hj as [Hj _]; destruct Hj; set_solver].
    phases Hj; try set_solver.
    split_and!; [done..|]. right; left. unfold idle. split_and!; auto.
  - assert (Hiff : j ∈ popped ++ (process_queue_loop (BATCH_JOBS s) (JOB_QUEUE s)
                                    (PROCESSING_JOBS s)).1
                   ↔ j ∈ (process_queue_loop (BATCH_JOBS s) (JOB_QUEUE s)
                            (PROCESSING_JOBS s)).1) by set_solver.
    destruct (BATCH_JOBS s !! j) as [job|]; rewrite Hiff in Hj; [|done].
    phases Hj; split_and!; try done; pick_phase.
Qed.

Lemma initial_invariant : invariant initial.
Proof.
  split; cbn; [|apply NoDup_nil_2|by rewrite map_size_empty; lia].
  intros j. unfold job_ok_at, item_tasks_of. cbn.
  rewrite !lookup_empty. cbn. unfold idle. split_and!; try done.
  apply not_elem_of_nil.
Qed.

Lemma apply_event_invariant s ev s' :
  invariant s → apply_event item_error s ev = Some s' → invariant s'.
Proof.
  intros Hinv H. destruct ev as [request jid now|jid now| |jid now|jid now
                                 |jid now|jid|jid k now|jid k]; cbn in H.
  - destruct (BATCH_JOBS s !! jid) eqn:E; [done|]. injection H as <-.
    by apply create_batch_job_invariant.
  - destruct (cancel_batch_job jid now s) as [e|s0] eqn:E;
      injection H as <-; [done|].
    by eapply cancel_batch_job_invariant.
  - destruct (background_tasks s) as [|n]; [done|]. injection H as <-.
    apply _process_job_queue_invariant. by destruct Hinv.
  - destruct (PROCESSING_JOBS s !! jid) as [[|]|] eqn:E; try done.
    by eapply _process_batch_job_invariant.
  - by eapply _process_batch_job_resume_invariant.
  - by eapply _process_batch_job_cancelled_invariant.
  - by eapply process_item_enter_invariant.
  - by eapply process_item_finish_invariant.
  - by eapply process_item_cancelled_invariant.
Qed.

Lemma run_invariant s evs s' :
  invariant s → run item_error s evs = Some s' → invariant s'.
Proof.
  revert s. induction evs as [|ev evs IH]; intros s Hinv H; cbn in H.
  - by injection H as <-.
  - destruct (apply_event item_error s ev) as [s1|] eqn:E; [cbn in H|done].
    eapply IH; [|done]. by eapply apply_event_invariant.
Qed.

Lemma reachable_invariant evs s :
  run item_error initial evs = Some s → invariant s.
Proof. apply run_invariant, initial_invariant. Qed.

(** *** Consequences of the invariant *)

Lemma job_ok_processing s j job :
  job_ok_at s j → BATCH_JOBS s !! j = Some job → status job = PROCESSING →
  ∃ r, PROCESSING_JOBS s !! j = Some (task_gathering r).
Proof.
  unfold job_ok_at. intros H E Hst. rewrite E in H. unfold job_ok in H.
  phases H; try congruence. eauto.
Qed.

Lemma processing_status_size s :
  invariant s → size (processing_status_jobs s) ≤ size (PROCESSING_JOBS s).
Proof.
  intros Hinv. rewrite <- !size_dom. apply subseteq_size.
  intros j. rewrite !elem_of_dom. intros [job Hjob].
  apply map_lookup_filter_Some in Hjob as [Hl Hst]. cbn in Hst.
  destruct (job_ok_processing s j job) as [r ->]; eauto using inv_jobs.
Qed.

Lemma process_queue_loop_full jobs q pj :
  3 ≤ size pj → process_queue_loop jobs q pj = (q, pj).
Proof. intros H. destruct q; cbn; [done|]. case_decide; [lia|done]. Qed.

(** C4: along every run at most [MAX_CONCURRENT_JOBS = 3] jobs have status
    [processing]; the tasks registered in [PROCESSING_JOBS] are at most 3
    before and after an admission pass, and a pass that finds 3 of them
    starts nothing. *)
Theorem at_most_three_processing evs s :
  run item_error initial evs = Some s →
  size (processing_status_jobs s) ≤ 3 ∧
  size (PROCESSING_JOBS s) ≤ 3 ∧
  size (PROCESSING_JOBS (_process_job_queue s)) ≤ 3 ∧
  (3 ≤ size (PROCESSING_JOBS s) → _process_job_queue s = s).
Proof.
  intros Hrun. pose proof Hrun as Hinv. apply reachable_invariant in Hinv.
  pose proof (inv_processing_size _ Hinv) as Hsz. split_and!.
  - etrans; [by apply processing_status_size|done].
  - done.
  - apply _process_job_queue_invariant in Hinv. by destruct Hinv.
  - intros Hfull. unfold _process_job_queue. rewrite process_queue_loop_full by done.
    by destruct s.
Qed.

Lemma occurrences_not_elem j l : j ∉ l → occurrences j l = 0.
Proof.
  unfold occurrences. induction l as [|x l IH]; intros Hj; [done|].
  rewrite filter_cons. apply not_elem_of_cons in Hj as [Hne Hj].
  rewrite decide_False by done. auto.
Qed.

Lemma occurrences_NoDup j l : NoDup l → j ∈ l → occurrences j l = 1.
Proof.
  induction 1 as [|x l Hx Hnd IH]; intros Hin.
  - by apply elem_of_nil in Hin.
  - unfold occurrences. rewrite filter_cons.
    apply elem_of_cons in Hin as [->|Hin].
    + rewrite decide_True by done. cbn. f_equal.
      by apply occurrences_not_elem.
    + rewrite decide_False; [by apply IH|]. intros ->. done.
Qed.

(** C9 (amended): in every reachable state the ids in the queue are
    pending jobs, each once in the queue and with no task yet; a pending
    job is either in the queue, or was popped by an admission pass and its
    task, registered in [PROCESSING_JOBS], has not run yet. *)
Theorem pending_queued_or_popped evs s :
  run item_error initial evs = Some s →
  (∀ j, j ∈ JOB_QUEUE s →
     occurrences j (JOB_QUEUE s) = 1 ∧
     ∃ job, BATCH_JOBS s !! j = Some job ∧ status job = PENDING) ∧
  (∀ j job, BATCH_JOBS s !! j = Some job → status job = PENDING →
     occurrences j (JOB_QUEUE s) = 1 ∧ PROCESSING_JOBS s !! j = None ∨
     occurrences j (JOB_QUEUE s) = 0 ∧
     PROCESSING_JOBS s !! j = Some task_created).
Proof.
  intros Hrun. apply reachable_invariant in Hrun as [Hj Hnd _]. split.
  - intros j Hin. split; [by apply occurrences_NoDup|].
    specialize (Hj j). unfold job_ok_at, job_ok in Hj.
    destruct (BATCH_JOBS s !! j) as [job|]; [|tauto].
    exists job. split; [done|]. by phases Hj.
  - intros j job E Hst. specialize (Hj j). unfold job_ok_at in Hj.
    rewrite E in Hj. unfold job_ok in Hj. phases Hj; try congruence.
    + left. split; [by apply occurrences_NoDup|done].
    + right. split; [by apply occurrences_not_elem|done].
Qed.

(** C10: a submission of type [model_training] is accepted and creates a
    pending, queued job; when the task of such a job runs, the dispatch
    finds no branch for it, the job becomes failed and exactly one
    job-level entry is appended to its errors. *)
Theorem model_training_accepted_then_fails :
  (∀ s request jid now,
     req_job_type request = MODEL_TRAINING →
     BATCH_JOBS s !! jid = None →
     ∃ s' job,
       apply_event item_error s (create_job request jid now) = Some s' ∧
       BATCH_JOBS s' !! jid = Some job ∧
       job_type job = MODEL_TRAINING ∧ status job = PENDING ∧
       errors job = [] ∧ jid ∈ JOB_QUEUE s') ∧
  (∀ s jid job now,
     PROCESSING_JOBS s !! jid = Some task_created →
     BATCH_JOBS s !! jid = Some job →
     job_type job = MODEL_TRAINING →
     ∃ s' job',
       apply_event item_error s (task_start jid now) = Some s' ∧
       BATCH_JOBS s' !! jid = Some job' ∧
       status job' = FAILED ∧
       errors job'
       = errors job
         ++ [job_failure (ValueError_unknown_job_type MODEL_TRAINING) now] ∧
       PROCESSING_JOBS s' !! jid = None).
Proof.
  split.
  - intros s request jid now Ht Hfresh. eexists _, _. cbn. rewrite Hfresh.
    split_and!; [done|apply lookup_insert_eq|done..|].
    cbn. rewrite sort_desc_Permutation. set_solver.
  - intros s jid job now Hp Hj Ht. eexists _, _. cbn.
    rewrite Hp. unfold _process_batch_job. rewrite Hj. cbn.
    unfold run_executor. cbn. rewrite Ht. cbn.
    split_and!; [done|apply lookup_insert_eq|done..|apply lookup_delete_eq].
Qed.



(** *** Admission passes *)

Lemma task_cancel_processing jid s :
  PROCESSING_JOBS (task_cancel jid s) = PROCESSING_JOBS s.
Proof.
  unfold task_cancel. by destruct (PROCESSING_JOBS s !! jid) as [[|[]]|].
Qed.

Lemma task_cancel_background jid s :
  background_tasks (task_cancel jid s) = background_tasks s.
Proof.
  unfold task_cancel. by destruct (PROCESSING_JOBS s !! jid) as [[|[]]|].
Qed.

(** An event that is not a submission schedules no pass and, when no pass
    is scheduled, creates no task. *)
Lemma apply_event_no_submission s ev s' :
  apply_event item_error s ev = Some s' → is_submission ev = false →
  background_tasks s = 0 →
  background_tasks s' = 0 ∧
  ∀ j, PROCESSING_JOBS s !! j = None → PROCESSING_JOBS s' !! j = None.
Proof.
  intros H Hev Hb.
  destruct ev as [request jid now|jid now| |jid now|jid now
                  |jid now|jid|jid k now|jid k]; cbn in H; try done.
  - unfold cancel_batch_job in H.
    destruct (BATCH_JOBS s !! jid) as [job|]; [|by injection H as <-].
    case_decide; [by injection H as <-|]. injection H as <-.
    repeat case_decide; cbn; rewrite ?task_cancel_background,
      ?task_cancel_processing; (split; [done|]); intros j Hj;
      rewrite ?lookup_delete; try case_decide; done.
  - by rewrite Hb in H.
  - destruct (PROCESSING_JOBS s !! jid) as [[|]|] eqn:Ep; try done.
    unfold _process_batch_job in H.
    destruct (BATCH_JOBS s !! jid) as [job|]; [cbn in H|done].
    destruct (run_executor _ _ _) as [job' [|e|children]];
      injection H as <-; cbn; (split; [done|]); intros j Hj;
      destruct (decide (j = jid)) as [->|Hne]; try congruence;
      by rewrite ?lookup_delete_ne, ?lookup_insert_ne by done.
  - unfold _process_batch_job_resume in H.
    destruct (BATCH_JOBS s !! jid) as [job|]; [cbn in H|done].
    destruct (PROCESSING_JOBS s !! jid) as [[|[e|]]|]; try done;
      [|destruct (waiting _); [|done]; destruct (sleeping _); [|done]];
      injection H as <-; cbn; (split; [done|]); intros j Hj;
      rewrite lookup_delete; by case_decide.
  - unfold _process_batch_job_cancelled in H.
    destruct (BATCH_JOBS s !! jid) as [job|]; [cbn in H|done].
    destruct (cancelled_tasks s !! jid) as [[e|]|]; [| |done];
      injection H as <-; cbn; (split; [done|]); intros j Hj;
      rewrite lookup_delete; by case_decide.
  - unfold process_item_enter in H.
    destruct (BATCH_JOBS s !! jid) as [job|]; [cbn in H|done].
    destruct (waiting _); [done|]. case_decide; [|done].
    by injection H as <-.
  - unfold process_item_finish in H.
    destruct (BATCH_JOBS s !! jid) as [job|]; [cbn in H|done].
    destruct (sleeping _ !! k); [cbn in H|done]. injection H as <-.
    unfold gather_exception. cbn -[count_item].
    destruct (count_item _).2, (PROCESSING_JOBS s !! jid) as [[|[]]|] eqn:Ep;
      cbn; (split; [done|]); try done.
    intros j Hj. destruct (decide (j = jid)) as [->|Hne]; [congruence|].
    by rewrite lookup_insert_ne.
  - unfold process_item_cancelled in H.
    destruct (BATCH_JOBS s !! jid) as [job|]; [cbn in H|done].
    destruct (cancelled _ !! k); [cbn in H|done]. injection H as <-.
    unfold cancelled_exception. cbn -[count_item].
    by destruct (count_item _).2, (cancelled_tasks s !! jid) as [[]|].
Qed.

Lemma run_no_submission s evs s' :
  run item_error s evs = Some s' →
  Forall (λ ev, is_submission ev = false) evs →
  background_tasks s = 0 →
  background_tasks s' = 0 ∧
  ∀ j, PROCESSING_JOBS s !! j = None → PROCESSING_JOBS s' !! j = None.
Proof.
  revert s. induction evs as [|ev evs IH]; intros s H Hall Hb; cbn in H.
  - by injection H as <-.
  - apply Forall_cons in Hall as [Hev Hall].
    destruct (apply_event item_error s ev) as [s1|] eqn:E; [cbn in H|done].
    destruct (apply_event_no_submission _ _ _ E Hev Hb) as [Hb1 Hp1].
    destruct (IH _ H Hall Hb1) as [Hb' Hp']. auto.
Qed.

Lemma process_queue_loop_head jobs j q pj job :
  jobs !! j = Some job → status job = PENDING → size pj < 3 →
  (∀ j', j' ∈ q → ∃ job', jobs !! j' = Some job' ∧ status job' = PENDING) →
  j ∉ q →
  (process_queue_loop jobs (j :: q) pj).2 !! j = Some task_created ∧
  j ∉ (process_queue_loop jobs (j :: q) pj).1.
Proof.
  intros Hj Hst Hsz Hq Hnin. cbn. rewrite decide_True by done.
  rewrite Hj, decide_True by done.
  destruct (process_queue_loop_spec jobs q (<[j:=task_created]> pj) Hq)
    as (popped & E & Hl & _). split.
  - rewrite Hl. case_decide; [done|]. apply lookup_insert_eq.
  - intros Hin. apply Hnin. rewrite E. apply elem_of_app. by right.
Qed.

(** X18: an admission pass is scheduled by a submission and by nothing
    else.  Along a run without submissions that starts with no pass
    scheduled, none is scheduled and no task is created, whatever ends and
    however many slots are free.  A pass in a reachable state with fewer
    than 3 tasks gives the head of the queue its task. *)
Theorem admission_pass_only_on_submission :
  (∀ s request jid now,
     background_tasks (create_batch_job request jid now s)
     = S (background_tasks s)) ∧
  (∀ s evs s',
     run item_error s evs = Some s' →
     Forall (λ ev, is_submission ev = false) evs →
     background_tasks s = 0 →
     background_tasks s' = 0 ∧
     ∀ j, PROCESSING_JOBS s !! j = None → PROCESSING_JOBS s' !! j = None) ∧
  (∀ evs s j q,
     run item_error initial evs = Some s →
     JOB_QUEUE s = j :: q →
     size (PROCESSING_JOBS s) < 3 →
     PROCESSING_JOBS (_process_job_queue s) !! j = Some task_created ∧
     j ∉ JOB_QUEUE (_process_job_queue s)).
Proof.
  split_and!.
  - done.
  - apply run_no_submission.
  - intros evs s j q Hrun Hq Hsz.
    apply reachable_invariant in Hrun as [Hj Hnd _].
    assert (Hpend : ∀ j', j' ∈ JOB_QUEUE s →
              ∃ job', BATCH_JOBS s !! j' = Some job' ∧ status job' = PENDING).
    { intros j' Hin. specialize (Hj j'). unfold job_ok_at, job_ok in Hj.
      destruct (BATCH_JOBS s !! j') as [job'|]; [|tauto].
      exists job'. split; [done|]. by phases Hj. }
    rewrite Hq in Hnd, Hpend. apply NoDup_cons in Hnd as [Hnin _].
    destruct (Hpend j) as (job & Hjob & Hst); [by left|].
    unfold _process_job_queue. cbn. rewrite Hq.
    eapply process_queue_loop_head; eauto. intros j' Hj'. apply Hpend. by right.
Qed.

(** *** The order of the queue *)

Lemma StronglySorted_sublist {A} (R : relation A) l1 l2 :
  l1 `sublist_of` l2 → StronglySorted R l2 → StronglySorted R l1.
Proof.
  induction 1 as [|x l1 l2 Hsub IH|x l1 l2 Hsub IH]; intros Hs.
  - done.
  - apply StronglySorted_cons in Hs as [Hall Hs].
    apply StronglySorted_cons. split; [|auto].
    apply Forall_forall. intros y Hy.
    rewrite Forall_forall in Hall. apply Hall.
    by eapply elem_of_sublist.
  - apply StronglySorted_cons in Hs as [_ Hs]. auto.
Qed.

Lemma StronglySorted_mono {A} (R R' : relation A) l :
  (∀ a b, a ∈ l → b ∈ l → R a b → R' a b) →
  StronglySorted R l → StronglySorted R' l.
Proof.
  induction l as [|x l IH]; intros Hmono Hs; [constructor|].
  apply StronglySorted_cons in Hs as [Hall Hs].
  apply StronglySorted_cons. split.
  - rewrite Forall_forall in *. intros y Hy.
    apply Hmono; [by left|by right|auto].
  - apply IH; [|done]. intros a b Ha Hb. apply Hmono; by right.
Qed.

(** Insertion into a list sorted for a relation that refines the order of
    the keys. *)
Lemma insert_desc_StronglySorted (R : relation string) key a l :
  (∀ y z, R y z → (key z ≤ key y)%Z) →
  (∀ y, y ∈ l → (key a < key y)%Z → R y a) →
  (∀ w, w ∈ l → (key w ≤ key a)%Z → R a w) →
  StronglySorted R l → StronglySorted R (insert_desc key a l).
Proof.
  intros Hkey. induction l as [|y l IH]; intros Hgt Hle Hs; cbn.
  - repeat constructor.
  - apply StronglySorted_cons in Hs as [Hall Hs].
    rewrite Forall_forall in Hall.
    destruct (key a <? key y)%Z eqn:E.
    + apply Z.ltb_lt in E. apply StronglySorted_cons. split.
      * apply Forall_forall. intros w.
        rewrite insert_desc_Permutation, elem_of_cons.
        intros [->|Hw]; [apply Hgt; [by left|done]|auto].
      * apply IH; [| |done].
        -- intros w Hw. apply Hgt. by right.
        -- intros w Hw. apply Hle. by right.
    + apply Z.ltb_ge in E. apply StronglySorted_cons. split.
      * apply Forall_forall. intros w Hw. apply Hle; [done|].
        apply elem_of_cons in Hw as [->|Hw]; [done|].
        specialize (Hkey _ _ (Hall _ Hw)). lia.
      * by apply StronglySorted_cons; rewrite Forall_forall.
Qed.

(** Appending [x] to a sorted list and sorting again. *)
Lemma sort_desc_snoc_StronglySorted (R : relation string) key x q :
  (∀ y z, R y z → (key z ≤ key y)%Z) →
  (∀ y, y ∈ q → (key y < key x)%Z → R x y) →
  (∀ y, y ∈ q → (key x ≤ key y)%Z → R y x) →
  StronglySorted R q → StronglySorted R (sort_desc key (q ++ [x])).
Proof.
  intros Hkey. induction q as [|a q IH]; intros Hlt Hge Hs; cbn.
  - repeat constructor.
  - apply StronglySorted_cons in Hs as [Hall Hs].
    rewrite Forall_forall in Hall.
    apply insert_desc_StronglySorted; [done| | |].
    + intros y. rewrite sort_desc_Permutation, elem_of_app.
      intros [Hy| ->%list_elem_of_singleton] Hay.
      * specialize (Hkey _ _ (Hall _ Hy)). lia.
      * apply Hlt; [by left|done].
    + intros w. rewrite sort_desc_Permutation, elem_of_app.
      intros [Hw| ->%list_elem_of_singleton] Hwa; [auto|].
      apply Hge; [by left|done].
    + apply IH; [| |done].
      * intros y Hy. apply Hlt. by right.
      * intros y Hy. apply Hge. by right.
Qed.

Lemma same_identity_trans job1 job2 job3 :
  same_identity job1 job2 → same_identity job2 job3 →
  same_identity job1 job3.
Proof. intros [? ?] [? ?]. split; congruence. Qed.

Lemma record_item_identity t now it job :
  same_identity job (record_item item_error t now it job).
Proof. unfold record_item. by destruct (item_error _ _ _). Qed.

Lemma count_item_identity job : same_identity job (count_item job).1.
Proof. unfold count_item. by case_decide. Qed.

Lemma process_items_identity t now items job :
  same_identity job (process_items item_error t now items job).1.
Proof.
  revert job. induction items as [|it rest IH]; intros job; cbn; [done|].
  pose proof (count_item_identity (record_item item_error t now it job)).
  pose proof (record_item_identity t now it job).
  destruct (count_item _) as [job' [e|]]; cbn in *.
  - by eapply same_identity_trans.
  - eapply same_identity_trans; [|apply IH]. by eapply same_identity_trans.
Qed.

Lemma run_executor_identity now job :
  same_identity job (run_executor item_error now job).1.
Proof.
  assert (∀ t, same_identity job (process_batch item_error t now job).1).
  { intros t. unfold process_batch. destruct (parameter_items job); [|done].
    apply process_items_identity. }
  unfold run_executor. destruct (job_type job); try done; apply H.
Qed.

Lemma task_cancel_jobs jid s : BATCH_JOBS (task_cancel jid s) = BATCH_JOBS s.
Proof.
  unfold task_cancel. by destruct (PROCESSING_JOBS s !! jid) as [[|[]]|].
Qed.

(** No event changes the priority or the creation time of a job. *)
Lemma apply_event_identity s ev s' j job :
  apply_event item_error s ev = Some s' → BATCH_JOBS s !! j = Some job →
  ∃ job', BATCH_JOBS s' !! j = Some job' ∧ same_identity job job'.
Proof.
  intros H Hj.
  assert (Hset : ∀ jid job0 job1 s0,
    BATCH_JOBS s0 = <[jid:=job1]> (BATCH_JOBS s) →
    BATCH_JOBS s !! jid = Some job0 → same_identity job0 job1 →
    ∃ job', BATCH_JOBS s0 !! j = Some job' ∧ same_identity job job').
  { intros jid job0 job1 s0 -> Hjid Hid.
    destruct (decide (j = jid)) as [->|Hne].
    - rewrite lookup_insert_eq. exists job1. split; [done|]. congruence.
    - rewrite lookup_insert_ne by done. by exists job. }
  destruct ev as [request jid now|jid now| |jid now|jid now
                  |jid now|jid|jid k now|jid k]; cbn in H.
  - destruct (BATCH_JOBS s !! jid) eqn:E; [done|]. injection H as <-.
    cbn. rewrite lookup_insert_ne by congruence. by exists job.
  - unfold cancel_batch_job in H.
    destruct (BATCH_JOBS s !! jid) as [job0|] eqn:E;
      [|injection H as <-; by exists job].
    case_decide; [injection H as <-; by exists job|]. injection H as <-.
    eapply (Hset jid job0);
      [repeat case_decide; cbn; by rewrite ?task_cancel_jobs|done|done].
  - destruct (background_tasks s); [done|]. injection H as <-. by exists job.
  - destruct (PROCESSING_JOBS s !! jid) as [[|]|]; try done.
    unfold _process_batch_job in H.
    destruct (BATCH_JOBS s !! jid) as [job0|] eqn:E; [cbn in H|done].
    pose proof (run_executor_identity now
      (set_started_at (Some now) (set_status PROCESSING job0))) as Hid.
    destruct (run_executor _ _ _) as [job' [|e|children]];
      injection H as <-; by eapply (Hset jid job0).
  - unfold _process_batch_job_resume in H.
    destruct (BATCH_JOBS s !! jid) as [job0|] eqn:E; [cbn in H|done].
    destruct (PROCESSING_JOBS s !! jid) as [[|[e|]]|]; try done;
      [|destruct (waiting _); [|done]; destruct (sleeping _); [|done]];
      injection H as <-; by eapply (Hset jid job0).
  - unfold _process_batch_job_cancelled in H.
    destruct (BATCH_JOBS s !! jid) as [job0|] eqn:E; [cbn in H|done].
    destruct (cancelled_tasks s !! jid) as [[e|]|]; [| |done];
      injection H as <-; [by eapply (Hset jid job0)|by exists job].
  - unfold process_item_enter in H.
    destruct (BATCH_JOBS s !! jid) as [job0|]; [cbn in H|done].
    destruct (waiting _); [done|]. case_decide; [|done].
    injection H as <-. by exists job.
  - unfold process_item_finish in H.
    destruct (BATCH_JOBS s !! jid) as [job0|] eqn:E; [cbn in H|done].
    destruct (sleeping _ !! k) as [it|]; [cbn in H|done]. injection H as <-.
    eapply (Hset jid job0);
      [unfold gather_exception; cbn -[count_item];
       by destruct (count_item _).2, (PROCESSING_JOBS s !! jid) as [[|[]]|]
      |done|].
    eapply same_identity_trans;
      [apply record_item_identity|apply count_item_identity].
  - unfold process_item_cancelled in H.
    destruct (BATCH_JOBS s !! jid) as [job0|] eqn:E; [cbn in H|done].
    destruct (cancelled _ !! k) as [it|]; [cbn in H|done]. injection H as <-.
    eapply (Hset jid job0);
      [unfold cancelled_exception; cbn -[count_item];
       by destruct (count_item _).2, (cancelled_tasks s !! jid) as [[]|]
      |done|apply count_item_identity].
Qed.

Lemma suffix_is_sublist {A} (l1 l2 : list A) :
  l1 `suffix_of` l2 → l1 `sublist_of` l2.
Proof. intros [k ->]. by apply sublist_inserts_l. Qed.

Lemma process_queue_loop_suffix jobs q pj :
  (process_queue_loop jobs q pj).1 `suffix_of` q.
Proof.
  revert pj. induction q as [|j q IH]; intros pj; cbn; [done|].
  case_decide; [|done].
  destruct (jobs !! j) as [job|]; [case_decide|]; by apply suffix_cons_r.
Qed.

(** An event other than a submission only removes ids from the queue. *)
Lemma apply_event_queue s ev s' :
  apply_event item_error s ev = Some s' → is_submission ev = false →
  JOB_QUEUE s' `sublist_of` JOB_QUEUE s.
Proof.
  intros H Hev.
  destruct ev as [request jid now|jid now| |jid now|jid now
                  |jid now|jid|jid k now|jid k]; cbn in H; try done.
  - unfold cancel_batch_job in H.
    destruct (BATCH_JOBS s !! jid) as [job0|]; [|by injection H as <-].
    case_decide; [by injection H as <-|]. injection H as <-.
    repeat case_decide; cbn; rewrite ?task_cancel_queue; try done;
      apply remove_first_sublist.
  - destruct (background_tasks s); [done|]. injection H as <-. cbn.
    apply suffix_is_sublist, process_queue_loop_suffix.
  - destruct (PROCESSING_JOBS s !! jid) as [[|]|]; try done.
    unfold _process_batch_job in H.
    destruct (BATCH_JOBS s !! jid) as [job0|]; [cbn in H|done].
    by destruct (run_executor _ _ _) as [job' [|e|children]];
      injection H as <-.
  - unfold _process_batch_job_resume in H.
    destruct (BATCH_JOBS s !! jid) as [job0|]; [cbn in H|done].
    by destruct (PROCESSING_JOBS s !! jid) as [[|[e|]]|]; try done;
      [|destruct (waiting _); [|done]; destruct (sleeping _); [|done]];
      injection H as <-.
  - unfold _process_batch_job_cancelled in H.
    destruct (BATCH_JOBS s !! jid) as [job0|]; [cbn in H|done].
    by destruct (cancelled_tasks s !! jid) as [[e|]|]; [| |done];
      injection H as <-.
  - unfold process_item_enter in H.
    destruct (BATCH_JOBS s !! jid) as [job0|]; [cbn in H|done].
    destruct (waiting _); [done|]. case_decide; [|done].
    by injection H as <-.
  - unfold process_item_finish in H.
    destruct (BATCH_JOBS s !! jid) as [job0|]; [cbn in H|done].
    destruct (sleeping _ !! k) as [it|]; [cbn in H|done]. injection H as <-.
    unfold gather_exception. cbn -[count_item].
    by destruct (count_item _).2, (PROCESSING_JOBS s !! jid) as [[|[]]|].
  - unfold process_item_cancelled in H.
    destruct (BATCH_JOBS s !! jid) as [job0|]; [cbn in H|done].
    destruct (cancelled _ !! k) as [it|]; [cbn in H|done]. injection H as <-.
    unfold cancelled_exception. cbn -[count_item].
    by destruct (count_item _).2, (cancelled_tasks s !! jid) as [[]|].
Qed.

Lemma invariant_queue_pending s j :
  invariant s → j ∈ JOB_QUEUE s →
  ∃ job, BATCH_JOBS s !! j = Some job ∧ status job = PENDING.
Proof.
  intros [Hj _ _] Hin. specialize (Hj j). unfold job_ok_at, job_ok in Hj.
  destruct (BATCH_JOBS s !! j) as [job|]; [|tauto].
  exists job. split; [done|]. by phases Hj.
Qed.

Lemma served_before_identity (jobs jobs' : gmap string BatchJob) a b :
  (∀ j job, jobs !! j = Some job →
     ∃ job', jobs' !! j = Some job' ∧ same_identity job job') →
  served_before jobs a b → served_before jobs' a b.
Proof.
  intros Hid (ja & jb & Ha & Hb & Hord).
  destruct (Hid _ _ Ha) as (ja' & Ha' & Hpa & Hca).
  destruct (Hid _ _ Hb) as (jb' & Hb' & Hpb & Hcb).
  exists ja', jb'. rewrite Hpa, Hpb, Hca, Hcb. done.
Qed.

Lemma create_batch_job_queue_ordered s request jid now :
  invariant s → BATCH_JOBS s !! jid = None → queue_ordered s →
  queue_created_by s [now] →
  queue_ordered (create_batch_job request jid now s).
Proof.
  intros Hinv Hfresh Hs Hby. unfold queue_ordered. cbn.
  set (job := new_job request jid now).
  set (jobs' := <[jid:=job]> (BATCH_JOBS s)).
  assert (Hold : ∀ y, y ∈ JOB_QUEUE s →
            ∃ jy, BATCH_JOBS s !! y = Some jy ∧ jobs' !! y = Some jy).
  { intros y Hy. destruct (invariant_queue_pending s y) as (jy & Ey & _);
      [done..|].
    exists jy. split; [done|]. unfold jobs'.
    rewrite lookup_insert_ne; [done|]. intros ->. congruence. }
  assert (Hnew : jobs' !! jid = Some job) by apply lookup_insert_eq.
  apply sort_desc_snoc_StronglySorted.
  - intros y z (jy & jz & Ey & Ez & Hord). unfold priority_of.
    rewrite Ey, Ez. cbn. lia.
  - intros y Hy. destruct (Hold y Hy) as (jy & _ & Ey).
    unfold priority_of. rewrite Ey, Hnew. cbn. intros Hlt.
    exists job, jy. split_and!; [done..|]. by left.
  - intros y Hy. destruct (Hold y Hy) as (jy & Ey0 & Ey).
    unfold priority_of. rewrite Ey, Hnew. cbn. intros Hle.
    exists jy, job. split_and!; [done..|].
    destruct (decide (priority job = priority jy)) as [E|E].
    + right. split; [done|]. cbn. eapply Hby; [done..|by left].
    + left. subst job. cbn in *. lia.
  - eapply StronglySorted_mono; [|exact Hs]. intros a b Ha Hb.
    apply served_before_identity. intros j j0 Ej. exists j0. split; [|done].
    unfold jobs'. rewrite lookup_insert_ne; [done|]. intros ->. congruence.
Qed.

Lemma apply_event_queue_ordered s ev s' :
  invariant s → apply_event item_error s ev = Some s' →
  queue_ordered s →
  (∀ t, creation_time ev = Some t → queue_created_by s [t]) →
  queue_ordered s'.
Proof.
  intros Hinv H Hs Hby. destruct (is_submission ev) eqn:Hev.
  - destruct ev as [request jid now| | | | | | | |]; try done. cbn in H.
    destruct (BATCH_JOBS s !! jid) eqn:E; [done|]. injection H as <-.
    apply create_batch_job_queue_ordered; auto.
  - unfold queue_ordered.
    eapply StronglySorted_sublist; [by eapply apply_event_queue|].
    eapply StronglySorted_mono; [|exact Hs]. intros a b _ _.
    apply served_before_identity. intros j job.
    by eapply apply_event_identity.
Qed.

Lemma apply_event_queue_created_by s ev s' ts :
  invariant s → apply_event item_error s ev = Some s' →
  StronglySorted Qle (creation_times (ev :: ts)) →
  queue_created_by s (creation_times (ev :: ts)) →
  queue_created_by s' (creation_times ts).
Proof.
  intros Hinv H Hts Hby j job' t Hj Ej Ht.
  destruct (is_submission ev) eqn:Hev.
  - destruct ev as [request jid now| | | | | | | |]; try done. cbn in *.
    destruct (BATCH_JOBS s !! jid) eqn:E; [done|]. injection H as <-.
    cbn in *. apply StronglySorted_cons in Hts as [Hall _].
    rewrite Forall_forall in Hall.
    rewrite sort_desc_Permutation, elem_of_app, list_elem_of_singleton in Hj.
    destruct (decide (j = jid)) as [->|Hne].
    + rewrite lookup_insert_eq in Ej. injection Ej as <-. cbn. auto.
    + rewrite lookup_insert_ne in Ej by done.
      destruct Hj as [Hj|Hj]; [|done]. eapply Hby; [done..|by right].
  - assert (Hj0 : j ∈ JOB_QUEUE s).
    { eapply elem_of_sublist; [done|]. by eapply apply_event_queue. }
    destruct (invariant_queue_pending s j) as (job & Ej0 & _); [done..|].
    pose proof H as Hid.
    eapply apply_event_identity in Hid as (job1 & Ej1 & _ & Hc); [|exact Ej0].
    rewrite Ej in Ej1. injection Ej1 as <-. rewrite Hc.
    eapply Hby; [done..|].
    destruct ev; try done; cbn; auto.
Qed.

Lemma run_queue_ordered s evs s' :
  invariant s → run item_error s evs = Some s' →
  StronglySorted Qle (creation_times evs) →
  queue_ordered s → queue_created_by s (creation_times evs) →
  queue_ordered s'.
Proof.
  revert s. induction evs as [|ev evs IH]; intros s Hinv H Hts Hs Hby;
    cbn in H.
  - by injection H as <-.
  - destruct (apply_event item_error s ev) as [s1|] eqn:E; [cbn in H|done].
    eapply (IH s1); [by eapply apply_event_invariant|done| | |].
    + unfold creation_times in *. cbn in Hts.
      destruct (creation_time ev); [|done].
      by apply StronglySorted_cons in Hts as [_ ?].
    + eapply apply_event_queue_ordered; [done..|].
      intros t Ht j job t' Hj Ej ->%list_elem_of_singleton.
      eapply Hby; [done..|]. unfold creation_times. cbn. rewrite Ht.
      by left.
    + by eapply apply_event_queue_created_by.
Qed.

Lemma initial_queue_ordered ts :
  queue_ordered initial ∧ queue_created_by initial ts.
Proof.
  split; [constructor|]. intros j job t Hj. by apply elem_of_nil in Hj.
Qed.

(** * Further properties of the module *)

(** ** The history of a job record *)

Lemma job_history_trans job1 job2 job3 :
  job_history job1 job2 → job_history job2 job3 → job_history job1 job3.
Proof. apply rtc_trans. Qed.

Lemma record_item_history t now it job :
  job_history job (record_item item_error t now it job).
Proof.
  unfold record_item. destruct (item_error _ _ _); apply rtc_once; constructor.
Qed.

Lemma count_item_history job : job_history job (count_item job).1.
Proof.
  unfold count_item. case_decide; cbn.
  - apply rtc_once. constructor.
  - eapply rtc_l; [apply mutate_processed|]. apply rtc_once.
    apply mutate_progress.
Qed.

Lemma process_items_history t now items job :
  job_history job (process_items item_error t now items job).1.
Proof.
  revert job. induction items as [|it rest IH]; intros job; cbn; [done|].
  pose proof (count_item_history (record_item item_error t now it job)).
  pose proof (record_item_history t now it job).
  destruct (count_item _) as [job' [e|]]; cbn in *.
  - by eapply job_history_trans.
  - eapply job_history_trans; [|apply IH]. by eapply job_history_trans.
Qed.

Lemma run_executor_history now job :
  job_history job (run_executor item_error now job).1.
Proof.
  assert (∀ t, job_history job (process_batch item_error t now job).1).
  { intros t. unfold process_batch. destruct (parameter_items job); [|done].
    apply process_items_history. }
  unfold run_executor. destruct (job_type job); try done; apply H.
Qed.

Lemma job_completed_history now job :
  job_history job (job_completed now job).
Proof.
  unfold job_completed.
  eapply rtc_l; [apply (mutate_status COMPLETED)|].
  eapply rtc_l; [apply (mutate_completed_at (Some now))|].
  apply rtc_once. apply mutate_progress.
Qed.

Lemma job_failed_history e now job : job_history job (job_failed e now job).
Proof.
  unfold job_failed.
  eapply rtc_l; [apply (mutate_status FAILED)|].
  eapply rtc_l; [apply (mutate_completed_at (Some now))|].
  apply rtc_once.
  exact (mutate_job_failure e now
           (set_completed_at (Some now) (set_status FAILED job))).
Qed.

Lemma job_started_history now job :
  job_history job (set_started_at (Some now) (set_status PROCESSING job)).
Proof.
  eapply rtc_l; [apply (mutate_status PROCESSING)|].
  apply rtc_once. apply mutate_started_at.
Qed.

Lemma job_cancelled_history now job :
  job_history job (set_completed_at (Some now) (set_status CANCELLED job)).
Proof.
  eapply rtc_l; [apply (mutate_status CANCELLED)|].
  apply rtc_once. apply mutate_completed_at.
Qed.

(** Every event keeps the jobs there are and changes a record only by
    the mutations above. *)
Lemma apply_event_history s ev s' j job :
  apply_event item_error s ev = Some s' → BATCH_JOBS s !! j = Some job →
  ∃ job', BATCH_JOBS s' !! j = Some job' ∧ job_history job job'.
Proof.
  intros H Hj.
  assert (Hset : ∀ jid job0 job1 s0,
    BATCH_JOBS s0 = <[jid:=job1]> (BATCH_JOBS s) →
    BATCH_JOBS s !! jid = Some job0 → job_history job0 job1 →
    ∃ job', BATCH_JOBS s0 !! j = Some job' ∧ job_history job job').
  { intros jid job0 job1 s0 -> Hjid Hid.
    destruct (decide (j = jid)) as [->|Hne].
    - rewrite lookup_insert_eq. exists job1. split; [done|]. congruence.
    - rewrite lookup_insert_ne by done. by exists job. }
  destruct ev as [request jid now|jid now| |jid now|jid now
                  |jid now|jid|jid k now|jid k]; cbn in H.
  - destruct (BATCH_JOBS s !! jid) eqn:E; [done|]. injection H as <-.
    cbn. rewrite lookup_insert_ne by congruence. by exists job.
  - unfold cancel_batch_job in H.
    destruct (BATCH_JOBS s !! jid) as [job0|] eqn:E;
      [|injection H as <-; by exists job].
    case_decide; [injection H as <-; by exists job|]. injection H as <-.
    eapply (Hset jid job0);
      [repeat case_decide; cbn; by rewrite ?task_cancel_jobs|done|].
    apply job_cancelled_history.
  - destruct (background_tasks s); [done|]. injection H as <-. by exists job.
  - destruct (PROCESSING_JOBS s !! jid) as [[|]|]; try done.
    unfold _process_batch_job in H.
    destruct (BATCH_JOBS s !! jid) as [job0|] eqn:E; [cbn in H|done].
    pose proof (run_executor_history now
      (set_started_at (Some now) (set_status PROCESSING job0))) as Hid.
    pose proof (job_started_history now job0) as Hst.
    destruct (run_executor _ _ _) as [job' [|e|children]]; cbn in Hid;
      injection H as <-;
      (eapply (Hset jid job0); [reflexivity|done|]);
      eapply job_history_trans; [exact Hst| |exact Hst| |exact Hst|exact Hid];
      (eapply job_history_trans; [exact Hid|]);
      [apply job_completed_history|apply job_failed_history].
  - unfold _process_batch_job_resume in H.
    destruct (BATCH_JOBS s !! jid) as [job0|] eqn:E; [cbn in H|done].
    destruct (PROCESSING_JOBS s !! jid) as [[|[e|]]|]; try done;
      [|destruct (waiting _); [|done]; destruct (sleeping _); [|done]];
      injection H as <-;
      (eapply (Hset jid job0); [reflexivity|done|]);
      [apply job_failed_history|apply job_completed_history].
  - unfold _process_batch_job_cancelled in H.
    destruct (BATCH_JOBS s !! jid) as [job0|] eqn:E; [cbn in H|done].
    destruct (cancelled_tasks s !! jid) as [[e|]|]; [| |done];
      injection H as <-; [|by exists job].
    eapply (Hset jid job0); [reflexivity|done|apply job_failed_history].
  - unfold process_item_enter in H.
    destruct (BATCH_JOBS s !! jid) as [job0|]; [cbn in H|done].
    destruct (waiting _); [done|]. case_decide; [|done].
    injection H as <-. by exists job.
  - unfold process_item_finish in H.
    destruct (BATCH_JOBS s !! jid) as [job0|] eqn:E; [cbn in H|done].
    destruct (sleeping _ !! k) as [it|]; [cbn in H|done]. injection H as <-.
    eapply (Hset jid job0);
      [unfold gather_exception; cbn -[count_item];
       by destruct (count_item _).2, (PROCESSING_JOBS s !! jid) as [[|[]]|]
      |done|].
    eapply job_history_trans;
      [apply record_item_history|apply count_item_history].
  - unfold process_item_cancelled in H.
    destruct (BATCH_JOBS s !! jid) as [job0|] eqn:E; [cbn in H|done].
    destruct (cancelled _ !! k) as [it|]; [cbn in H|done]. injection H as <-.
    eapply (Hset jid job0);
      [unfold cancelled_exception; cbn -[count_item];
       by destruct (count_item _).2, (cancelled_tasks s !! jid) as [[]|]
      |done|apply count_item_history].
Qed.

(** A record that an event brings into [BATCH_JOBS] is the one that
    [create_batch_job] builds. *)
Lemma apply_event_new_job s ev s' j job' :
  apply_event item_error s ev = Some s' → BATCH_JOBS s !! j = None →
  BATCH_JOBS s' !! j = Some job' →
  ∃ request now, ev = create_job request j now ∧
                 job' = new_job request j now.
Proof.
  intros H Hnone Hj.
  assert (Hkeep : BATCH_JOBS s' !! j = None ∨
                  ∃ request now, ev = create_job request j now ∧
                                 job' = new_job request j now);
    [|destruct Hkeep as [Hk|?]; [congruence|done]].
  assert (Hset : ∀ jid job0 job1 s0,
    BATCH_JOBS s0 = <[jid:=job1]> (BATCH_JOBS s) →
    BATCH_JOBS s !! jid = Some job0 → BATCH_JOBS s0 !! j = None).
  { intros jid job0 job1 s0 -> Hjid. rewrite lookup_insert_ne; [done|].
    intros ->. congruence. }
  destruct ev as [request jid now|jid now| |jid now|jid now
                  |jid now|jid|jid k now|jid k]; cbn in H.
  - destruct (BATCH_JOBS s !! jid) eqn:E; [done|]. injection H as <-.
    cbn in Hj. destruct (decide (j = jid)) as [->|Hne].
    + rewrite lookup_insert_eq in Hj. injection Hj as <-. right. eauto.
    + rewrite lookup_insert_ne in Hj by done. congruence.
  - left. unfold cancel_batch_job in H.
    destruct (BATCH_JOBS s !! jid) as [job0|] eqn:E;
      [|by injection H as <-].
    case_decide; [by injection H as <-|]. injection H as <-.
    eapply (Hset jid job0); [|done].
    repeat case_decide; cbn; by rewrite ?task_cancel_jobs.
  - left. destruct (background_tasks s); [done|]. by injection H as <-.
  - left. destruct (PROCESSING_JOBS s !! jid) as [[|]|]; try done.
    unfold _process_batch_job in H.
    destruct (BATCH_JOBS s !! jid) as [job0|] eqn:E; [cbn in H|done].
    destruct (run_executor _ _ _) as [job1 [|e|children]];
      injection H as <-; by eapply (Hset jid job0).
  - left. unfold _process_batch_job_resume in H.
    destruct (BATCH_JOBS s !! jid) as [job0|] eqn:E; [cbn in H|done].
    destruct (PROCESSING_JOBS s !! jid) as [[|[e|]]|]; try done;
      [|destruct (waiting _); [|done]; destruct (sleeping _); [|done]];
      injection H as <-; by eapply (Hset jid job0).
  - left. unfold _process_batch_job_cancelled in H.
    destruct (BATCH_JOBS s !! jid) as [job0|] eqn:E; [cbn in H|done].
    destruct (cancelled_tasks s !! jid) as [[e|]|]; [| |done];
      injection H as <-; [by eapply (Hset jid job0)|done].
  - left. unfold process_item_enter in H.
    destruct (BATCH_JOBS s !! jid) as [job0|]; [cbn in H|done].
    destruct (waiting _); [done|]. case_decide; [|done].
    by injection H as <-.
  - left. unfold process_item_finish in H.
    destruct (BATCH_JOBS s !! jid) as [job0|] eqn:E; [cbn in H|done].
    destruct (sleeping _ !! k) as [it|]; [cbn in H|done]. injection H as <-.
    eapply (Hset jid job0); [|done].
    unfold gather_exception. cbn -[count_item].
    by destruct (count_item _).2, (PROCESSING_JOBS s !! jid) as [[|[]]|].
  - left. unfold process_item_cancelled in H.
    destruct (BATCH_JOBS s !! jid) as [job0|] eqn:E; [cbn in H|done].
    destruct (cancelled _ !! k) as [it|]; [cbn in H|done]. injection H as <-.
    eapply (Hset jid job0); [|done].
    unfold cancelled_exception. cbn -[count_item].
    by destruct (count_item _).2, (cancelled_tasks s !! jid) as [[]|].
Qed.

Lemma run_history s evs s' j job :
  run item_error s evs = Some s' → BATCH_JOBS s !! j = Some job →
  ∃ job', BATCH_JOBS s' !! j = Some job' ∧ job_history job job'.
Proof.
  revert s job. induction evs as [|ev evs IH]; intros s job H Hj; cbn in H.
  - injection H as <-. by exists job.
  - destruct (apply_event item_error s ev) as [s1|] eqn:E; [cbn in H|done].
    eapply apply_event_history in E as (job1 & Hj1 & Hh1); [|done].
    destruct (IH _ _ H Hj1) as (job' & Hj' & Hh'). exists job'.
    split; [done|]. by eapply job_history_trans.
Qed.

(** A property of the freshly created record that every mutation keeps
    holds of every job of every run. *)
Lemma run_job_property (P : string → BatchJob → Prop) :
  (∀ request jid now, P jid (new_job request jid now)) →
  (∀ jid job job', job_mutation job job' → P jid job → P jid job') →
  ∀ evs s j job,
    run item_error initial evs = Some s → BATCH_JOBS s !! j = Some job →
    P j job.
Proof.
  intros Hnew Hmut.
  assert (Hhist : ∀ jid job job', job_history job job' → P jid job → P jid job').
  { intros jid job job' Hh. induction Hh; eauto. }
  assert (Hrun : ∀ evs s s',
    (∀ j job, BATCH_JOBS s !! j = Some job → P j job) →
    run item_error s evs = Some s' →
    ∀ j job, BATCH_JOBS s' !! j = Some job → P j job).
  { induction evs as [|ev evs IH]; intros s s' Hs H; cbn in H.
    - by injection H as <-.
    - destruct (apply_event item_error s ev) as [s1|] eqn:E; [cbn in H|done].
      eapply IH; [|done]. intros j job1 Hj1.
      destruct (BATCH_JOBS s !! j) as [job0|] eqn:Hj0.
      + pose proof E as E'.
        eapply apply_event_history in E' as (job2 & Hj2 & Hh); [|done].
        rewrite Hj1 in Hj2. injection Hj2 as <-. eauto.
      + eapply apply_event_new_job in E as (request & now & _ & ->); eauto. }
  intros evs s j job H. eapply Hrun; [|done]. intros j0 job0. cbn.
  by rewrite lookup_empty.
Qed.

Lemma job_mutation_same_submission job job' :
  job_mutation job job' → same_submission job job'.
Proof. by destruct 1. Qed.

Lemma job_mutation_grows job job' : job_mutation job job' → job_grows job job'.
Proof.
  destruct 1; unfold job_grows; cbn; split_and!;
    first [done | lia | by apply prefix_app_r].
Qed.

Lemma job_history_same_submission job job' :
  job_history job job' → same_submission job job'.
Proof.
  induction 1 as [|job1 job2 job3 Hm _ IH]; [done|].
  apply job_mutation_same_submission in Hm.
  unfold same_submission in *. destruct_and!. split_and!; congruence.
Qed.

Lemma job_history_grows job job' : job_history job job' → job_grows job job'.
Proof.
  induction 1 as [|job1 job2 job3 Hm _ IH]; [done|].
  apply job_mutation_grows in Hm.
  unfold job_grows in *. destruct_and!.
  split_and!; first [lia | by etrans].
Qed.

(** X1: no event changes what the submission fixed in a job record (id,
    type, name, description, creation time, number of items, parameters,
    priority, number of workers), no record ever leaves [BATCH_JOBS], and
    a record is stored under its own [job_id]. *)
Theorem submission_is_immutable :
  (∀ s evs s' j job,
     run item_error s evs = Some s' → BATCH_JOBS s !! j = Some job →
     ∃ job', BATCH_JOBS s' !! j = Some job' ∧ same_submission job job') ∧
  (∀ evs s j job,
     run item_error initial evs = Some s → BATCH_JOBS s !! j = Some job →
     job_id job = j).
Proof.
  split.
  - intros s evs s' j job Hrun Hj.
    eapply run_history in Hrun as (job' & Hj' & Hh); [|done].
    exists job'. split; [done|]. by apply job_history_same_submission.
  - apply run_job_property with (P := λ j job, job_id job = j); [done|].
    intros jid job job' Hm <-. by destruct Hm.
Qed.

(** X2: along every run the counters of a job never decrease and its
    [results] and [errors] only grow at the end: what was recorded stays,
    in place. *)
Theorem records_only_grow s evs s' j job :
  run item_error s evs = Some s' → BATCH_JOBS s !! j = Some job →
  ∃ job', BATCH_JOBS s' !! j = Some job' ∧ job_grows job job'.
Proof.
  intros Hrun Hj. eapply run_history in Hrun as (job' & Hj' & Hh); [|done].
  exists job'. split; [done|]. by apply job_history_grows.
Qed.

(** X3: in every reachable state [results] holds one entry per counted
    success and [errors] one item-level entry per counted failure. *)
Theorem entries_match_counters evs s j job :
  run item_error initial evs = Some s → BATCH_JOBS s !! j = Some job →
  length (results job) = successful_items job ∧
  length (filter is_item_error (errors job)) = failed_items job.
Proof.
  apply run_job_property with
    (P := λ _ job, length (results job) = successful_items job ∧
                   length (filter is_item_error (errors job))
                   = failed_items job); [done|].
  intros _ job0 job' Hm [Hr He].
  destruct Hm; cbn; rewrite ?length_app, ?filter_app, ?length_app; cbn;
    rewrite ?decide_True, ?decide_False by tauto; cbn; split; lia.
Qed.

(** ** What an event leaves alone *)

Lemma task_cancel_frame jid s j :
  j ≠ jid →
  item_tasks (task_cancel jid s) !! j = item_tasks s !! j ∧
  cancelled_tasks (task_cancel jid s) !! j = cancelled_tasks s !! j.
Proof.
  intros Hne. unfold task_cancel.
  destruct (PROCESSING_JOBS s !! jid) as [[|[]]|]; cbn;
    by rewrite ?lookup_insert_ne.
Qed.

(** An event touches the record, the task and the item tasks of its own
    job only, and puts no other job into the queue. *)
Lemma apply_event_frame s ev s' j :
  apply_event item_error s ev = Some s' → event_target ev ≠ Some j →
  BATCH_JOBS s' !! j = BATCH_JOBS s !! j ∧
  item_tasks s' !! j = item_tasks s !! j ∧
  cancelled_tasks s' !! j = cancelled_tasks s !! j ∧
  (j ∈ JOB_QUEUE s' → j ∈ JOB_QUEUE s) ∧
  (ev ≠ admission_pass → PROCESSING_JOBS s' !! j = PROCESSING_JOBS s !! j).
Proof.
  intros H Hne.
  destruct ev as [request jid now|jid now| |jid now|jid now
                  |jid now|jid|jid k now|jid k]; cbn in H, Hne;
    try (assert (j ≠ jid) by congruence).
  - destruct (BATCH_JOBS s !! jid) eqn:E; [done|]. injection H as <-. cbn.
    rewrite lookup_insert_ne by done. split_and!; try done.
    rewrite sort_desc_Permutation. set_solver.
  - unfold cancel_batch_job in H.
    destruct (BATCH_JOBS s !! jid) as [job0|] eqn:E;
      [|by injection H as <-].
    case_decide; [by injection H as <-|]. injection H as <-.
    destruct (task_cancel_frame jid s j) as [Hi Hc]; [done|].
    repeat case_decide; cbn;
      rewrite ?task_cancel_jobs, ?task_cancel_queue, ?task_cancel_processing,
        ?lookup_insert_ne, ?lookup_delete_ne by done;
      split_and!; try done;
      intros Hin; by eapply elem_of_sublist, remove_first_sublist.
  - destruct (background_tasks s); [done|]. injection H as <-. cbn.
    split_and!; try done.
    intros Hin. eapply elem_of_sublist; [done|].
    apply suffix_is_sublist, process_queue_loop_suffix.
  - destruct (PROCESSING_JOBS s !! jid) as [[|]|]; try done.
    unfold _process_batch_job in H.
    destruct (BATCH_JOBS s !! jid) as [job0|]; [cbn in H|done].
    destruct (run_executor _ _ _) as [job' [|e|children]];
      injection H as <-; cbn;
      by rewrite ?lookup_insert_ne, ?lookup_delete_ne by done.
  - unfold _process_batch_job_resume in H.
    destruct (BATCH_JOBS s !! jid) as [job0|]; [cbn in H|done].
    destruct (PROCESSING_JOBS s !! jid) as [[|[e|]]|]; try done;
      [|destruct (waiting _); [|done]; destruct (sleeping _); [|done]];
      injection H as <-; cbn;
      by rewrite ?lookup_insert_ne, ?lookup_delete_ne by done.
  - unfold _process_batch_job_cancelled in H.
    destruct (BATCH_JOBS s !! jid) as [job0|]; [cbn in H|done].
    destruct (cancelled_tasks s !! jid) as [[e|]|]; [| |done];
      injection H as <-; cbn;
      by rewrite ?lookup_insert_ne, ?lookup_delete_ne by done.
  - unfold process_item_enter in H.
    destruct (BATCH_JOBS s !! jid) as [job0|]; [cbn in H|done].
    destruct (waiting _); [done|]. case_decide; [|done].
    injection H as <-. cbn. by rewrite lookup_insert_ne by done.
  - unfold process_item_finish in H.
    destruct (BATCH_JOBS s !! jid) as [job0|]; [cbn in H|done].
    destruct (sleeping _ !! k) as [it|]; [cbn in H|done]. injection H as <-.
    unfold gather_exception. cbn -[count_item].
    destruct (count_item _).2, (PROCESSING_JOBS s !! jid) as [[|[]]|]; cbn;
      by rewrite ?lookup_insert_ne by done.
  - unfold process_item_cancelled in H.
    destruct (BATCH_JOBS s !! jid) as [job0|]; [cbn in H|done].
    destruct (cancelled _ !! k) as [it|]; [cbn in H|done]. injection H as <-.
    unfold cancelled_exception. cbn -[count_item].
    destruct (count_item _).2, (cancelled_tasks s !! jid) as [[]|]; cbn;
      by rewrite ?lookup_insert_ne by done.
Qed.

(** The admission pass gives tasks to queued jobs only. *)
Lemma _process_job_queue_frame s j :
  invariant s → j ∉ JOB_QUEUE s →
  PROCESSING_JOBS (_process_job_queue s) !! j = PROCESSING_JOBS s !! j.
Proof.
  intros Hinv Hj.
  destruct (process_queue_loop_spec (BATCH_JOBS s) (JOB_QUEUE s)
              (PROCESSING_JOBS s)) as (popped & E & Hl & _).
  { intros j'. by apply invariant_queue_pending. }
  cbn. rewrite Hl, decide_False; [done|]. intros Hin. apply Hj.
  rewrite E. apply elem_of_app. by left.
Qed.

(** ** Jobs that are over *)

Lemma job_ok_completed s j job :
  job_ok_at s j → BATCH_JOBS s !! j = Some job → status job = COMPLETED →
  PROCESSING_JOBS s !! j = None ∧ idle (item_tasks_of s j) ∧
  cancelled_tasks s !! j = None.
Proof.
  unfold job_ok_at. intros H E Hst. rewrite E in H. unfold job_ok in H.
  phases H; try congruence; unfold idle; by split_and!.
Qed.

Lemma idle_lookup its k :
  idle its →
  sleeping its !! k = None ∧ cancelled its !! k = None ∧ waiting its = [].
Proof. intros (-> & -> & ->). done. Qed.

(** No event applies to a job without a task and without item tasks,
    but a submission under its id and a cancellation. *)
Lemma apply_event_no_task s ev s' j :
  apply_event item_error s ev = Some s' → event_target ev = Some j →
  PROCESSING_JOBS s !! j = None → idle (item_tasks_of s j) →
  cancelled_tasks s !! j = None →
  (∃ request now, ev = create_job request j now) ∨
  (∃ now, ev = cancel_job j now).
Proof.
  intros H Ht Hp Hi Hc. apply (idle_lookup _ 0) in Hi as Hi0.
  destruct ev as [request jid now|jid now| |jid now|jid now
                  |jid now|jid|jid k now|jid k]; cbn in H, Ht;
    try injection Ht as ->; try done; eauto; exfalso.
  - by rewrite Hp in H.
  - unfold _process_batch_job_resume in H. rewrite Hp in H.
    by destruct (BATCH_JOBS s !! j).
  - unfold _process_batch_job_cancelled in H. rewrite Hc in H.
    by destruct (BATCH_JOBS s !! j).
  - unfold process_item_enter in H. destruct Hi0 as (_ & _ & Hw).
    rewrite Hw in H. by destruct (BATCH_JOBS s !! j).
  - unfold process_item_finish in H.
    destruct (idle_lookup _ k Hi) as (Hs & _ & _). rewrite Hs in H.
    by destruct (BATCH_JOBS s !! j).
  - unfold process_item_cancelled in H.
    destruct (idle_lookup _ k Hi) as (_ & Hs & _). rewrite Hs in H.
    by destruct (BATCH_JOBS s !! j).
Qed.

Lemma apply_event_completed s ev s' j job :
  invariant s → apply_event item_error s ev = Some s' →
  BATCH_JOBS s !! j = Some job → status job = COMPLETED →
  BATCH_JOBS s' !! j = Some job.
Proof.
  intros Hinv H Hj Hst.
  destruct (decide (event_target ev = Some j)) as [Ht|Ht].
  - destruct (job_ok_completed s j job) as (Hp & Hi & Hc);
      [by apply inv_jobs|done..|].
    pose proof H as H'.
    eapply apply_event_no_task in H'
      as [(request & now & Hev)|(now & Hev)]; [| |done..]; subst ev.
    + cbn in H. by rewrite Hj in H.
    + cbn in H. unfold cancel_batch_job in H. rewrite Hj in H.
      rewrite decide_True in H by done. by injection H as <-.
  - eapply apply_event_frame in H as (-> & _); done.
Qed.

(** X4: a completed job is final: whatever happens afterwards, also a
    cancellation, its record stays exactly as it is. *)
Theorem completed_job_is_final evs s evs' s' j job :
  run item_error initial evs = Some s →
  run item_error s evs' = Some s' →
  BATCH_JOBS s !! j = Some job → status job = COMPLETED →
  BATCH_JOBS s' !! j = Some job.
Proof.
  intros Hrun. apply reachable_invariant in Hrun. revert s Hrun.
  induction evs' as [|ev evs' IH]; intros s Hinv H Hj Hst; cbn in H.
  - by injection H as <-.
  - destruct (apply_event item_error s ev) as [s1|] eqn:E; [cbn in H|done].
    eapply (IH s1); [by eapply apply_event_invariant|done| |done].
    by eapply apply_event_completed.
Qed.

Lemma apply_event_withdrawn s ev s' j job :
  invariant s → apply_event item_error s ev = Some s' →
  withdrawn s j job → withdrawn s' j job.
Proof.
  intros Hinv H ([t Hj] & Hq & Hp & Hi & Hc).
  destruct (decide (event_target ev = Some j)) as [Ht|Ht].
  - pose proof H as H'.
    eapply apply_event_no_task in H'
      as [(request & now & Hev)|(now & Hev)]; [| |done..]; subst ev.
    + cbn in H. by rewrite Hj in H.
    + cbn in H. unfold cancel_batch_job in H. rewrite Hj in H.
      rewrite decide_False in H by done.
      rewrite decide_False in H by done.
      rewrite decide_False in H by done. injection H as <-.
      unfold withdrawn, item_tasks_of in *. cbn.
      rewrite lookup_insert_eq. split_and!; try done. by eexists.
  - pose proof H as H'.
    eapply apply_event_frame in H' as (Hj' & Hi' & Hc' & Hq' & Hp'); [|done].
    unfold withdrawn, item_tasks_of in *. rewrite Hj', Hi', Hc'.
    split_and!; eauto.
    assert (Hev : ev = admission_pass ∨ ev ≠ admission_pass)
      by (destruct ev; auto).
    destruct Hev as [->|Hev]; [|by rewrite Hp'].
    cbn in H. destruct (background_tasks s) as [|n]; [done|].
    injection H as <-.
    rewrite _process_job_queue_frame; [done| |done]. by destruct Hinv.
Qed.

(** X5: a job that is cancelled while it is in the queue never runs: the
    cancellation succeeds, and in every later state the job has no task,
    is not queued, and its record is the one the cancellation wrote
    (status cancelled, nothing processed) up to [completed_at], which a
    later cancellation overwrites. *)
Theorem cancelled_in_queue_never_runs evs s j job now evs' s' :
  run item_error initial evs = Some s →
  j ∈ JOB_QUEUE s → BATCH_JOBS s !! j = Some job →
  run item_error s (cancel_job j now :: evs') = Some s' →
  withdrawn s' j job ∧ processed_items job = 0.
Proof.
  intros Hrun Hq Hj H. apply reachable_invariant in Hrun as Hinv.
  assert (Hjid := inv_jobs _ Hinv j). unfold job_ok_at in Hjid.
  rewrite Hj in Hjid. unfold job_ok in Hjid.
  phases Hjid.
  split; [|match goal with H : fresh_counters _ |- _ => by destruct H end].
  cbn in H.
  destruct (cancel_batch_job j now s) as [e|s1] eqn:E.
  { unfold cancel_batch_job in E. rewrite Hj in E.
    rewrite decide_False in E by congruence. done. }
  cbn in H.
  assert (Hinv1 : invariant s1) by by eapply cancel_batch_job_invariant.
  assert (Hw : withdrawn s1 j job).
  { unfold cancel_batch_job in E. rewrite Hj in E.
    rewrite (decide_False (P := status job = COMPLETED)) in E by congruence.
    rewrite (decide_False (P := status job = PROCESSING)) in E by congruence.
    rewrite decide_True in E by done. injection E as <-.
    unfold withdrawn, item_tasks_of in *. cbn. rewrite lookup_insert_eq.
    split_and!; try done; [by eexists|].
    apply not_elem_of_remove_first. by destruct Hinv. }
  clear E Hinv Hj Hq. revert s1 H Hinv1 Hw.
  induction evs' as [|ev evs' IH]; intros s1 H Hinv1 Hw; cbn in H.
  - by injection H as <-.
  - destruct (apply_event item_error s1 ev) as [s2|] eqn:E; [cbn in H|done].
    eapply (IH s2); [done|by eapply apply_event_invariant|].
    by eapply apply_event_withdrawn.
Qed.

(** ** The executors *)

Lemma process_items_covers t now its job :
  total_items job ≠ 0 →
  let r := process_items item_error t now its job in
  r.2 = None ∧
  status r.1 = status job ∧
  processed_items r.1 = processed_items job + length its ∧
  successful_items r.1
  = successful_items job + length (item_results item_error t now its) ∧
  failed_items r.1
  = failed_items job + length (item_errors item_error t now its) ∧
  results r.1 = results job ++ item_results item_error t now its ∧
  errors r.1 = errors job ++ item_errors item_error t now its ∧
  (its ≠ [] →
   progress_percentage r.1
   = percentage (processed_items job + length its) (total_items job)).
Proof.
  revert job. induction its as [|it rest IH]; intros job Ht; cbn.
  - rewrite !app_nil_r, !Nat.add_0_r. by split_and!.
  - unfold count_item.
    set (job1 := record_item item_error t now it job).
    assert (Ht1 : total_items job1 = total_items job).
    { unfold job1, record_item. by destruct (item_error _ _ _). }
    change (total_items (set_processed_items _ job1))
      with (total_items job1).
    rewrite decide_False by congruence.
    set (job2 := set_progress_percentage _ _).
    destruct (IH job2) as (Hr & Hs & Hp & Hsu & Hf & Hres & Herr & Hpr).
    { cbn. congruence. }
    unfold job1, record_item in *.
    destruct (item_error t it.1 it.2) as [e|] eqn:E; cbn in *;
      rewrite ?E; cbn.
    all: rewrite Hr, Hs, Hp, Hsu, Hf, Hres, Herr, <- ?app_assoc; cbn.
    all: split_and!; try done; try lia.
    all: intros _; (destruct rest as [|it' rest'];
        [cbn; unfold percentage; cbn; do 3 f_equal; lia
        |rewrite Hpr by done; cbn; unfold percentage; do 3 f_equal; lia]).
Qed.

(** X6: the executor of a sequential job type whose record has
    [total_items ≠ 0] loops over all the items under [parameters]: it
    counts each one as processed, appends a result for those that succeed
    and an error entry for those that raise, in the order of the items,
    and returns without an exception. *)
Theorem sequential_executor_covers_items now job items :
  sequential (job_type job) → parameter_items job = Some items →
  total_items job ≠ 0 →
  ∃ job',
    run_executor item_error now job = (job', returned) ∧
    processed_items job' = processed_items job + length items ∧
    successful_items job' + failed_items job'
    = successful_items job + failed_items job + length items ∧
    results job'
    = results job
      ++ item_results item_error (job_type job) now (enumerate items) ∧
    errors job'
    = errors job
      ++ item_errors item_error (job_type job) now (enumerate items).
Proof.
  intros Hseq Hitems Ht.
  pose proof (process_items_covers (job_type job) now (enumerate items) job Ht)
    as (Hr & _ & Hp & Hsu & Hf & Hres & Herr & _).
  assert (Hlen : length (item_results item_error (job_type job) now
                           (enumerate items))
                 + length (item_errors item_error (job_type job) now
                             (enumerate items))
                 = length items).
  { unfold enumerate. rewrite <- (length_imap (λ i x, (i, x)) items).
    generalize (imap (λ i x, (i, x)) items). intros l.
    unfold item_results, item_errors.
    induction l as [|it l IH]; cbn; [done|].
    destruct (item_error _ _ _); cbn; lia. }
  unfold enumerate in *. rewrite length_imap in Hp.
  exists (process_items item_error (job_type job) now (enumerate items) job).1.
  split_and!; try done; [|unfold enumerate; lia].
  unfold run_executor, _process_document_batch, _process_risk_batch,
    _process_regulatory_batch, _process_prediction_batch, process_batch.
  destruct Hseq as [E|[E|[E|E]]]; rewrite E in *; rewrite Hitems;
    unfold of_loop, enumerate; rewrite Hr; by destruct (process_items _ _ _ _ _).
Qed.

Lemma process_items_zero_total t now it rest job :
  total_items job = 0 →
  process_items item_error t now (it :: rest) job
  = (set_processed_items (S (processed_items job))
       (record_item item_error t now it job),
     Some ZeroDivisionError).
Proof.
  intros Ht. cbn. unfold count_item.
  assert (Ht' : total_items (record_item item_error t now it job) = 0).
  { unfold record_item. by destruct (item_error _ _ _). }
  cbn. rewrite decide_True by done.
  do 3 f_equal. unfold record_item. by destruct (item_error _ _ _).
Qed.

(** X7: when the task of a sequential job with [total_items = 0] runs and
    [parameters] hold at least one item, the executor divides by zero at
    the first item: the job is failed in that same step with
    [processed_items = 1], that one item recorded, a job-level
    [ZeroDivisionError] entry last in [errors], and its slot freed; the
    other items are never looked at. *)
Theorem uncounted_items_divide_by_zero evs s jid job now x items :
  run item_error initial evs = Some s →
  PROCESSING_JOBS s !! jid = Some task_created →
  BATCH_JOBS s !! jid = Some job →
  total_items job = 0 →
  sequential (job_type job) →
  parameter_items job = Some (x :: items) →
  ∃ s' job',
    apply_event item_error s (task_start jid now) = Some s' ∧
    BATCH_JOBS s' !! jid = Some job' ∧
    PROCESSING_JOBS s' !! jid = None ∧
    status job' = FAILED ∧
    completed_at job' = Some now ∧
    processed_items job' = 1 ∧
    successful_items job' + failed_items job' = 1 ∧
    length (results job') + length (errors job')
    = length (results job) + length (errors job) + 2 ∧
    last (errors job') = Some (job_failure ZeroDivisionError now).
Proof.
  intros Hrun Hp Hj Ht Hseq Hitems.
  pose proof Hrun as Hinv. apply reachable_invariant in Hinv.
  destruct Hinv as [Hjobs _ _]. specialize (Hjobs jid).
  unfold job_ok_at in Hjobs. rewrite Hj, Hp in Hjobs. cbn in Hjobs.
  destruct Hjobs as (_ & _ & Hph).
  assert (Hfresh : fresh_counters job).
  { destruct Hph as [H|[H|[H|[H|H]]]]; destruct H as (? & H & ?);
      try done; try (by destruct H); tauto. }
  destruct Hfresh as (Hp0 & Hs0 & Hf0).
  cbn. rewrite Hp. unfold _process_batch_job. rewrite Hj. cbn.
  set (started := set_started_at (Some now) (set_status PROCESSING job)).
  assert (Hst : parameter_items started = Some (x :: items)) by done.
  assert (Hex : ∃ job1,
    run_executor item_error now started
    = (job1, raised_exception ZeroDivisionError) ∧
    processed_items job1 = 1 ∧
    successful_items job1 + failed_items job1 = 1 ∧
    length (results job1) + length (errors job1)
    = length (results job) + length (errors job) + 1).
  { unfold run_executor, _process_document_batch, _process_risk_batch,
      _process_regulatory_batch, _process_prediction_batch, process_batch.
    change (job_type started) with (job_type job).
    destruct Hseq as [E|[E|[E|E]]]; rewrite E, Hst; cbn [enumerate imap];
      unfold enumerate; cbn [imap];
      rewrite process_items_zero_total by done;
      (eexists; split; [done|]); unfold record_item; cbn;
      destruct (item_error _ 0 x); cbn; rewrite ?length_app; cbn;
      split_and!; lia. }
  destruct Hex as (job1 & -> & Hp1 & Hs1 & Hl1).
  eexists _, _. split; [done|]. cbn. rewrite lookup_insert_eq.
  rewrite lookup_delete_eq. split_and!; try done; cbn.
  - rewrite length_app. cbn. lia.
  - by rewrite last_snoc.
Qed.

(** ** The place of a new job in the queue *)

Lemma insert_desc_front key a l :
  (∀ y, head l = Some y → (key y ≤ key a)%Z) → insert_desc key a l = a :: l.
Proof.
  destruct l as [|y l]; cbn; [done|]. intros H.
  specialize (H y eq_refl).
  destruct (key a <? key y)%Z eqn:E; [|done]. apply Z.ltb_lt in E. lia.
Qed.

Lemma sort_desc_snoc_sorted key x q :
  StronglySorted (λ a b, (key b ≤ key a)%Z) q →
  q = filter (λ y, (key x ≤ key y)%Z) q ++ filter (λ y, (key y < key x)%Z) q ∧
  sort_desc key (q ++ [x])
  = filter (λ y, (key x ≤ key y)%Z) q
    ++ x :: filter (λ y, (key y < key x)%Z) q.
Proof.
  induction q as [|a q IH]; intros Hs; [done|].
  apply StronglySorted_cons in Hs as [Hall Hs].
  destruct (IH Hs) as [Hq Hsort]. cbn [app sort_desc]. rewrite Hsort.
  rewrite !filter_cons.
  destruct (decide (key x ≤ key a)%Z) as [Hle|Hgt].
  - rewrite decide_False by lia. cbn. split; [by f_equal|].
    apply insert_desc_front. intros y Hy.
    destruct (filter _ q) as [|z l] eqn:E; cbn in Hy.
    + injection Hy as <-. done.
    + injection Hy as <-.
      assert (Hz : z ∈ filter (λ y, (key x ≤ key y)%Z) q)
        by (rewrite E; left).
      apply list_elem_of_filter in Hz as [_ Hz].
      rewrite Forall_forall in Hall. by apply Hall.
  - rewrite decide_True by lia.
    assert (Hnone : filter (λ y, (key x ≤ key y)%Z) q = []).
    { destruct (filter (λ y, (key x ≤ key y)%Z) q) as [|z l] eqn:E; [done|].
      assert (Hz : z ∈ filter (λ y, (key x ≤ key y)%Z) q)
        by (rewrite E; left).
      apply list_elem_of_filter in Hz as [Hz Hin].
      rewrite Forall_forall in Hall. specialize (Hall z Hin). lia. }
    rewrite Hnone in *. cbn in *. split; [by f_equal|].
    rewrite <- Hq.
    rewrite (proj2 (Z.ltb_lt (key a) (key x))) by lia. f_equal.
    apply insert_desc_front. intros y Hy. apply head_Some_elem_of in Hy.
    rewrite Forall_forall in Hall. by apply Hall.
Qed.

Lemma sort_desc_ext key key' l :
  (∀ y, y ∈ l → key y = key' y) → sort_desc key l = sort_desc key' l.
Proof.
  induction l as [|x l IH]; intros H; cbn; [done|].
  rewrite <- IH by (intros y Hy; apply H; by right).
  assert (Hx : key x = key' x) by (apply H; left).
  assert (Hl : ∀ y, y ∈ sort_desc key l → key y = key' y).
  { intros y Hy. rewrite sort_desc_Permutation in Hy. apply H. by right. }
  generalize dependent (sort_desc key l). intros m _ Hm.
  induction m as [|y m IHm]; cbn; [done|].
  rewrite <- Hx, <- (Hm y) by left.
  destruct (key x <? key y)%Z; [|done].
  f_equal. apply IHm. intros z Hz. apply Hm. by right.
Qed.

Lemma filter_ext_elem {A} (P Q : A → Prop)
    `{!∀ x, Decision (P x)} `{!∀ x, Decision (Q x)} (l : list A) :
  (∀ y, y ∈ l → P y ↔ Q y) → filter P l = filter Q l.
Proof.
  induction l as [|x l IH]; intros Hl; [done|].
  rewrite !filter_cons, IH by (intros y Hy; apply Hl; by right).
  destruct (decide (P x)) as [Hp|Hp], (decide (Q x)) as [Hq|Hq]; try done.
  - exfalso. apply Hq, Hl; [left|done].
  - exfalso. apply Hp, Hl; [left|done].
Qed.

Lemma create_batch_job_queue s request jid now :
  invariant s → BATCH_JOBS s !! jid = None → queue_by_priority s →
  let s' := create_batch_job request jid now s in
  JOB_QUEUE s
  = queued_ahead s (req_priority request)
    ++ queued_behind s (req_priority request) ∧
  JOB_QUEUE s'
  = queued_ahead s (req_priority request)
    ++ jid :: queued_behind s (req_priority request).
Proof.
  intros Hinv Hfresh Hs. cbn.
  set (key := λ j, if decide (j = jid) then req_priority request
                   else priority_of (BATCH_JOBS s) j).
  assert (Hq : ∀ y, y ∈ JOB_QUEUE s → y ≠ jid).
  { intros y Hy ->.
    destruct (invariant_queue_pending s jid) as (? & ? & _); [done..|].
    congruence. }
  assert (Hkey : ∀ y, y ∈ JOB_QUEUE s → key y = priority_of (BATCH_JOBS s) y).
  { intros y Hy. unfold key. rewrite decide_False; [done|]. by apply Hq. }
  assert (Hx : key jid = req_priority request).
  { unfold key. by rewrite decide_True. }
  rewrite (sort_desc_ext _ key).
  2:{ intros y Hy. unfold priority_of, key. case_decide as E.
      - subst y. by rewrite lookup_insert_eq.
      - by rewrite lookup_insert_ne. }
  destruct (sort_desc_snoc_sorted key jid (JOB_QUEUE s)) as [H1 H2].
  { eapply StronglySorted_mono; [|exact Hs]. intros a b Ha Hb.
    unfold by_priority. by rewrite !Hkey. }
  rewrite Hx in *.
  assert (Ha : filter (λ y, (req_priority request ≤ key y)%Z) (JOB_QUEUE s)
               = queued_ahead s (req_priority request)).
  { unfold queued_ahead. apply filter_ext_elem.
    intros y Hy. by rewrite Hkey. }
  assert (Hb : filter (λ y, (key y < req_priority request)%Z) (JOB_QUEUE s)
               = queued_behind s (req_priority request)).
  { unfold queued_behind. apply filter_ext_elem.
    intros y Hy. by rewrite Hkey. }
  by rewrite <- Ha, <- Hb.
Qed.

Lemma apply_event_queue_by_priority s ev s' :
  invariant s → apply_event item_error s ev = Some s' →
  queue_by_priority s → queue_by_priority s'.
Proof.
  intros Hinv H Hs. destruct (is_submission ev) eqn:Hev.
  - destruct ev as [request jid now| | | | | | | |]; try done. cbn in H.
    destruct (BATCH_JOBS s !! jid) eqn:E; [done|]. injection H as <-.
    pose proof (create_batch_job_queue s request jid now Hinv E Hs)
      as [H1 H2]. cbn zeta in H2.
    assert (Hq : ∀ y, y ∈ JOB_QUEUE s → y ≠ jid).
    { intros y Hy ->.
      destruct (invariant_queue_pending s jid) as (? & ? & _); [done..|].
      congruence. }
    assert (Hold : ∀ y, y ∈ JOB_QUEUE s →
              priority_of (BATCH_JOBS (create_batch_job request
                                         jid now s)) y
              = priority_of (BATCH_JOBS s) y).
    { intros y Hy. unfold priority_of. cbn.
      rewrite lookup_insert_ne; [done|]. intros E'. by apply (Hq y Hy). }
    assert (Hnew : priority_of (BATCH_JOBS (create_batch_job
                     request jid now s)) jid = req_priority request).
    { unfold priority_of. cbn. by rewrite lookup_insert_eq. }
    unfold queue_by_priority in *. rewrite H2. rewrite H1 in Hs.
    apply StronglySorted_app in Hs as (Hab & Hsa & Hsb).
    assert (Hina : ∀ y, y ∈ queued_ahead s (req_priority request) →
              y ∈ JOB_QUEUE s ∧
              (req_priority request ≤ priority_of (BATCH_JOBS s) y)%Z).
    { intros y Hy. by apply list_elem_of_filter in Hy as [? ?]. }
    assert (Hinb : ∀ y, y ∈ queued_behind s (req_priority request) →
              y ∈ JOB_QUEUE s ∧
              (priority_of (BATCH_JOBS s) y < req_priority request)%Z).
    { intros y Hy. by apply list_elem_of_filter in Hy as [? ?]. }
    apply StronglySorted_app_2.
    + intros a b Ha Hb. unfold by_priority.
      apply elem_of_cons in Hb as [->|Hb].
      * destruct (Hina a Ha). rewrite Hnew, Hold by done. lia.
      * destruct (Hina a Ha), (Hinb b Hb). rewrite !Hold by done. lia.
    + eapply StronglySorted_mono; [|exact Hsa]. intros a b Ha Hb.
      unfold by_priority. rewrite !Hold; [done|by apply Hina..].
    + apply StronglySorted_cons. split.
      * apply Forall_forall. intros y Hy. unfold by_priority.
        destruct (Hinb y Hy). rewrite Hnew, Hold by done. lia.
      * eapply StronglySorted_mono; [|exact Hsb]. intros a b Ha Hb.
        unfold by_priority. rewrite !Hold; [done|by apply Hinb..].
  - unfold queue_by_priority.
    eapply StronglySorted_sublist; [by eapply apply_event_queue|].
    eapply StronglySorted_mono; [|exact Hs]. intros a b Ha Hb.
    unfold by_priority, priority_of.
    destruct (invariant_queue_pending s a) as (ja & Ea & _); [done..|].
    destruct (invariant_queue_pending s b) as (jb & Eb & _); [done..|].
    pose proof Ea as Ea'. pose proof Eb as Eb'.
    eapply apply_event_identity in Ea' as (ja' & Ea' & Hia & _); [|done].
    eapply apply_event_identity in Eb' as (jb' & Eb' & Hib & _); [|done].
    rewrite Ea, Eb, Ea', Eb'. cbn. by rewrite Hia, Hib.
Qed.

Lemma run_queue_by_priority evs s :
  run item_error initial evs = Some s → queue_by_priority s.
Proof.
  assert (H : ∀ s0, invariant s0 → queue_by_priority s0 →
            run item_error s0 evs = Some s → queue_by_priority s).
  { induction evs as [|ev evs IH]; intros s0 Hinv Hs Hrun; cbn in Hrun.
    - by injection Hrun as <-.
    - destruct (apply_event item_error s0 ev) as [s1|] eqn:E;
        [cbn in Hrun|done].
      eapply (IH s1); [by eapply apply_event_invariant| |done].
      by eapply apply_event_queue_by_priority. }
  apply H; [apply initial_invariant|constructor].
Qed.

(** X8: in every reachable state the queue is in descending order of
    priority, and a submission puts the new job behind the queued jobs of
    the same or a higher priority and ahead of those of a lower one, the
    others keeping their order; the [queue_position] of the response is
    one more than the number of queued jobs of the same or a higher
    priority. *)
Theorem new_job_queue_position evs s request jid now :
  run item_error initial evs = Some s →
  BATCH_JOBS s !! jid = None →
  let s' := create_batch_job request jid now s in
  queue_by_priority s ∧
  JOB_QUEUE s
  = queued_ahead s (req_priority request)
    ++ queued_behind s (req_priority request) ∧
  JOB_QUEUE s'
  = queued_ahead s (req_priority request)
    ++ jid :: queued_behind s (req_priority request) ∧
  queue_position s' jid
  = Some (S (length (queued_ahead s (req_priority request)))).
Proof.
  intros Hrun Hfresh s'.
  pose proof Hrun as Hinv. apply reachable_invariant in Hinv.
  pose proof Hrun as Hs. apply run_queue_by_priority in Hs.
  pose proof (create_batch_job_queue s request jid now Hinv Hfresh Hs)
    as [H1 H2].
  split_and!; [done..|].
  unfold queue_position. fold s'. cbn zeta in H2. fold s' in H2. rewrite H2.
  assert (Hfind : list_find (λ j, j = jid)
            (queued_ahead s (req_priority request)
             ++ jid :: queued_behind s (req_priority request))
          = Some (length (queued_ahead s (req_priority request)), jid)).
  { apply list_find_Some. split_and!.
    - by rewrite list_lookup_middle.
    - done.
    - intros i y Hy Hi ->. rewrite lookup_app_l in Hy by done.
      apply list_elem_of_lookup_2, list_elem_of_filter in Hy as [_ Hy].
      destruct (invariant_queue_pending s jid) as (? & ? & _); [done..|].
      congruence. }
  by rewrite Hfind.
Qed.

(** ** The endpoints that read the store *)

Lemma py_slice_nonneg {A} (l : list A) (start len : Z) :
  (0 ≤ start)%Z → (0 ≤ len)%Z →
  py_slice l start (start + len)
  = take (Z.to_nat len) (drop (Z.to_nat start) l).
Proof.
  intros Hs Hl. unfold py_slice, slice_index.
  rewrite !decide_False by lia.
  destruct (decide (length l ≤ Z.to_nat start)) as [Hge|Hlt].
  - rewrite !drop_ge by lia. by rewrite !take_nil.
  - rewrite (Nat.min_l (Z.to_nat start)) by lia.
    destruct (decide (Z.to_nat (start + len) ≤ length l)) as [Hb|Hb].
    + rewrite Nat.min_l by lia. f_equal. lia.
    + rewrite Nat.min_r by lia.
      rewrite !take_ge; [done|rewrite length_drop; lia..].
Qed.

Lemma collected_results_take s j job limit k :
  BATCH_JOBS s !! j = Some job → (0 < limit)%Z →
  collected_results s j limit k
  = take (S k * Z.to_nat limit) (results job).
Proof.
  intros Hj Hl. unfold collected_results.
  assert (Hpage : ∀ i,
    match results_page s j limit i with
    | inr r => rr_results r
    | inl _ => []
    end = take (Z.to_nat limit) (drop (i * Z.to_nat limit) (results job))).
  { intros i. unfold results_page, get_job_results. rewrite Hj. cbn.
    rewrite py_slice_nonneg by lia. do 2 f_equal. lia. }
  induction k as [|k IH].
  - cbn. rewrite Hpage, app_nil_r. cbn. by rewrite Nat.add_0_r.
  - rewrite seq_S, flat_map_app, IH. cbn [flat_map].
    rewrite app_nil_r, Hpage. change (0 + S k) with (S k).
    rewrite take_take_drop. f_equal. lia.
Qed.

(** X9: [get_job_results] answers 404 for an unknown id and otherwise
    never raises.  With a positive [limit], the page at offset
    [i * limit] is the next [limit] results, or what is left of them; it
    is full when [has_more] is set; and when [has_more] is not set, the
    pages up to this one, put together, are the results of the job, each
    once and in order. *)
Theorem result_pages_cover s j limit i :
  (0 < limit)%Z →
  match BATCH_JOBS s !! j with
  | None => results_page s j limit i = inl 404
  | Some job =>
      ∃ r,
        results_page s j limit i = inr r ∧
        rr_total_results r = length (results job) ∧
        rr_results r
        = take (Z.to_nat limit) (drop (i * Z.to_nat limit) (results job)) ∧
        (rr_has_more r = true → length (rr_results r) = Z.to_nat limit) ∧
        (rr_has_more r = false →
         collected_results s j limit i = results job)
  end.
Proof.
  intros Hl. destruct (BATCH_JOBS s !! j) as [job|] eqn:Hj.
  - assert (Hres : py_slice (results job) (Z.of_nat i * limit)
                     (Z.of_nat i * limit + limit)
                   = take (Z.to_nat limit)
                       (drop (i * Z.to_nat limit) (results job))).
    { rewrite py_slice_nonneg by lia. do 2 f_equal. lia. }
    erewrite collected_results_take by done.
    unfold results_page, get_job_results. rewrite Hj.
    eexists. split; [done|]. cbn. rewrite Hres. split_and!; try done.
    + intros Hm%bool_decide_eq_true.
      rewrite length_take, length_drop. lia.
    + intros Hm%bool_decide_eq_false. apply take_ge. lia.
  - unfold results_page, get_job_results. by rewrite Hj.
Qed.

Lemma status_counts_total (m : gmap string BatchJob) :
  let count st :=
    size (filter (λ kv : string * BatchJob, status kv.2 = st) m) in
  count PENDING + count PROCESSING + count COMPLETED + count FAILED
  + count CANCELLED = size m.
Proof.
  cbn zeta. induction m as [|j job m Hj _ IH] using map_first_key_ind.
  - by rewrite !map_filter_empty, !map_size_empty.
  - rewrite map_size_insert_None by done. rewrite <- IH.
    assert (Hin : ∀ st, status job = st →
      size (filter (λ kv : string * BatchJob, status kv.2 = st)
              (<[j:=job]> m))
      = S (size (filter (λ kv : string * BatchJob, status kv.2 = st) m))).
    { intros st Hst. rewrite map_filter_insert_True by done.
      apply map_size_insert_None. by apply map_lookup_filter_None_2; left. }
    assert (Hout : ∀ st, status job ≠ st →
      size (filter (λ kv : string * BatchJob, status kv.2 = st)
              (<[j:=job]> m))
      = size (filter (λ kv : string * BatchJob, status kv.2 = st) m)).
    { intros st Hst. rewrite map_filter_insert_False by done.
      by rewrite delete_id. }
    destruct (status job) eqn:E;
      repeat first [rewrite Hin by done | rewrite Hout by done]; lia.
Qed.

Lemma NoDup_length_le_size {A} (l : list string) (m : gmap string A) :
  NoDup l → (∀ x, x ∈ l → is_Some (m !! x)) → length l ≤ size m.
Proof.
  intros Hnd. revert m. induction Hnd as [|x l Hx Hnd IH]; intros m Hall.
  - cbn. lia.
  - destruct (Hall x) as [a Ha]; [left|].
    rewrite <- (insert_delete_id m x a) by done.
    rewrite map_size_insert_None by apply lookup_delete_eq. cbn.
    apply le_n_S, IH. intros y Hy.
    rewrite lookup_delete_ne; [apply Hall; by right|]. by intros ->.
Qed.

(** X10: in every reachable state [get_queue_status] returns normally, no
    queued id being without its record; the five status counts add up to
    [total_jobs]; the queue is no longer than the count of pending jobs;
    the count of processing jobs is at most [processing_jobs], which is at
    most 3; and [queue_preview] lists the first ten queued jobs in the
    order of the queue, all of them pending, at positions 1, 2, ... *)
Theorem queue_status_of_reachable evs s :
  run item_error initial evs = Some s →
  ∃ r,
    get_queue_status s = inr r ∧
    qs_status_counts r PENDING + qs_status_counts r PROCESSING
    + qs_status_counts r COMPLETED + qs_status_counts r FAILED
    + qs_status_counts r CANCELLED = qs_total_jobs r ∧
    qs_queue_length r ≤ qs_status_counts r PENDING ∧
    qs_status_counts r PROCESSING ≤ qs_processing_jobs r ∧
    qs_processing_jobs r ≤ 3 ∧
    length (qs_queue_preview r) = qs_queue_length r `min` 10 ∧
    ∀ i e,
      qs_queue_preview r !! i = Some e →
      qe_position e = S i ∧
      JOB_QUEUE s !! i = Some (qe_job_id e) ∧
      ∃ job,
        BATCH_JOBS s !! qe_job_id e = Some job ∧ status job = PENDING ∧
        qe_name e = name job ∧ qe_job_type e = job_type job ∧
        qe_priority e = priority job ∧ qe_total_items e = total_items job.
Proof.
  intros Hrun. pose proof Hrun as Hinv. apply reachable_invariant in Hinv.
  unfold get_queue_status.
  destruct (queue_info s) as [info|] eqn:Hinfo.
  - eexists. split; [done|]. cbn. split_and!.
    + apply status_counts_total.
    + unfold status_count. apply NoDup_length_le_size.
      * by destruct Hinv.
      * intros j Hjq.
        destruct (invariant_queue_pending s j) as (job & Hj & Hst);
          [done..|].
        exists job. by apply map_lookup_filter_Some_2.
    + by apply processing_status_size.
    + by destruct Hinv.
    + apply length_mapM in Hinfo. rewrite <- Hinfo. unfold enumerate.
      rewrite length_imap, length_take. lia.
    + intros i e He. apply mapM_Some_1 in Hinfo.
      destruct (Forall2_lookup_r _ _ _ _ _ Hinfo He) as ([k j] & Hk & Hf).
      unfold enumerate in Hk. rewrite list_lookup_imap in Hk.
      destruct (take 10 (JOB_QUEUE s) !! i) as [j'|] eqn:Hq; [|done].
      cbn in Hk. injection Hk as <- <-. cbn in Hf.
      apply lookup_take_Some in Hq as [Hq _].
      destruct (invariant_queue_pending s j') as (job & Hj & Hst);
        [done|by eapply list_elem_of_lookup_2|].
      rewrite Hj in Hf. cbn in Hf. injection Hf as <-. cbn.
      split_and!; [lia|done|]. by exists job.
  - exfalso. apply mapM_None_1, Exists_exists in Hinfo as ([i j] & Hin & Hf).
    unfold enumerate in Hin.
    apply list_elem_of_lookup in Hin as [k Hk].
    rewrite list_lookup_imap in Hk.
    destruct (take 10 (JOB_QUEUE s) !! k) as [j'|] eqn:Hq; [|done].
    cbn in Hk. injection Hk as <- <-. cbn in Hf.
    apply lookup_take_Some in Hq as [Hq _].
    destruct (invariant_queue_pending s j') as (job & Hj & Hst);
      [done|by eapply list_elem_of_lookup_2|].
    by rewrite Hj in Hf.
Qed.

(** ** The semaphore of an NLP job *)

Lemma run_executor_max_workers now job :
  max_workers (run_executor item_error now job).1 = max_workers job.
Proof.
  assert (H : same_submission job (run_executor item_error now job).1)
    by apply job_history_same_submission, run_executor_history.
  unfold same_submission in H. tauto.
Qed.

Lemma count_item_max_workers job :
  max_workers (count_item job).1 = max_workers job.
Proof. unfold count_item. by case_decide. Qed.

Lemma record_item_max_workers t now it job :
  max_workers (record_item item_error t now it job) = max_workers job.
Proof. unfold record_item. by destruct (item_error _ _ _). Qed.

Lemma apply_event_semaphore_bound s ev s' :
  invariant s → apply_event item_error s ev = Some s' →
  (∀ j, semaphore_bound s j) → ∀ j, semaphore_bound s' j.
Proof.
  intros Hinv H Hall j job' Hj'.
  destruct (decide (event_target ev = Some j)) as [Ht|Ht].
  2:{ eapply apply_event_frame in H as (Hb & Hi & _); [|done].
      unfold item_tasks_of. rewrite Hi. apply (Hall j). by rewrite <- Hb. }
  pose proof (inv_jobs _ Hinv j) as Hok.
  specialize (Hall j). unfold semaphore_bound, in_semaphore in Hall.
  unfold job_ok_at, job_ok in Hok. unfold in_semaphore.
  destruct ev as [request jid now|jid now| |jid now|jid now
                  |jid now|jid|jid k now|jid k]; cbn in H, Ht;
    try injection Ht as ->; try done.
  - destruct (BATCH_JOBS s !! j) eqn:E; [done|]. injection H as <-.
    destruct Hok as (_ & _ & (Hw & Hs & Hc) & _).
    unfold item_tasks_of in *. cbn. rewrite Hs, Hc. cbn. lia.
  - unfold cancel_batch_job in H.
    destruct (BATCH_JOBS s !! j) as [job0|] eqn:E;
      [|injection H as <-; congruence].
    specialize (Hall job0 eq_refl).
    case_decide; [injection H as <-; by simplify_eq|]. injection H as <-.
    revert Hj'. unfold task_cancel, item_tasks_of in *.
    repeat case_decide; cbn;
      destruct (PROCESSING_JOBS s !! j) as [[|[]]|]; cbn;
      rewrite ?lookup_insert_eq; intros [= <-]; cbn;
      rewrite ?length_app; lia.
  - destruct (PROCESSING_JOBS s !! j) as [[|]|]; try done.
    unfold _process_batch_job in H.
    destruct (BATCH_JOBS s !! j) as [job0|] eqn:E; [cbn in H|done].
    specialize (Hall job0 eq_refl).
    pose proof (run_executor_max_workers now
                  (set_started_at (Some now) (set_status PROCESSING job0)))
      as Hmw.
    destruct (run_executor _ _ _) as [job1 [|e|children]];
      injection H as <-; revert Hj'; unfold item_tasks_of in *; cbn;
      rewrite ?lookup_insert_eq; intros [= <-]; cbn in Hmw |- *; lia.
  - unfold _process_batch_job_resume in H.
    destruct (BATCH_JOBS s !! j) as [job0|] eqn:E; [cbn in H|done].
    specialize (Hall job0 eq_refl).
    destruct (PROCESSING_JOBS s !! j) as [[|[e|]]|]; try done;
      [|destruct (waiting _); [|done];
        destruct (sleeping (item_tasks_of s j)) eqn:Es; [|done]];
      injection H as <-; revert Hj'; unfold item_tasks_of in *; cbn;
      rewrite ?lookup_insert_eq; intros [= <-]; cbn; rewrite ?Es; cbn; lia.
  - unfold _process_batch_job_cancelled in H.
    destruct (BATCH_JOBS s !! j) as [job0|] eqn:E; [cbn in H|done].
    specialize (Hall job0 eq_refl).
    destruct (cancelled_tasks s !! j) as [[e|]|]; [| |done];
      injection H as <-; revert Hj'; unfold item_tasks_of in *; cbn;
      rewrite ?lookup_insert_eq, ?E; intros [= <-]; cbn; lia.
  - unfold process_item_enter in H.
    destruct (BATCH_JOBS s !! j) as [job0|] eqn:E; [cbn in H|done].
    destruct (waiting _); [done|]. case_decide as Hlt; [|done].
    injection H as <-. revert Hj'. unfold item_tasks_of in *. cbn.
    rewrite lookup_insert_eq, E. intros [= <-]. cbn.
    rewrite length_app. cbn. lia.
  - unfold process_item_finish in H.
    destruct (BATCH_JOBS s !! j) as [job0|] eqn:E; [cbn in H|done].
    specialize (Hall job0 eq_refl).
    destruct (sleeping _ !! k) as [it|] eqn:Ek; [cbn in H|done].
    injection H as <-. revert Hj'.
    pose proof (count_item_max_workers
                  (record_item item_error NLP_ANALYSIS now it job0)) as Hmw.
    rewrite record_item_max_workers in Hmw.
    unfold gather_exception, item_tasks_of in *. cbn -[count_item].
    destruct (count_item _) as [job1 r]; cbn in *.
    destruct r, (PROCESSING_JOBS s !! j) as [[|[]]|]; cbn;
      rewrite ?lookup_insert_eq; intros [= <-]; cbn;
      rewrite length_delete by eauto; lia.
  - unfold process_item_cancelled in H.
    destruct (BATCH_JOBS s !! j) as [job0|] eqn:E; [cbn in H|done].
    specialize (Hall job0 eq_refl).
    destruct (cancelled _ !! k) as [it|] eqn:Ek; [cbn in H|done].
    injection H as <-. revert Hj'.
    pose proof (count_item_max_workers job0) as Hmw.
    unfold cancelled_exception, item_tasks_of in *. cbn -[count_item].
    destruct (count_item _) as [job1 r]; cbn in *.
    destruct r, (cancelled_tasks s !! j) as [[]|]; cbn;
      rewrite ?lookup_insert_eq; intros [= <-]; cbn;
      rewrite length_delete by eauto; lia.
Qed.

Lemma run_semaphore_bound evs s j :
  run item_error initial evs = Some s → semaphore_bound s j.
Proof.
  assert (H : ∀ s0, invariant s0 → (∀ j, semaphore_bound s0 j) →
            run item_error s0 evs = Some s → ∀ j, semaphore_bound s j).
  { induction evs as [|ev evs IH]; intros s0 Hinv Hs Hrun; cbn in Hrun.
    - by injection Hrun as <-.
    - destruct (apply_event item_error s0 ev) as [s1|] eqn:E;
        [cbn in Hrun|done].
      eapply (IH s1); [by eapply apply_event_invariant| |done].
      by eapply apply_event_semaphore_bound. }
  intros Hrun. eapply H; [apply initial_invariant| |done].
  intros j0 job Hj. cbn in Hj. by rewrite lookup_empty in Hj.
Qed.

(** X11: in every reachable state the item tasks of a job that are inside
    the semaphore, asleep or cancelled there, are at most [max_workers]
    (none when [max_workers] is not positive), whatever the status of the
    job. *)
Theorem at_most_max_workers_items evs s j job :
  run item_error initial evs = Some s → BATCH_JOBS s !! j = Some job →
  (Z.of_nat (in_semaphore (item_tasks_of s j)) ≤ Z.max 0 (max_workers job))%Z.
Proof. intros Hrun Hj. by eapply run_semaphore_bound. Qed.

(** ** Which items a job has dealt with *)

Lemma accounts_for_keep job job' p :
  parameters job' = parameters job → results job' = results job →
  errors job' = errors job → accounts_for job p → accounts_for job' p.
Proof.
  intros Hp Hr He (items & Hi & Hperm & Hres & Hpen). exists items.
  unfold parameter_items, recorded_indices in *. rewrite Hp, Hr, He.
  by split_and!.
Qed.

Lemma accounts_for_Permutation job p p' :
  p ≡ₚ p' → accounts_for job p → accounts_for job p'.
Proof.
  intros Hpp (items & Hi & Hperm & Hres & Hpen). exists items.
  split_and!; [done|by rewrite <- Hpp|done|].
  intros it Hit. apply Hpen. by rewrite Hpp.
Qed.

Lemma accounts_for_record t now it p job :
  accounts_for job (it :: p) →
  accounts_for (record_item item_error t now it job) p.
Proof.
  intros (items & Hi & Hperm & Hres & Hpen). exists items.
  unfold record_item, parameter_items, recorded_indices in *.
  destruct (item_error t it.1 it.2) as [e|]; cbn.
  - split_and!; [done| |done|].
    + rewrite omap_app. cbn. rewrite <- Hperm. cbn.
      rewrite <- !app_assoc. cbn. by rewrite <- !Permutation_middle.
    + intros it' Hit'. apply Hpen. by right.
  - split_and!; [done| | |].
    + rewrite fmap_app. cbn. rewrite <- Hperm. cbn.
      rewrite <- !app_assoc. cbn. by rewrite <- !Permutation_middle.
    + intros r [Hr| ->%list_elem_of_singleton]%elem_of_app; [auto|].
      cbn. apply Hpen. left.
    + intros it' Hit'. apply Hpen. by right.
Qed.

Lemma accounts_for_count job p :
  accounts_for job p → accounts_for (count_item job).1 p.
Proof.
  apply accounts_for_keep; unfold count_item; by case_decide.
Qed.

Lemma accounts_for_process_items t now its p job :
  (process_items item_error t now its job).2 = None →
  accounts_for job (its ++ p) →
  accounts_for (process_items item_error t now its job).1 p.
Proof.
  revert job. induction its as [|it rest IH]; intros job; cbn; [done|].
  intros Hnone Hacc.
  apply (accounts_for_record t now) in Hacc. apply accounts_for_count in Hacc.
  destruct (count_item _) as [job1 [e|]]; [done|]. by apply IH.
Qed.

Lemma enumerate_fst {A} (l : list A) : (enumerate l).*1 = seq 0 (length l).
Proof.
  unfold enumerate. rewrite fmap_imap.
  assert (H : ∀ k, imap (λ i (x : A), ((i, x).1 : nat) + k) l
                   = seq k (length l)).
  { induction l as [|x l IH] using rev_ind; intros k; [done|].
    rewrite imap_app, length_app, seq_app, IH. cbn. do 2 f_equal. lia. }
  specialize (H 0). rewrite <- H. apply imap_ext. intros. cbn. lia.
Qed.

Lemma accounts_for_fresh job items :
  results job = [] → errors job = [] → parameter_items job = Some items →
  accounts_for job (enumerate items).
Proof.
  intros Hr He Hi. exists items. unfold recorded_indices.
  rewrite Hr, He, enumerate_fst. cbn. split_and!; try done.
  - intros r Hin. by apply elem_of_nil in Hin.
  - intros [i x] Hin. unfold enumerate in Hin.
    by apply elem_of_lookup_imap in Hin as (i' & x' & [= -> ->] & Hl).
Qed.

(** What the executor of a job without records has done when it returns,
    and what it leaves to the item tasks when it suspends. *)
Lemma run_executor_accounts now job job1 :
  results job = [] → errors job = [] →
  (run_executor item_error now job = (job1, returned) →
   accounts_for job1 []) ∧
  (∀ children,
     run_executor item_error now job = (job1, awaiting_gather children) →
     job1 = job ∧ accounts_for job children).
Proof.
  intros Hr He.
  assert (Hseq : ∀ t,
    (of_loop (process_batch item_error t now job) = (job1, returned) →
     accounts_for job1 []) ∧
    (∀ children,
       of_loop (process_batch item_error t now job)
       = (job1, awaiting_gather children) →
       job1 = job ∧ accounts_for job children)).
  { intros t. unfold of_loop, process_batch.
    destruct (parameter_items job) as [items|] eqn:Hi; cbn; [|done].
    pose proof (accounts_for_process_items t now (enumerate items) [] job)
      as Hacc.
    destruct (process_items _ _ _ _ _) as [job2 [e|]]; cbn in *; [done|].
    split; [|done]. intros [= <-]. apply Hacc; [done|].
    rewrite app_nil_r. by apply accounts_for_fresh. }
  unfold run_executor, _process_document_batch, _process_risk_batch,
    _process_regulatory_batch, _process_prediction_batch.
  destruct (job_type job); try apply Hseq; [|done].
  unfold _process_nlp_batch. case_decide; [done|].
  destruct (parameter_items job) as [[|x items]|] eqn:Hi; [| |done].
  - split; [|done]. intros [= <-]. by apply (accounts_for_fresh job []).
  - split; [done|]. intros children [= <- <-]. split; [done|].
    by apply accounts_for_fresh.
Qed.

Lemma job_ok_gathering s j job r :
  job_ok_at s j → BATCH_JOBS s !! j = Some job →
  PROCESSING_JOBS s !! j = Some (task_gathering r) →
  status job = PROCESSING ∧ j ∉ JOB_QUEUE s.
Proof.
  unfold job_ok_at. intros H E Hp. rewrite E, Hp in H. unfold job_ok in H.
  phases H; try congruence.
Qed.

Lemma job_ok_created_idle s j job :
  job_ok_at s j → BATCH_JOBS s !! j = Some job →
  PROCESSING_JOBS s !! j = Some task_created →
  (j ∉ JOB_QUEUE s) ∧ idle (item_tasks_of s j).
Proof.
  unfold job_ok_at. intros H E Hp. rewrite E, Hp in H. unfold job_ok in H.
  phases H; try congruence.
Qed.

Lemma job_ok_queued s j job :
  job_ok_at s j → BATCH_JOBS s !! j = Some job → j ∈ JOB_QUEUE s →
  PROCESSING_JOBS s !! j = None ∧ idle (item_tasks_of s j).
Proof.
  unfold job_ok_at. intros H E Hq. rewrite E in H. unfold job_ok in H.
  phases H; unfold idle; by split_and!.
Qed.

Lemma job_ok_cancelled_task s j job r :
  job_ok_at s j → BATCH_JOBS s !! j = Some job →
  cancelled_tasks s !! j = Some r →
  (j ∉ JOB_QUEUE s) ∧ PROCESSING_JOBS s !! j = None ∧ status job ≠ COMPLETED.
Proof.
  unfold job_ok_at. intros H E Hc. rewrite E, Hc in H. unfold job_ok in H.
  phases H; split_and!; congruence.
Qed.

Lemma job_ok_absent s j :
  job_ok_at s j → BATCH_JOBS s !! j = None →
  (j ∉ JOB_QUEUE s) ∧ PROCESSING_JOBS s !! j = None.
Proof.
  unfold job_ok_at. intros H E. rewrite E in H. unfold job_ok in H. tauto.
Qed.

Lemma items_accounted_frame s s' j :
  BATCH_JOBS s' !! j = BATCH_JOBS s !! j →
  item_tasks s' !! j = item_tasks s !! j →
  (j ∈ JOB_QUEUE s' → j ∈ JOB_QUEUE s) →
  (PROCESSING_JOBS s' !! j = PROCESSING_JOBS s !! j ∨
   j ∈ JOB_QUEUE s ∧ PROCESSING_JOBS s' !! j = Some task_created) →
  items_accounted s j → items_accounted s' j.
Proof.
  intros Hb Hi Hq Hp Hacc job Hj. rewrite Hb in Hj.
  destruct (Hacc job Hj) as (Hfresh & Hgather & Hdone).
  unfold item_tasks_of. rewrite Hi. split_and!; [|
  |done].
  - intros [Hin|Hc]; apply Hfresh; [by left; auto|].
    destruct Hp as [Hp|[Hin _]]; [right; congruence|by left].
  - intros r Hr. destruct Hp as [Hp|[_ Hp]]; [|congruence].
    apply (Hgather r). congruence.
Qed.

Lemma apply_event_items_accounted s ev s' :
  invariant s → apply_event item_error s ev = Some s' →
  (∀ j, items_accounted s j) → ∀ j, items_accounted s' j.
Proof.
  intros Hinv H Hall j.
  pose proof (inv_jobs _ Hinv j) as Hok. specialize (Hall j).
  destruct (decide (event_target ev = Some j)) as [Ht|Ht].
  2:{ pose proof H as Hf.
      eapply apply_event_frame in Hf as (Hb & Hi & _ & Hq & Hp); [|done].
      apply (items_accounted_frame s); try done.
      assert (Hev : ev = admission_pass ∨ ev ≠ admission_pass)
        by (destruct ev; auto).
      destruct Hev as [->|Hev]; [|left; auto].
      cbn in H. destruct (background_tasks s); [done|]. injection H as <-.
      destruct (process_queue_loop_spec (BATCH_JOBS s) (JOB_QUEUE s)
                  (PROCESSING_JOBS s)) as (popped & E & Hl & _).
      { intros j'. by apply invariant_queue_pending. }
      cbn. rewrite Hl. case_decide as Hin; [|by left]. right.
      split; [|done]. rewrite E. apply elem_of_app. by left. }
  destruct ev as [request jid now|jid now| |jid now|jid now
                  |jid now|jid|jid k now|jid k]; cbn in H, Ht;
    try injection Ht as ->; try done.
  - (* create_job *)
    destruct (BATCH_JOBS s !! j) eqn:E; [done|]. injection H as <-.
    destruct (job_ok_absent s j) as [Hq Hp]; [done..|].
    intros job'. cbn. rewrite lookup_insert_eq. intros [= <-].
    split_and!; [done| |done].
    intros r Hr. congruence.
  - (* cancel_job *)
    unfold cancel_batch_job in H.
    destruct (BATCH_JOBS s !! j) as [job0|] eqn:E;
      [|by injection H as <-].
    case_decide as Hco; [by injection H as <-|]. injection H as Hs'.
    destruct (Hall job0 E) as (Hfresh & Hgather & Hdone).
    assert (Hb : BATCH_JOBS s' !! j
                 = Some (set_completed_at (Some now)
                           (set_status CANCELLED job0))).
    { rewrite <- Hs'. cbn. by rewrite lookup_insert_eq. }
    assert (Hq : j ∈ JOB_QUEUE s' → j ∈ JOB_QUEUE s).
    { rewrite <- Hs'. repeat case_decide; cbn;
        rewrite ?task_cancel_queue; try done;
        intros Hin; by eapply elem_of_sublist, remove_first_sublist. }
    assert (Hp : PROCESSING_JOBS s' !! j = None ∨
                 status job0 ≠ PROCESSING ∧
                 PROCESSING_JOBS s' !! j = PROCESSING_JOBS s !! j).
    { rewrite <- Hs'. repeat case_decide; cbn;
        rewrite ?task_cancel_processing, ?lookup_delete_eq; auto;
        left; by apply eq_None_not_Some. }
    clear Hs'. intros job'. rewrite Hb. intros [= <-]. cbn. split_and!.
    + intros [Hin|Hc]; apply Hfresh; [by left; auto|].
      destruct Hp as [Hp|[_ Hp]]; right; congruence.
    + intros r Hr. destruct Hp as [Hp|[Hst Hp]]; [congruence|].
      rewrite Hp in Hr.
      by destruct (job_ok_gathering s j job0 r) as [? ?].
    + done.
  - (* task_start *)
    destruct (PROCESSING_JOBS s !! j) as [[|]|] eqn:Hp; try done.
    unfold _process_batch_job in H.
    destruct (BATCH_JOBS s !! j) as [job0|] eqn:E; [cbn in H|done].
    destruct (Hall job0 E) as (Hfresh & _ & _).
    destruct Hfresh as [Hr He]; [by right|].
    destruct (job_ok_created_idle s j job0) as [Hq _]; [done..|].
    set (started := set_started_at (Some now) (set_status PROCESSING job0))
      in *.
    pose proof (λ job1, run_executor_accounts now started job1 Hr He)
      as Hex.
    destruct (run_executor _ _ _) as [job1 [|e|children]] eqn:Hrun;
      injection H as <-; intros job'; cbn;
      rewrite ?lookup_insert_eq, ?lookup_delete_eq; intros [= <-];
      unfold item_tasks_of; cbn; rewrite ?lookup_insert_eq; cbn;
      (split_and!; [by intros [?|?]| |]); try done.
    + intros _. destruct (Hex job1) as [Hret _].
      eapply accounts_for_keep; [..|by apply Hret]; done.
    + intros r _. destruct (Hex job1) as [_ Hch].
      destruct (Hch children eq_refl) as [-> Hacc].
      rewrite app_nil_r.
      eapply accounts_for_keep; [..|exact Hacc]; done.
    + destruct (Hex job1) as [_ Hch].
      destruct (Hch children eq_refl) as [-> Hacc]. done.
  - (* task_resume *)
    unfold _process_batch_job_resume in H.
    destruct (BATCH_JOBS s !! j) as [job0|] eqn:E; [cbn in H|done].
    destruct (Hall job0 E) as (_ & Hgather & _).
    destruct (PROCESSING_JOBS s !! j) as [[|r]|] eqn:Hp; try done.
    destruct (job_ok_gathering s j job0 r) as [_ Hq]; [done..|].
    specialize (Hgather r eq_refl).
    destruct r as [e|];
      [|destruct (waiting _); [|done];
        destruct (sleeping (item_tasks_of s j)); [|done]];
      injection H as <-; intros job'; cbn;
      rewrite ?lookup_insert_eq, ?lookup_delete_eq; intros [= <-];
      (split_and!; [by intros [?|?]|done|]); [done|].
    intros _. eapply accounts_for_keep; [..|exact Hgather]; done.
  - (* cancelled_task_end *)
    unfold _process_batch_job_cancelled in H.
    destruct (BATCH_JOBS s !! j) as [job0|] eqn:E; [cbn in H|done].
    destruct (cancelled_tasks s !! j) as [r|] eqn:Hc; [cbn in H|done].
    destruct (job_ok_cancelled_task s j job0 r) as (Hq & Hp & Hst);
      [done..|].
    destruct r as [e|]; injection H as <-; intros job'; cbn;
      rewrite ?lookup_insert_eq, ?lookup_delete_eq, ?E; intros [= <-];
      (split_and!; [by intros [?|?]|done|]); done.
  - (* item_enter *)
    unfold process_item_enter in H.
    destruct (BATCH_JOBS s !! j) as [job0|] eqn:E; [cbn in H|done].
    destruct (Hall job0 E) as (Hfresh & Hgather & Hdone).
    destruct (waiting (item_tasks_of s j)) as [|it rest] eqn:Ew; [done|].
    case_decide; [|done]. injection H as <-. intros job'. cbn.
    rewrite E. intros [= <-]. unfold item_tasks_of. cbn.
    rewrite lookup_insert_eq. cbn. split_and!; [done| |done].
    intros r Hr. eapply accounts_for_Permutation; [|by apply (Hgather r)].
    fold (item_tasks_of s j). cbn. rewrite (assoc (++)).
    by rewrite <- Permutation_middle, app_nil_r.
  - (* item_finish *)
    unfold process_item_finish in H.
    destruct (BATCH_JOBS s !! j) as [job0|] eqn:E; [cbn in H|done].
    destruct (Hall job0 E) as (Hfresh & Hgather & Hdone).
    destruct (sleeping (item_tasks_of s j) !! k) as [it|] eqn:Ek;
      [cbn in H|done].
    assert (Hst : status (count_item (record_item item_error NLP_ANALYSIS
                                        now it job0)).1 = status job0).
    { unfold count_item, record_item.
      case_decide; destruct (item_error _ _ _); done. }
    assert (Hpj : ∀ t,
      PROCESSING_JOBS s' !! j = Some t →
      ∃ t0, PROCESSING_JOBS s !! j = Some t0 ∧
            (t = task_created → t0 = task_created) ∧
            (∀ r, t = task_gathering r → ∃ r0, t0 = task_gathering r0)).
    { injection H as <-. unfold gather_exception. cbn -[count_item].
      destruct (count_item _).2,
        (PROCESSING_JOBS s !! j) as [[|[]]|] eqn:Ep;
        cbn; rewrite ?lookup_insert_eq, ?Ep; intros t [= <-];
        (eexists; split_and!; [done|done|intros ? ?; try done; eauto]). }
    assert (Hq : JOB_QUEUE s' = JOB_QUEUE s).
    { injection H as <-. unfold gather_exception. cbn -[count_item].
      by destruct (count_item _).2, (PROCESSING_JOBS s !! j) as [[|[]]|]. }
    assert (Hb : BATCH_JOBS s' !! j
                 = Some (count_item (record_item item_error NLP_ANALYSIS
                                       now it job0)).1).
    { injection H as <-. unfold gather_exception. cbn -[count_item].
      destruct (count_item _).2, (PROCESSING_JOBS s !! j) as [[|[]]|];
        cbn -[count_item]; by rewrite lookup_insert_eq. }
    assert (Hi : item_tasks_of s' j
                 = {| waiting := waiting (item_tasks_of s j);
                      sleeping := delete k (sleeping (item_tasks_of s j));
                      cancelled := cancelled (item_tasks_of s j) |}).
    { injection H as <-. unfold gather_exception. cbn -[count_item].
      destruct (count_item _).2, (PROCESSING_JOBS s !! j) as [[|[]]|];
        unfold item_tasks_of; cbn -[count_item];
        by rewrite lookup_insert_eq. }
    intros job'. rewrite Hb, Hq, Hi. intros [= <-]. cbn -[count_item].
    split_and!.
    + intros Hfr. exfalso.
      assert (Hidle : idle (item_tasks_of s j)).
      { destruct Hfr as [Hin|Hc].
        - by destruct (job_ok_queued s j job0).
        - destruct (Hpj _ Hc) as (t0 & Ht0 & Hcr & _).
          rewrite (Hcr eq_refl) in Ht0.
          by destruct (job_ok_created_idle s j job0). }
      destruct Hidle as (_ & Hs & _). by rewrite Hs in Ek.
    + intros r Hr. destruct (Hpj _ Hr) as (t0 & Ht0 & _ & Hg).
      destruct (Hg r eq_refl) as [r0 ->].
      apply accounts_for_count, accounts_for_record.
      eapply accounts_for_Permutation; [|by apply (Hgather r0)].
      rewrite (delete_Permutation (sleeping (item_tasks_of s j)) k it)
        at 1 by done.
      by rewrite <- Permutation_middle.
    + rewrite Hst. intros Hco. exfalso.
      destruct (job_ok_completed s j job0) as (_ & (_ & Hs & _) & _);
        [done..|]. by rewrite Hs in Ek.
  - (* item_cancelled *)
    unfold process_item_cancelled in H.
    destruct (BATCH_JOBS s !! j) as [job0|] eqn:E; [cbn in H|done].
    destruct (Hall job0 E) as (Hfresh & Hgather & Hdone).
    destruct (cancelled (item_tasks_of s j) !! k) as [it|] eqn:Ek;
      [cbn in H|done].
    assert (Hkeep : ∀ p, accounts_for job0 p →
                         accounts_for (count_item job0).1 p)
      by (intros p; apply accounts_for_count).
    assert (Hrec : results (count_item job0).1 = results job0 ∧
                   errors (count_item job0).1 = errors job0 ∧
                   status (count_item job0).1 = status job0).
    { unfold count_item. by case_decide. }
    destruct Hrec as (Hr & He & Hst).
    injection H as <-. unfold cancelled_exception. cbn -[count_item].
    intros job'.
    destruct (count_item job0).2, (cancelled_tasks s !! j) as [[]|];
      unfold item_tasks_of; cbn -[count_item];
      rewrite !lookup_insert_eq; intros [= <-]; cbn -[count_item];
      rewrite Hr, He, Hst; (split_and!; [done| |by auto]);
      intros r Hp; apply Hkeep, (Hgather r Hp).
Qed.
Lemma run_items_accounted evs s j :
  run item_error initial evs = Some s → items_accounted s j.
Proof.
  assert (H : ∀ s0, invariant s0 → (∀ j, items_accounted s0 j) →
            run item_error s0 evs = Some s → ∀ j, items_accounted s j).
  { induction evs as [|ev evs IH]; intros s0 Hinv Hs Hrun; cbn in Hrun.
    - by injection Hrun as <-.
    - destruct (apply_event item_error s0 ev) as [s1|] eqn:E;
        [cbn in Hrun|done].
      eapply (IH s1); [by eapply apply_event_invariant| |done].
      by eapply apply_event_items_accounted. }
  intros Hrun. eapply H; [apply initial_invariant| |done].
  intros j0 job Hj. cbn in Hj. by rewrite lookup_empty in Hj.
Qed.

Lemma run_entries_counted evs s j job :
  run item_error initial evs = Some s → BATCH_JOBS s !! j = Some job →
  length (results job) = successful_items job ∧
  length (omap error_index (errors job)) = failed_items job.
Proof.
  apply run_job_property with
    (P := λ _ job, length (results job) = successful_items job ∧
                   length (omap error_index (errors job))
                   = failed_items job); [done|].
  intros _ job0 job' Hm [Hr He].
  destruct Hm; cbn; rewrite ?length_app, ?omap_app, ?length_app; cbn;
    split; lia.
Qed.

(** X12: a completed job has dealt with every item under [parameters]
    exactly once: [processed_items] is their number, the indices recorded
    in [results] and in the item-level entries of [errors] are the indices
    of the items, none twice, and each result carries the item of its
    index. *)
Theorem completed_job_covers_items evs s j job :
  run item_error initial evs = Some s → BATCH_JOBS s !! j = Some job →
  status job = COMPLETED →
  ∃ items,
    parameter_items job = Some items ∧
    processed_items job = length items ∧
    recorded_indices job ≡ₚ seq 0 (length items) ∧
    ∀ r, r ∈ results job → items !! res_index r = Some (res_input r).
Proof.
  intros Hrun Hj Hst.
  pose proof Hrun as Hacc. apply (run_items_accounted _ _ j) in Hacc.
  destruct (Hacc job Hj) as (_ & _ & Hdone).
  destruct (Hdone Hst) as (items & Hi & Hperm & Hres & _).
  rewrite app_nil_r in Hperm.
  exists items. split_and!; try done.
  pose proof Hrun as Hcnt. eapply run_entries_counted in Hcnt as [Hr He];
    [|done].
  pose proof Hrun as Hinv. apply reachable_invariant in Hinv.
  pose proof (inv_jobs _ Hinv j) as Hok. unfold job_ok_at in Hok.
  rewrite Hj in Hok. unfold job_ok in Hok.
  assert (Heq : counters_eq job) by (phases Hok; congruence).
  apply Permutation_length in Hperm. unfold recorded_indices in Hperm.
  rewrite length_app, length_fmap, length_seq in Hperm.
  unfold counters_eq in Heq. lia.
Qed.

(** X13: while the task of an NLP job waits for its item tasks, every item
    under [parameters] is recorded in [results] or [errors], or its task
    waits for the semaphore, or its task is inside it, and exactly one of
    the three. *)
Theorem running_job_accounts_for_items evs s j job r :
  run item_error initial evs = Some s → BATCH_JOBS s !! j = Some job →
  PROCESSING_JOBS s !! j = Some (task_gathering r) →
  ∃ items,
    parameter_items job = Some items ∧
    recorded_indices job
    ++ (waiting (item_tasks_of s j)).*1
    ++ (sleeping (item_tasks_of s j)).*1 ≡ₚ seq 0 (length items) ∧
    (∀ it, it ∈ waiting (item_tasks_of s j) ++ sleeping (item_tasks_of s j) →
       items !! it.1 = Some it.2).
Proof.
  intros Hrun Hj Hp.
  pose proof Hrun as Hacc. apply (run_items_accounted _ _ j) in Hacc.
  destruct (Hacc job Hj) as (_ & Hgather & _).
  destruct (Hgather r Hp) as (items & Hi & Hperm & _ & Hpen).
  exists items. rewrite fmap_app in Hperm. by split_and!.
Qed.

(** ** How many jobs a pass starts *)

Lemma process_queue_loop_count jobs q pj :
  (∀ j, j ∈ q → ∃ job, jobs !! j = Some job ∧ status job = PENDING) →
  NoDup q → (∀ j, j ∈ q → pj !! j = None) →
  let k := length q `min` (3 - size pj) in
  (process_queue_loop jobs q pj).1 = drop k q ∧
  size (process_queue_loop jobs q pj).2 = size pj + k.
Proof.
  revert pj. induction q as [|j0 q IH]; intros pj Hq Hnd Hpj;
    cbn [process_queue_loop length]; cbn zeta.
  - cbn. split; [done|lia].
  - apply NoDup_cons in Hnd as [Hj0 Hnd]. case_decide as Hlt.
    + destruct (Hq j0) as (job & -> & Hst); [by left|].
      rewrite decide_True by done.
      destruct (IH (<[j0:=task_created]> pj)) as [E1 E2].
      { intros j Hj. apply Hq. by right. }
      { done. }
      { intros j Hj. rewrite lookup_insert_ne by (by intros ->).
        apply Hpj. by right. }
      rewrite map_size_insert_None in E1, E2 by (apply Hpj; left).
      replace (S (length q) `min` (3 - size pj))
        with (S (length q `min` (3 - S (size pj)))) by lia.
      split; [exact E1|lia].
    + replace (S (length q) `min` (3 - size pj)) with 0 by lia.
      split; [done|cbn; lia].
Qed.

(** X14: an admission pass in a reachable state starts as many queued
    jobs as there are free slots among the three, or all of them when
    they are fewer, taking them from the front of the queue; after it the
    queue is empty or the three slots are taken. *)
Theorem admission_pass_fills_free_slots evs s :
  run item_error initial evs = Some s →
  let s' := _process_job_queue s in
  JOB_QUEUE s' = drop (free_slots_taken s) (JOB_QUEUE s) ∧
  size (PROCESSING_JOBS s')
  = size (PROCESSING_JOBS s) + free_slots_taken s ∧
  (∀ j, PROCESSING_JOBS s' !! j
        = if decide (j ∈ take (free_slots_taken s) (JOB_QUEUE s))
          then Some task_created else PROCESSING_JOBS s !! j) ∧
  (JOB_QUEUE s' = [] ∨ size (PROCESSING_JOBS s') = 3).
Proof.
  intros Hrun. pose proof Hrun as Hinv. apply reachable_invariant in Hinv.
  assert (Hq : ∀ j, j ∈ JOB_QUEUE s →
            ∃ job, BATCH_JOBS s !! j = Some job ∧ status job = PENDING).
  { intros j. by apply invariant_queue_pending. }
  destruct (process_queue_loop_count (BATCH_JOBS s) (JOB_QUEUE s)
              (PROCESSING_JOBS s)) as [E1 E2]; [done|by destruct Hinv| |].
  { intros j Hj. destruct (Hq j Hj) as (job & Ej & _).
    pose proof (inv_jobs _ Hinv j) as Hok. unfold job_ok_at in Hok.
    rewrite Ej in Hok. unfold job_ok in Hok. by phases Hok. }
  destruct (process_queue_loop_spec (BATCH_JOBS s) (JOB_QUEUE s)
              (PROCESSING_JOBS s)) as (popped & E & Hl & _); [done|].
  fold (free_slots_taken s) in E1, E2. cbn.
  assert (Hpop : popped = take (free_slots_taken s) (JOB_QUEUE s)).
  { rewrite E1 in E.
    rewrite <- (take_drop (free_slots_taken s) (JOB_QUEUE s)) in E at 1.
    by apply app_inv_tail in E. }
  split_and!; [done|done|by rewrite <- Hpop|].
  rewrite E1, E2. pose proof (inv_processing_size _ Hinv) as Hsz.
  unfold free_slots_taken.
  destruct (decide (length (JOB_QUEUE s) ≤ 3 - size (PROCESSING_JOBS s))).
  - left. apply drop_ge. lia.
  - right. lia.
Qed.

(** ** Listing the jobs *)

Lemma insert_newest_Permutation x l : insert_newest x l ≡ₚ x :: l.
Proof.
  induction l as [|y l IH]; cbn; [done|].
  destruct (Qlt_le_dec _ _); [|done]. rewrite IH. apply Permutation_swap.
Qed.

Lemma sort_newest_Permutation l : sort_newest l ≡ₚ l.
Proof.
  induction l as [|x l IH]; cbn; [done|].
  by rewrite insert_newest_Permutation, IH.
Qed.

Lemma insert_newest_sorted x l :
  newest_first l → newest_first (insert_newest x l).
Proof.
  unfold newest_first. induction l as [|y l IH]; intros Hs; cbn.
  - repeat constructor.
  - apply StronglySorted_cons in Hs as [Hall Hs].
    destruct (Qlt_le_dec _ _) as [Hlt|Hle].
    + apply StronglySorted_cons. split; [|auto].
      apply Forall_forall. intros z.
      rewrite insert_newest_Permutation. intros [->|Hz]%elem_of_cons.
      * by apply Qlt_le_weak.
      * rewrite Forall_forall in Hall. auto.
    + apply StronglySorted_cons. split.
      * apply Forall_cons. split; [done|].
        eapply Forall_impl; [exact Hall|]. cbn. intros z Hz.
        by eapply Qle_trans.
      * by apply StronglySorted_cons.
Qed.

Lemma sort_newest_sorted l : newest_first (sort_newest l).
Proof.
  induction l as [|x l IH]; cbn; [constructor|].
  by apply insert_newest_sorted.
Qed.

Lemma py_slice_sublist {A} (l : list A) a b : py_slice l a b `sublist_of` l.
Proof.
  unfold py_slice. etrans; [apply sublist_take|apply sublist_drop].
Qed.

Lemma filters_pass values st ty :
  match ty return list BatchJob with
  | Some t =>
      filter (λ job, job_type job = t)
        match st return list BatchJob with
        | Some st => filter (λ job, status job = st) values
        | None => values
        end
  | None =>
      match st return list BatchJob with
      | Some st => filter (λ job, status job = st) values
      | None => values
      end
  end = filter (passes st ty) values.
Proof.
  clear item_error. unfold passes. destruct st as [st|], ty as [t|];
    rewrite ?list_filter_filter;
    [apply list_filter_iff; intros job; cbn; tauto..|].
  symmetry. induction values as [|x l IH]; [done|].
  rewrite filter_cons_True by done. by f_equal.
Qed.

(** X15: [list_batch_jobs] reports as [total_jobs] the number of records
    that pass the given filters; the jobs of the page are records that
    pass them, none listed more often than it is stored, newest first;
    and a page from offset 0 whose [limit] is not below [total_jobs] holds
    all of them, with [has_more] not set. *)
Theorem listed_jobs_pass_filters_newest_first s values st ty limit offset :
  values ≡ₚ stored_jobs s →
  let r := list_batch_jobs values st ty limit offset in
  jp_total_jobs r = length (filter (passes st ty) (stored_jobs s)) ∧
  (∃ l, l ≡ₚ filter (passes st ty) (stored_jobs s) ∧
        jp_jobs r `sublist_of` l) ∧
  (∀ job, job ∈ jp_jobs r →
     passes st ty job ∧ ∃ j, BATCH_JOBS s !! j = Some job) ∧
  newest_first (jp_jobs r) ∧
  (offset = 0%Z → (Z.of_nat (jp_total_jobs r) ≤ limit)%Z →
   jp_jobs r ≡ₚ filter (passes st ty) (stored_jobs s) ∧
   jp_has_more r = false).
Proof.
  intros Hv. unfold list_batch_jobs. cbn zeta. rewrite filters_pass. cbn.
  set (matching := filter (passes st ty) values).
  assert (Hm : sort_newest matching ≡ₚ filter (passes st ty) (stored_jobs s)).
  { rewrite sort_newest_Permutation. unfold matching. by rewrite Hv. }
  split_and!.
  - by rewrite Hm.
  - exists (sort_newest matching). split; [done|apply py_slice_sublist].
  - intros job Hin.
    eapply elem_of_sublist in Hin; [|apply py_slice_sublist].
    rewrite Hm in Hin. apply list_elem_of_filter in Hin as [Hp Hin].
    split; [done|]. unfold stored_jobs in Hin.
    apply list_elem_of_fmap in Hin as ([j job'] & -> & Hin).
    exists j. by apply elem_of_map_to_list in Hin.
  - eapply StronglySorted_sublist; [apply py_slice_sublist|].
    apply sort_newest_sorted.
  - intros -> Hl. split.
    + rewrite <- Hm. replace (0 + limit)%Z with limit by lia.
      unfold py_slice, slice_index. rewrite decide_False by lia.
      rewrite decide_False by lia. cbn. rewrite Nat.min_r by lia.
      rewrite Nat.sub_0_r. by rewrite take_ge by done.
    + apply bool_decide_eq_false. lia.
Qed.

(** ** Submission of a file *)

(** X16: [create_job_from_file] never answers with status 400: a file
    whose name ends neither in [.json] nor in [.csv] is answered with 500,
    like every other failure.  When it succeeds, the state is that of
    [create_batch_job] for a request with the parsed items, priority 5 and
    5 workers, and a description that is not empty; the new job is pending
    and queued. *)
Theorem upload_answers_500_or_creates decode_utf8 json_loads read_csv_records
    validate_items validate_parameters filename content job_type name
    description parameters jid now s :
  let answer :=
    create_job_from_file decode_utf8 json_loads read_csv_records
      validate_items validate_parameters filename content job_type name
      description parameters jid now s in
  (∀ fname,
     filename = Some fname → endswith fname ".json" = false →
     endswith fname ".csv" = false →
     upload_request decode_utf8 json_loads read_csv_records validate_items
       validate_parameters filename content job_type name description
       parameters = inl unsupported_file_format ∧
     answer = inl 500) ∧
  (∀ code, answer = inl code → code = 500) ∧
  (∀ s', answer = inr s' →
     ∃ request job,
       s' = create_batch_job request jid now s ∧
       req_job_type request = job_type ∧ req_name request = name ∧
       req_priority request = 5%Z ∧ req_max_workers request = 5%Z ∧
       (∃ d, req_description request = Some d ∧ d ≠ "") ∧
       BATCH_JOBS s' !! jid = Some job ∧ job = new_job request jid now ∧
       status job = PENDING ∧
       total_items job = length (req_items request) ∧
       jid ∈ JOB_QUEUE s').
Proof.
  clear item_error. cbn zeta. unfold create_job_from_file. split_and!.
  - intros fname -> Hj Hc. unfold upload_request. by rewrite Hj, Hc.
  - intros code. destruct (upload_request _ _ _ _ _ _ _ _ _ _ _); congruence.
  - intros s'.
    destruct (upload_request _ _ _ _ _ _ _ _ _ _ _) as [|request] eqn:E;
      [done|].
    intros [= <-]. exists request, (new_job request jid now).
    unfold upload_request in E. destruct filename as [fname|]; [|done].
    assert (Hreq : req_job_type request = job_type ∧
                   req_name request = name ∧
                   req_priority request = 5%Z ∧
                   req_max_workers request = 5%Z ∧
                   ∃ d, req_description request = Some d ∧ d ≠ "").
    { cbn zeta in E.
      destruct (if endswith fname ".json" then _ else _) as [|items];
        [done|].
      destruct (validate_items items); [|done].
      destruct (validate_parameters _); [|done].
      injection E as <-. cbn. split_and!; try done.
      eexists. split; [done|].
      destruct description as [[|c d]|]; cbn; done. }
    destruct Hreq as (? & ? & ? & ? & ?).
    split_and!; try done.
    + cbn. apply lookup_insert_eq.
    + cbn. rewrite sort_desc_Permutation. apply elem_of_app. right. left.
Qed.

(** ** Cancellation of a running job *)

Lemma apply_event_gather_raised s ev s' :
  invariant s → apply_event item_error s ev = Some s' →
  (∀ j, gather_raised s j) → ∀ j, gather_raised s' j.
Proof.
  intros Hinv H Hall j job' e Hj' Hp'.
  assert (Hpre : BATCH_JOBS s !! j = None ∨
                 ∃ job, BATCH_JOBS s !! j = Some job ∧
                        total_items job' = total_items job).
  { destruct (BATCH_JOBS s !! j) as [job|] eqn:E; [right|by left].
    exists job. split; [done|].
    eapply apply_event_history in E as (job1 & Hj1 & Hh); [|done].
    apply job_history_same_submission in Hh. unfold same_submission in Hh.
    assert (job1 = job') by congruence. subst. tauto. }
  destruct Hpre as [Hnone|(job & Hj & Ht)].
  { eapply apply_event_new_job in Hnone as (request & now & Hev & Hjob);
      [|done..].
    subst ev job'. cbn in H. destruct (BATCH_JOBS s !! j) eqn:E; [done|].
    injection H as <-. cbn in Hp'.
    destruct (job_ok_absent s j) as [_ Hp]; [by apply inv_jobs|done|].
    congruence. }
  rewrite Ht.
  assert (Hcase :
    (∃ e0, PROCESSING_JOBS s !! j = Some (task_gathering (Some e0))) ∨
    (∀ e0, PROCESSING_JOBS s !! j ≠ Some (task_gathering (Some e0)))).
  { destruct (PROCESSING_JOBS s !! j) as [[|[e0|]]|]; eauto; right;
      by intros. }
  destruct Hcase as [[e0 Hp]|Hp]; [by eapply Hall|].
  destruct (decide (total_items job = 0)) as [|Hnz]; [done|]. exfalso.
  destruct (decide (event_target ev = Some j)) as [Hev|Hev].
  2:{ pose proof H as Hf.
      eapply apply_event_frame in Hf as (_ & _ & _ & _ & Hpf); [|done].
      assert (Hadm : ev = admission_pass ∨ ev ≠ admission_pass)
        by (destruct ev; auto).
      destruct Hadm as [->|Hadm];
        [|rewrite Hpf in Hp' by done; by eapply Hp].
      cbn in H. destruct (background_tasks s); [done|]. injection H as <-.
      destruct (process_queue_loop_spec (BATCH_JOBS s) (JOB_QUEUE s)
                  (PROCESSING_JOBS s)) as (popped & _ & Hl & _).
      { intros j'. by apply invariant_queue_pending. }
      cbn in Hp'. rewrite Hl in Hp'. case_decide; [done|by eapply Hp]. }
  destruct ev as [request jid now|jid now| |jid now|jid now
                  |jid now|jid|jid k now|jid k]; cbn in H, Hev;
    try injection Hev as ->; try done.
  - by rewrite Hj in H.
  - unfold cancel_batch_job in H. rewrite Hj in H.
    case_decide; [injection H as <-; by eapply Hp|]. injection H as <-.
    revert Hp'. repeat case_decide; cbn;
      rewrite ?task_cancel_processing, ?lookup_delete_eq; try done;
      intros Hp'; by eapply Hp.
  - destruct (PROCESSING_JOBS s !! j) as [[|]|] eqn:E; try done.
    unfold _process_batch_job in H. rewrite Hj in H. cbn in H.
    destruct (run_executor _ _ _) as [job1 [|e1|children]];
      injection H as <-; revert Hp'; cbn;
      rewrite ?lookup_delete_eq, ?lookup_insert_eq; done.
  - unfold _process_batch_job_resume in H. rewrite Hj in H. cbn in H.
    destruct (PROCESSING_JOBS s !! j) as [[|[e1|]]|]; try done;
      [|destruct (waiting _); [|done]; destruct (sleeping _); [|done]];
      injection H as <-; revert Hp'; cbn; by rewrite lookup_delete_eq.
  - unfold _process_batch_job_cancelled in H. rewrite Hj in H. cbn in H.
    destruct (cancelled_tasks s !! j) as [[e1|]|]; [| |done];
      injection H as <-; revert Hp'; cbn; rewrite lookup_delete_eq; done.
  - unfold process_item_enter in H. rewrite Hj in H. cbn in H.
    destruct (waiting _); [done|]. case_decide; [|done].
    injection H as <-. by eapply Hp.
  - unfold process_item_finish in H. rewrite Hj in H. cbn in H.
    destruct (sleeping _ !! k) as [it|]; [cbn in H|done].
    injection H as <-. revert Hj' Hp'.
    unfold gather_exception, count_item. cbn.
    assert (Hrec : total_items (record_item item_error NLP_ANALYSIS now it
                                  job) = total_items job).
    { unfold record_item. by destruct (item_error _ _ _). }
    rewrite Hrec. case_decide as Hz; cbn.
    + destruct (PROCESSING_JOBS s !! j) as [[|[]]|] eqn:E; cbn;
        rewrite ?lookup_insert_eq, ?E; intros Hj' Hp'; try done;
        try (by eapply Hp).
    + intros _ Hp'. by eapply Hp.
  - unfold process_item_cancelled in H. rewrite Hj in H. cbn in H.
    destruct (cancelled _ !! k) as [it|]; [cbn in H|done].
    injection H as <-. revert Hp'. unfold cancelled_exception.
    cbn -[count_item].
    destruct (count_item job).2, (cancelled_tasks s !! j) as [[]|];
      cbn; intros Hp'; by eapply Hp.
Qed.

Lemma run_gather_raised evs s j :
  run item_error initial evs = Some s → gather_raised s j.
Proof.
  assert (H : ∀ s0, invariant s0 → (∀ j, gather_raised s0 j) →
            run item_error s0 evs = Some s → ∀ j, gather_raised s j).
  { induction evs as [|ev evs IH]; intros s0 Hinv Hs Hrun; cbn in Hrun.
    - by injection Hrun as <-.
    - destruct (apply_event item_error s0 ev) as [s1|] eqn:E;
        [cbn in Hrun|done].
      eapply (IH s1); [by eapply apply_event_invariant| |done].
      by eapply apply_event_gather_raised. }
  intros Hrun. eapply H; [apply initial_invariant| |done].
  intros j0 job e Hj. cbn in Hj. by rewrite lookup_empty in Hj.
Qed.
Lemma apply_event_stopped s ev s' j job m :
  invariant s → apply_event item_error s ev = Some s' →
  total_items job ≠ 0 → stopped s j job m → stopped s' j job m.
Proof.
  intros Hinv H Hnz (Hjob & Hq & Hp & Hw & Hs & Hc).
  destruct Hjob as (job1 & Hj & Hst & Hr & He & Hsu & Hf & Ht & Hge & Hpr).
  destruct (decide (event_target ev = Some j)) as [Hev|Hev].
  2:{ pose proof H as H'.
      eapply apply_event_frame in H' as (Hj' & Hi' & Hc' & Hq' & Hp');
        [|done].
      unfold stopped, item_tasks_of in *. rewrite Hj', Hi', Hc'.
      split_and!; eauto 10.
      assert (Hadm : ev = admission_pass ∨ ev ≠ admission_pass)
        by (destruct ev; auto).
      destruct Hadm as [->|Hadm]; [|by rewrite Hp'].
      cbn in H. destruct (background_tasks s) as [|n]; [done|].
      injection H as <-.
      rewrite _process_job_queue_frame; [done| |done]. by destruct Hinv. }
  destruct ev as [request jid now|jid now| |jid now|jid now
                  |jid now|jid|jid k now|jid k]; cbn in H, Hev;
    try injection Hev as ->; try done.
  - by rewrite Hj in H.
  - unfold cancel_batch_job in H. rewrite Hj in H.
    rewrite (decide_False (P := status job1 = COMPLETED)) in H
      by congruence.
    rewrite (decide_False (P := status job1 = PROCESSING)) in H
      by congruence.
    rewrite decide_False in H by done. injection H as <-.
    unfold stopped, item_tasks_of in *. cbn. rewrite lookup_insert_eq.
    split_and!; try done. eexists. split; [done|]. by split_and!.
  - by rewrite Hp in H.
  - unfold _process_batch_job_resume in H. rewrite Hj, Hp in H. done.
  - unfold _process_batch_job_cancelled in H. rewrite Hj in H. cbn in H.
    destruct Hc as [Hc|Hc]; rewrite Hc in H; [done|]. cbn in H.
    injection H as <-. unfold stopped, item_tasks_of in *. cbn.
    rewrite !lookup_delete_eq. split_and!; eauto 10.
  - unfold process_item_enter in H. rewrite Hj in H. cbn in H.
    by rewrite Hw in H.
  - unfold process_item_finish in H. rewrite Hj in H. cbn in H.
    by rewrite Hs in H.
  - unfold process_item_cancelled in H. rewrite Hj in H. cbn in H.
    destruct (cancelled (item_tasks_of s j) !! k) as [it|] eqn:Ek;
      [cbn in H|done].
    injection H as <-. unfold count_item. cbn.
    rewrite decide_False by congruence. cbn.
    assert (Hlen : length (delete k (cancelled (item_tasks_of s j)))
                   = length (cancelled (item_tasks_of s j)) - 1)
      by (apply length_delete; eauto).
    assert (Hpos : length (cancelled (item_tasks_of s j)) ≠ 0).
    { intros Hz. destruct (cancelled (item_tasks_of s j)); done. }
    unfold stopped, item_tasks_of in *. cbn. rewrite !lookup_insert_eq.
    cbn. split_and!; try done.
    eexists. split; [done|]. cbn. split_and!; try done; lia.
Qed.

(** X17: cancelling a job that is running and has [total_items ≠ 0] is
    final.  In every later state the job is cancelled, has no task and is
    not queued, and [results], [errors] and the counts of successes and
    failures are as they were when it was cancelled; only
    [processed_items] still grows, by at most the number of items that
    were inside the semaphore at that time. *)
Theorem cancelled_while_running_stays_cancelled evs s j job now evs' s' :
  run item_error initial evs = Some s →
  BATCH_JOBS s !! j = Some job → status job = PROCESSING →
  total_items job ≠ 0 →
  run item_error s (cancel_job j now :: evs') = Some s' →
  ∃ job',
    BATCH_JOBS s' !! j = Some job' ∧ status job' = CANCELLED ∧
    results job' = results job ∧ errors job' = errors job ∧
    successful_items job' = successful_items job ∧
    failed_items job' = failed_items job ∧
    processed_items job ≤ processed_items job' ∧
    processed_items job'
    ≤ processed_items job + length (sleeping (item_tasks_of s j)) ∧
    PROCESSING_JOBS s' !! j = None ∧ (j ∉ JOB_QUEUE s').
Proof.
  intros Hrun Hj Hst Hnz H. apply reachable_invariant in Hrun as Hinv.
  destruct (job_ok_processing s j job) as [r Hp]; [by apply inv_jobs|done..|].
  assert (r = None) as ->.
  { destruct r as [e|]; [|done]. exfalso. apply Hnz.
    pose proof Hrun as Hg. apply (run_gather_raised _ _ j) in Hg.
    by eapply Hg. }
  destruct (job_ok_gathering s j job None) as [_ Hq];
    [by apply inv_jobs|done..|].
  assert (Hcan : cancelled (item_tasks_of s j) = []).
  { pose proof (inv_jobs _ Hinv j) as Hok. unfold job_ok_at in Hok.
    rewrite Hj, Hp in Hok. unfold job_ok in Hok.
    phases Hok; congruence. }
  cbn in H.
  destruct (cancel_batch_job j now s) as [e|s1] eqn:E.
  { unfold cancel_batch_job in E. rewrite Hj in E.
    rewrite decide_False in E by congruence. done. }
  cbn in H.
  assert (Hinv1 : invariant s1) by by eapply cancel_batch_job_invariant.
  assert (Hw : stopped s1 j job (length (sleeping (item_tasks_of s j)))).
  { unfold cancel_batch_job in E. rewrite Hj in E.
    rewrite (decide_False (P := status job = COMPLETED)) in E by congruence.
    rewrite (decide_True (P := status job = PROCESSING)) in E by done.
    rewrite (decide_True (P := is_Some (PROCESSING_JOBS s !! j))) in E
      by (rewrite Hp; by eexists).
    cbn in E. rewrite task_cancel_queue in E.
    rewrite decide_False in E by done. injection E as <-.
    unfold task_cancel. rewrite Hp.
    unfold stopped, item_tasks_of in *. cbn.
    rewrite !lookup_insert_eq, lookup_delete_eq. cbn.
    split_and!; try done; [|by right].
    eexists. split; [done|]. cbn. rewrite Hcan. cbn. by split_and!. }
  clear E Hinv Hp Hq Hcan Hrun. revert s1 H Hinv1 Hw.
  generalize (length (sleeping (item_tasks_of s j))). intros m.
  induction evs' as [|ev evs' IH]; intros s1 H Hinv1 Hw; cbn in H.
  - injection H as <-.
    destruct Hw
      as ((job' & Hj' & ? & ? & ? & ? & ? & ? & ? & Hpr) & ? & ? & _).
    exists job'. split_and!; try done; lia.
  - destruct (apply_event item_error s1 ev) as [s2|] eqn:E; [cbn in H|done].
    eapply (IH s2); [done|by eapply apply_event_invariant|].
    by eapply apply_event_stopped.
Qed.

(** ** The items a job can count *)








(** ** The order in which jobs start *)

Lemma run_fifo_run s ready evs s' ready' :
  run_fifo item_error s ready evs = Some (s', ready') →
  run item_error s evs = Some s'.
Proof.
  revert s ready. induction evs as [|ev evs IH]; intros s ready H; cbn in *.
  - by injection H as <- <-.
  - destruct (apply_event item_error s ev) as [s1|]; [cbn in *|done].
    destruct (ready_step s ready ev) as [ready1|]; [cbn in H|done].
    by eapply IH.
Qed.

Lemma tasks_created_spec jobs q pj :
  (∀ j, j ∈ q → ∃ job, jobs !! j = Some job ∧ status job = PENDING) →
  q = tasks_created jobs q pj ++ (process_queue_loop jobs q pj).1 ∧
  ∀ j, (process_queue_loop jobs q pj).2 !! j
       = if decide (j ∈ tasks_created jobs q pj) then Some task_created
         else pj !! j.
Proof.
  revert pj. induction q as [|j0 q IH]; intros pj Hq; cbn.
  - split; [done|]. intros j. by rewrite decide_False by apply not_elem_of_nil.
  - case_decide as Hlt.
    + destruct (Hq j0) as (job & -> & Hst); [by left|].
      rewrite !decide_True by done.
      destruct (IH (<[j0:=task_created]> pj)) as [E Hl].
      { intros j Hj. apply Hq. by right. }
      split; [cbn; by f_equal|].
      intros j. rewrite Hl. destruct (decide (j = j0)) as [->|Hne].
      * rewrite (decide_True (P := j0 ∈ j0 :: _)) by by left.
        case_decide; [done|]. by rewrite lookup_insert_eq.
      * rewrite lookup_insert_ne by done.
        destruct (decide (j ∈ tasks_created jobs q _)).
        -- by rewrite decide_True by by right.
        -- rewrite decide_False; [done|]. by intros [?|?]%elem_of_cons.
    + split; [done|]. intros j.
      by rewrite decide_False by apply not_elem_of_nil.
Qed.

(** *** Places in a list *)

Lemma before_elem_of b a l : before b a l → b ∈ l ∧ a ∈ l.
Proof.
  intros (l1 & l2 & l3 & ->). split.
  - apply elem_of_app. right. left.
  - apply elem_of_app. right. right. apply elem_of_app. right. left.
Qed.

Lemma before_app_l b a l k : before b a l → before b a (k ++ l).
Proof.
  intros (l1 & l2 & l3 & ->). exists (k ++ l1), l2, l3.
  by rewrite <- app_assoc.
Qed.

Lemma before_head b a l : NoDup (a :: l) → ¬ before b a (a :: l).
Proof.
  intros [Hnin _]%NoDup_cons (l1 & l2 & l3 & E). apply Hnin.
  destruct l1 as [|x l1]; cbn in E; injection E as <- ->.
  - apply elem_of_app. right. left.
  - apply elem_of_app. right. right. apply elem_of_app. right. left.
Qed.

Lemma before_sublist b a l k :
  k `sublist_of` l → NoDup l → before b a l → b ∈ k → a ∈ k →
  before b a k.
Proof.
  intros Hsub Hnd (l1 & l2 & l3 & ->) Hb Ha.
  apply sublist_app_r in Hsub as (k1 & k' & -> & Hk1 & Hk').
  apply NoDup_app in Hnd as (_ & Hdis & Hnd).
  apply NoDup_cons in Hnd as [Hbn Hnd].
  assert (Hb1 : b ∉ k1).
  { intros Hin. eapply Hdis; [by eapply elem_of_sublist|left]. }
  assert (Ha1 : a ∉ k1).
  { intros Hin. eapply Hdis; [by eapply elem_of_sublist|].
    right. apply elem_of_app. right. left. }
  apply sublist_cons_r in Hk' as [Hk'|(k2 & -> & Hk2)].
  { exfalso. apply Hbn. eapply elem_of_sublist; [|done].
    apply elem_of_app in Hb as [?|?]; done. }
  apply sublist_app_r in Hk2 as (k3 & k4 & -> & Hk3 & Hk4).
  apply NoDup_app in Hnd as (_ & Hdis2 & Hnd).
  apply NoDup_cons in Hnd as [Han Hnd].
  assert (Ha3 : a ∉ k3).
  { intros Hin. eapply Hdis2; [by eapply elem_of_sublist|left]. }
  assert (Hab : a ≠ b).
  { intros ->. apply Hbn. apply elem_of_app. right. left. }
  apply sublist_cons_r in Hk4 as [Hk4|(k5 & -> & Hk5)].
  { exfalso. apply Han. eapply elem_of_sublist; [|done].
    apply elem_of_app in Ha as [?|Ha]; [done|].
    apply elem_of_cons in Ha as [?|Ha]; [done|].
    apply elem_of_app in Ha as [?|?]; done. }
  by exists k1, k3, k5.
Qed.

Lemma before_insert b a c l1 l2 :
  before b a (l1 ++ l2) → before b a (l1 ++ c :: l2).
Proof.
  intros (m1 & m2 & m3 & E). revert m1 E. induction l1 as [|x l1 IH]; intros m1 E; cbn in *.
  - subst l2. by exists (c :: m1), m2, m3.
  - destruct m1 as [|y m1]; cbn in E; injection E as -> E.
    + (* [b] is the head *)
      assert (Ha : ∃ n2 n3, l1 ++ c :: l2 = n2 ++ a :: n3).
      { clear IH. revert m2 E. induction l1 as [|z l1 IH]; intros m2 E;
          cbn in *.
        - subst l2. by exists (c :: m2), m3.
        - destruct m2 as [|w m2]; cbn in E; injection E as -> E.
          + by exists [], (l1 ++ c :: l2).
          + destruct (IH _ E) as (n2 & n3 & ->). by exists (w :: n2), n3. }
      destruct Ha as (n2 & n3 & ->). by exists [], n2, n3.
    + destruct (IH _ E) as (n1 & n2 & n3 & ->).
      by exists (y :: n1), n2, n3.
Qed.

Lemma StronglySorted_before (R : relation string) a b l :
  StronglySorted R l → a ∈ l → b ∈ l → ¬ R a b → a ≠ b → before b a l.
Proof.
  intros Hs Ha Hb HR Hne.
  apply list_elem_of_split in Ha as (l1 & l2 & ->).
  apply elem_of_app in Hb as [Hb|Hb].
  - apply list_elem_of_split in Hb as (m1 & m2 & ->).
    exists m1, m2, l2. by rewrite <- app_assoc.
  - apply elem_of_cons in Hb as [->|Hb]; [done|]. exfalso. apply HR.
    apply StronglySorted_app in Hs as (_ & _ & Hs).
    apply StronglySorted_cons in Hs as [Hall _].
    rewrite Forall_forall in Hall. auto.
Qed.

(** *** The first step of a task *)

Lemma process_items_started_at t now its job :
  started_at (process_items item_error t now its job).1 = started_at job.
Proof.
  revert job. induction its as [|it rest IH]; intros job; cbn; [done|].
  assert (H1 : started_at (count_item (record_item item_error t now it job)).1
               = started_at job).
  { unfold count_item, record_item.
    case_decide; destruct (item_error _ _ _); done. }
  destruct (count_item _) as [job1 [e|]]; cbn in *; [done|].
  by rewrite IH.
Qed.

Lemma run_executor_started_at now job :
  started_at (run_executor item_error now job).1 = started_at job.
Proof.
  assert (Hseq : ∀ t,
    started_at (of_loop (process_batch item_error t now job)).1
    = started_at job).
  { intros t. unfold of_loop, process_batch. cbn.
    destruct (parameter_items job); [|done].
    apply process_items_started_at. }
  unfold run_executor, _process_document_batch, _process_risk_batch,
    _process_regulatory_batch, _process_prediction_batch.
  destruct (job_type job); try apply Hseq; done.
Qed.

(** Only the first step of its task sets [started_at] of a job. *)
Lemma apply_event_started_at s ev s' j job :
  apply_event item_error s ev = Some s' → BATCH_JOBS s !! j = Some job →
  ∃ job',
    BATCH_JOBS s' !! j = Some job' ∧
    (∀ now, ev = task_start j now → started_at job' = Some now) ∧
    ((∀ now, ev ≠ task_start j now) → started_at job' = started_at job).
Proof.
  intros H Hj.
  destruct (decide (event_target ev = Some j)) as [Ht|Ht].
  2:{ eapply apply_event_frame in H as (Hb & _); [|done].
      exists job. rewrite Hb. split_and!; [done| |done].
      intros now ->. by destruct Ht. }
  destruct ev as [request jid now|jid now| |jid now|jid now
                  |jid now|jid|jid k now|jid k]; cbn in H, Ht;
    try injection Ht as ->; try done.
  - by rewrite Hj in H.
  - unfold cancel_batch_job in H. rewrite Hj in H.
    case_decide; [injection H as <-; by exists job|]. injection H as <-.
    eexists. cbn. rewrite lookup_insert_eq. by split_and!.
  - destruct (PROCESSING_JOBS s !! j) as [[|]|]; try done.
    unfold _process_batch_job in H. rewrite Hj in H. cbn in H.
    pose proof (run_executor_started_at now
                  (set_started_at (Some now) (set_status PROCESSING job)))
      as Hs.
    destruct (run_executor _ _ _) as [job1 [|e|children]];
      injection H as <-; eexists; cbn; rewrite lookup_insert_eq;
      (split_and!; [done| |intros Hne; by destruct (Hne now)]);
      intros now' [= <-]; cbn in *; done.
  - unfold _process_batch_job_resume in H. rewrite Hj in H. cbn in H.
    destruct (PROCESSING_JOBS s !! j) as [[|[e|]]|]; try done;
      [|destruct (waiting _); [|done]; destruct (sleeping _); [|done]];
      injection H as <-; eexists; cbn; rewrite lookup_insert_eq;
      by split_and!.
  - unfold _process_batch_job_cancelled in H. rewrite Hj in H. cbn in H.
    destruct (cancelled_tasks s !! j) as [[e|]|]; [| |done];
      injection H as <-; eexists; cbn;
      rewrite ?lookup_insert_eq, ?Hj; by split_and!.
  - unfold process_item_enter in H. rewrite Hj in H. cbn in H.
    destruct (waiting _); [done|]. case_decide; [|done].
    injection H as <-. exists job. by split_and!.
  - unfold process_item_finish in H. rewrite Hj in H. cbn in H.
    destruct (sleeping _ !! k) as [it|]; [cbn in H|done].
    injection H as <-.
    exists (count_item (record_item item_error NLP_ANALYSIS now it job)).1.
    split_and!; [|done|].
    + unfold gather_exception. cbn -[count_item].
      destruct (count_item _).2, (PROCESSING_JOBS s !! j) as [[|[]]|];
        cbn -[count_item]; by rewrite lookup_insert_eq.
    + intros _. unfold count_item, record_item.
      case_decide; destruct (item_error _ _ _); done.
  - unfold process_item_cancelled in H. rewrite Hj in H. cbn in H.
    destruct (cancelled _ !! k) as [it|]; [cbn in H|done].
    injection H as <-. exists (count_item job).1. split_and!; [|done|].
    + unfold cancelled_exception. cbn -[count_item].
      destruct (count_item _).2, (cancelled_tasks s !! j) as [[]|];
        cbn -[count_item]; by rewrite lookup_insert_eq.
    + intros _. unfold count_item. by case_decide.
Qed.

Lemma job_ok_created_task s j :
  job_ok_at s j → PROCESSING_JOBS s !! j = Some task_created →
  ∃ job,
    BATCH_JOBS s !! j = Some job ∧ status job ≠ PROCESSING ∧
    (j ∉ JOB_QUEUE s) ∧ idle (item_tasks_of s j) ∧
    cancelled_tasks s !! j = None.
Proof.
  unfold job_ok_at. intros H Hp. rewrite Hp in H. unfold job_ok in H.
  destruct (BATCH_JOBS s !! j) as [job|]; [|by destruct H as (_ & ? & _)].
  exists job. split; [done|].
  phases H; try congruence; unfold idle; split_and!; congruence.
Qed.

(** A created task stays as it is until it runs its first step. *)
Lemma apply_event_created_stays s ev s' j :
  invariant s → apply_event item_error s ev = Some s' →
  PROCESSING_JOBS s !! j = Some task_created →
  (∃ now, ev = task_start j now) ∨
  PROCESSING_JOBS s' !! j = Some task_created.
Proof.
  intros Hinv H Hp.
  destruct (job_ok_created_task s j) as (job & Hj & Hst & Hq & Hi & Hc);
    [by apply inv_jobs|done|].
  destruct (decide (event_target ev = Some j)) as [Ht|Ht].
  2:{ right. pose proof H as Hf.
      eapply apply_event_frame in Hf as (_ & _ & _ & _ & Hpf); [|done].
      assert (Hadm : ev = admission_pass ∨ ev ≠ admission_pass)
        by (destruct ev; auto).
      destruct Hadm as [->|Hadm]; [|by rewrite Hpf].
      cbn in H. destruct (background_tasks s); [done|]. injection H as <-.
      rewrite _process_job_queue_frame; [done| |done]. by destruct Hinv. }
  apply (idle_lookup _ 0) in Hi as Hi0. destruct Hi as (Hw & Hs & Hca).
  destruct ev as [request jid now|jid now| |jid now|jid now
                  |jid now|jid|jid k now|jid k]; cbn in H, Ht;
    try injection Ht as ->; try done; eauto.
  - by rewrite Hj in H.
  - right. unfold cancel_batch_job in H. rewrite Hj in H.
    case_decide; [by injection H as <-|]. injection H as <-.
    rewrite (decide_False (P := status job = PROCESSING)) by done.
    rewrite decide_False by done. cbn. done.
  - unfold _process_batch_job_resume in H. rewrite Hj, Hp in H. done.
  - unfold _process_batch_job_cancelled in H. rewrite Hj, Hc in H. done.
  - unfold process_item_enter in H. rewrite Hj in H. cbn in H.
    by rewrite Hw in H.
  - unfold process_item_finish in H. rewrite Hj in H. cbn in H.
    rewrite Hs in H. by destruct k.
  - unfold process_item_cancelled in H. rewrite Hj in H. cbn in H.
    rewrite Hca in H. by destruct k.
Qed.

(** *** The line of the jobs that wait for their first step *)

Lemma apply_event_queue_kept s ev s' :
  apply_event item_error s ev = Some s' →
  (∀ request j now, ev ≠ create_job request j now) →
  (∀ j now, ev ≠ cancel_job j now) → ev ≠ admission_pass →
  JOB_QUEUE s' = JOB_QUEUE s.
Proof.
  intros H Hc Hx Ha.
  destruct ev as [request jid now|jid now| |jid now|jid now
                  |jid now|jid|jid k now|jid k]; cbn in H.
  - by destruct (Hc request jid now).
  - by destruct (Hx jid now).
  - done.
  - destruct (PROCESSING_JOBS s !! jid) as [[|]|]; try done.
    unfold _process_batch_job in H.
    destruct (BATCH_JOBS s !! jid) as [job0|]; [cbn in H|done].
    by destruct (run_executor _ _ _) as [job' [|e|children]];
      injection H as <-.
  - unfold _process_batch_job_resume in H.
    destruct (BATCH_JOBS s !! jid) as [job0|]; [cbn in H|done].
    by destruct (PROCESSING_JOBS s !! jid) as [[|[e|]]|]; try done;
      [|destruct (waiting _); [|done]; destruct (sleeping _); [|done]];
      injection H as <-.
  - unfold _process_batch_job_cancelled in H.
    destruct (BATCH_JOBS s !! jid) as [job0|]; [cbn in H|done].
    by destruct (cancelled_tasks s !! jid) as [[e|]|]; [| |done];
      injection H as <-.
  - unfold process_item_enter in H.
    destruct (BATCH_JOBS s !! jid) as [job0|]; [cbn in H|done].
    destruct (waiting _); [done|]. case_decide; [|done].
    by injection H as <-.
  - unfold process_item_finish in H.
    destruct (BATCH_JOBS s !! jid) as [job0|]; [cbn in H|done].
    destruct (sleeping _ !! k) as [it|]; [cbn in H|done]. injection H as <-.
    unfold gather_exception. cbn -[count_item].
    by destruct (count_item _).2, (PROCESSING_JOBS s !! jid) as [[|[]]|].
  - unfold process_item_cancelled in H.
    destruct (BATCH_JOBS s !! jid) as [job0|]; [cbn in H|done].
    destruct (cancelled _ !! k) as [it|]; [cbn in H|done]. injection H as <-.
    unfold cancelled_exception. cbn -[count_item].
    by destruct (count_item _).2, (cancelled_tasks s !! jid) as [[]|].
Qed.

(** A cancellation takes a queued job out of the queue, and does not touch
    the queue otherwise. *)
Lemma cancel_job_queue s x now s' :
  invariant s → apply_event item_error s (cancel_job x now) = Some s' →
  ((x ∉ JOB_QUEUE s) ∧ JOB_QUEUE s' = JOB_QUEUE s) ∨
  (x ∈ JOB_QUEUE s ∧ JOB_QUEUE s' = remove_first x (JOB_QUEUE s) ∧
   ∃ job0, BATCH_JOBS s !! x = Some job0 ∧ withdrawn s' x job0).
Proof.
  intros Hinv H. cbn in H.
  destruct (decide (x ∈ JOB_QUEUE s)) as [Hq|Hq].
  - right.
    destruct (invariant_queue_pending s x) as (job & Hj & Hst); [done..|].
    assert (Hjid := inv_jobs _ Hinv x). unfold job_ok_at in Hjid.
    rewrite Hj in Hjid. unfold job_ok in Hjid. phases Hjid.
    unfold cancel_batch_job in H. rewrite Hj in H.
    rewrite (decide_False (P := status job = COMPLETED)) in H by congruence.
    rewrite (decide_False (P := status job = PROCESSING)) in H by congruence.
    rewrite decide_True in H by done. cbn in H. injection H as <-.
    split_and!; [done|done|]. exists job. split; [done|].
    unfold withdrawn, item_tasks_of in *. cbn. rewrite lookup_insert_eq.
    split_and!; try done; [by eexists|].
    apply not_elem_of_remove_first. by destruct Hinv.
  - left. split; [done|]. unfold cancel_batch_job in H.
    destruct (BATCH_JOBS s !! x) as [job|]; [|by injection H as <-].
    case_decide; [by injection H as <-|]. cbn in H. injection H as <-.
    repeat case_decide; cbn in *; rewrite ?task_cancel_queue in *; done.
Qed.

Lemma task_start_dec ev j :
  (∃ now, ev = task_start j now) ∨ (∀ now, ev ≠ task_start j now).
Proof.
  destruct ev as [| | |jid now| | | | |]; try (right; intros; discriminate).
  destruct (decide (jid = j)) as [->|]; [left; eauto|right; congruence].
Qed.

(** What a step does to the line: a submission inserts the new job in the
    queue, the first step of a task takes the head of the line, a
    cancellation takes a queued job out, and nothing else changes the
    line (an admission pass moves the head of the queue to the end of the
    created tasks). *)
Lemma line_step s ready ev s' ready' :
  invariant s → queue_by_priority s →
  apply_event item_error s ev = Some s' →
  ready_step s ready ev = Some ready' →
  (∃ request c now l1 l2,
     ev = create_job request c now ∧ BATCH_JOBS s !! c = None ∧
     ready' = ready ∧ JOB_QUEUE s = l1 ++ l2 ∧
     JOB_QUEUE s' = l1 ++ c :: l2) ∨
  (∃ x now,
     ev = task_start x now ∧ ready = x :: ready' ∧
     JOB_QUEUE s' = JOB_QUEUE s) ∨
  (∃ x now job0,
     ev = cancel_job x now ∧ x ∈ JOB_QUEUE s ∧
     BATCH_JOBS s !! x = Some job0 ∧ ready' = ready ∧
     JOB_QUEUE s' = remove_first x (JOB_QUEUE s) ∧ withdrawn s' x job0) ∨
  ((∀ request c now, ev ≠ create_job request c now) ∧
   (∀ x now, ev ≠ task_start x now) ∧
   ready' ++ JOB_QUEUE s' = ready ++ JOB_QUEUE s ∧
   (∀ j, j ∈ ready' →
         j ∈ ready ∨ PROCESSING_JOBS s' !! j = Some task_created)).
Proof.
  intros Hinv Hs H Hr.
  assert (Hkept : (∀ request j now, ev ≠ create_job request j now) →
                  (∀ j now, ev ≠ cancel_job j now) → ev ≠ admission_pass →
                  JOB_QUEUE s' = JOB_QUEUE s)
    by by apply apply_event_queue_kept.
  destruct ev as [request jid now|jid now| |jid now|jid now
                  |jid now|jid|jid k now|jid k]; cbn in Hr;
    try (injection Hr as <-; rewrite Hkept by done;
         right; right; right; split_and!; by auto).
  - left. cbn in H. destruct (BATCH_JOBS s !! jid) eqn:E; [done|].
    injection H as <-. injection Hr as <-.
    destruct (create_batch_job_queue s request jid now) as [H1 H2];
      [done..|].
    by eexists request, jid, now, _, _.
  - injection Hr as <-.
    destruct (cancel_job_queue s jid now s')
      as [[Hq E]|(Hq & E & job0 & Hj & Hw)]; [done..| |].
    + right; right; right. rewrite E. split_and!; by auto.
    + right; right; left. by exists jid, now, job0.
  - injection Hr as <-. right; right; right.
    cbn in H. destruct (background_tasks s) as [|n]; [done|].
    injection H as <-. cbn.
    destruct (tasks_created_spec (BATCH_JOBS s) (JOB_QUEUE s)
                (PROCESSING_JOBS s)) as [E Hl].
    { intros j. by apply invariant_queue_pending. }
    split_and!; [done|done| |].
    + rewrite <- app_assoc. by rewrite <- E.
    + intros j [Hj|Hj]%elem_of_app; [by left|right].
      rewrite Hl. by rewrite decide_True.
  - right; left. destruct ready as [|j rest]; [done|].
    case_decide; [|done]. injection Hr as <-. subst j.
    exists jid, now. split_and!; [done|done|]. by apply Hkept.
Qed.

Lemma line_exists s ready j :
  invariant s → fifo_inv s ready → j ∈ ready ++ JOB_QUEUE s →
  ∃ job, BATCH_JOBS s !! j = Some job ∧ started_at job = None ∧
         status job ≠ PROCESSING.
Proof.
  intros Hinv Hf Hj.
  assert (∃ job, BATCH_JOBS s !! j = Some job ∧ status job ≠ PROCESSING)
    as (job & E & Hst).
  { apply elem_of_app in Hj as [Hj|Hj].
    - apply (fifo_ready _ _ Hf) in Hj.
      destruct (job_ok_created_task s j) as (job & ? & ? & _);
        [by apply inv_jobs|done|]. eauto.
    - destruct (invariant_queue_pending s j) as (job & ? & Hp); [done..|].
      exists job. split; [done|]. congruence. }
  exists job. split_and!; [done| |done]. by eapply fifo_waiting.
Qed.

Lemma line_step_members s ready ev s' ready' :
  invariant s → queue_by_priority s → fifo_inv s ready →
  apply_event item_error s ev = Some s' →
  ready_step s ready ev = Some ready' →
  NoDup (ready' ++ JOB_QUEUE s') ∧
  (∀ j, j ∈ ready' → PROCESSING_JOBS s' !! j = Some task_created) ∧
  (∀ j, j ∈ ready' ++ JOB_QUEUE s' →
     (∀ now, ev ≠ task_start j now) ∧
     (j ∈ ready ++ JOB_QUEUE s ∨ BATCH_JOBS s !! j = None)) ∧
  (∀ j, j ∈ ready ++ JOB_QUEUE s →
     j ∈ ready' ++ JOB_QUEUE s' ∨ (∃ now, ev = task_start j now) ∨
     ∃ job0, BATCH_JOBS s !! j = Some job0 ∧ withdrawn s' j job0) ∧
  (∀ request j now,
     ev = create_job request j now → j ∈ ready' ++ JOB_QUEUE s').
Proof.
  intros Hinv Hs Hf H Hr.
  pose proof (fifo_NoDup _ _ Hf) as Hnd.
  assert (Hstay : ∀ j, j ∈ ready → (∀ now, ev ≠ task_start j now) →
            PROCESSING_JOBS s' !! j = Some task_created).
  { intros j Hj Hne. apply (fifo_ready _ _ Hf) in Hj.
    eapply apply_event_created_stays in Hj as [[now Hev]|Hj]; [|done..].
    by destruct (Hne now). }
  pose proof H as Hl. eapply line_step in Hl; [|done..].
  destruct Hl
    as [(request & c & now & l1 & l2 & -> & Hc & -> & E & E')
       |[(x & now & -> & -> & E')
        |[(x & now & job0 & -> & Hx & Hj0 & -> & E' & Hw)
         |(Hnc & Hnt & E' & Hnew)]]].
  - (* a submission *)
    assert (Hfresh : c ∉ ready ++ JOB_QUEUE s).
    { intros Hin. eapply line_exists in Hin as (job & ? & _); [|done..].
      congruence. }
    rewrite E', E in *. split_and!.
    + rewrite app_assoc. apply NoDup_app.
      rewrite app_assoc in Hnd, Hfresh.
      apply NoDup_app in Hnd as (Hn1 & Hdis & Hn2).
      split_and!; [done| |].
      * intros j Hj [->|Hj2]%elem_of_cons; [|by eapply Hdis].
        apply Hfresh. apply elem_of_app. by left.
      * apply NoDup_cons. split; [|done]. intros Hin. apply Hfresh.
        apply elem_of_app. by right.
    + intros j Hj. by apply Hstay.
    + intros j Hj. split; [done|].
      rewrite !elem_of_app, elem_of_cons in Hj. rewrite !elem_of_app.
      destruct Hj as [?|[?|[->|?]]]; auto.
    + intros j Hj. left. rewrite !elem_of_app, elem_of_cons.
      rewrite !elem_of_app in Hj. tauto.
    + intros ? j ? [= _ <- _]. rewrite !elem_of_app, elem_of_cons. auto.
  - (* the first step of a task *)
    rewrite E'. cbn in Hnd. apply NoDup_cons in Hnd as [Hx Hnd].
    assert (Hne : ∀ j, j ∈ ready' ++ JOB_QUEUE s →
              ∀ t, task_start x now ≠ task_start j t).
    { intros j Hj t [= -> _]. done. }
    split_and!; [done| | | |done].
    + intros j Hj. apply Hstay; [by right|]. apply Hne.
      apply elem_of_app. by left.
    + intros j Hj. split; [by apply Hne|]. left. by right.
    + intros j [->|Hj]%elem_of_cons; eauto.
  - (* a cancellation in the queue *)
    rewrite E'.
    assert (Hsub : ready ++ remove_first x (JOB_QUEUE s)
                   `sublist_of` ready ++ JOB_QUEUE s)
      by (apply sublist_app; [done|apply remove_first_sublist]).
    split_and!; [by eapply sublist_NoDup| | | |done].
    + intros j Hj. by apply Hstay.
    + intros j Hj. split; [done|]. left. by eapply elem_of_sublist.
    + intros j Hj. destruct (decide (j = x)) as [->|Hne]; [eauto|].
      left. rewrite elem_of_app in *.
      by rewrite elem_of_remove_first_ne.
  - rewrite E'. split_and!; [done| | | |].
    + intros j Hj. destruct (Hnew j Hj) as [Hin|Hin]; [|done].
      by apply Hstay.
    + intros j Hj. by split; [|left].
    + intros j Hj. by left.
    + intros request j now ->. by destruct (Hnc request j now).
Qed.

(** The facts about the line hold along the runs in which the tasks start
    in the order of their creation. *)
Lemma fifo_inv_step s ready ev s' ready' :
  invariant s → queue_by_priority s → fifo_inv s ready →
  apply_event item_error s ev = Some s' →
  ready_step s ready ev = Some ready' →
  fifo_inv s' ready'.
Proof.
  intros Hinv Hs Hf H Hr.
  pose proof H as Hm. eapply line_step_members in Hm; [|done..].
  destruct Hm as (Hnd & Hready & Hin' & Hin & Hcreate).
  split; [done|done| |].
  - intros j job' Hj Hj'. apply Hin' in Hj as [Hne [Hj|Hnone]].
    + eapply line_exists in Hj as (job & Ej & Hst & _); [|done..].
      edestruct apply_event_started_at as (job1 & E1 & _ & Hsame);
        [exact H|exact Ej|].
      rewrite Hj' in E1. injection E1 as <-. by rewrite Hsame.
    + edestruct apply_event_new_job as (request & now & _ & ->);
        [exact H|exact Hnone|exact Hj'|].
      done.
  - intros j job' Hj'.
    destruct (BATCH_JOBS s !! j) as [job|] eqn:Ej.
    2:{ edestruct apply_event_new_job as (request & now & Hev & _);
          [exact H|exact Ej|exact Hj'|].
        left. by eapply Hcreate. }
    edestruct apply_event_started_at as (job1 & E1 & Hstart & Hsame);
      [exact H|exact Ej|].
    rewrite Hj' in E1. injection E1 as <-.
    assert (Hstarted : started_at job ≠ None → started_at job' ≠ None).
    { intros Hne. destruct (task_start_dec ev j) as [[now ->]|Hnt].
      - by rewrite (Hstart now).
      - by rewrite Hsame. }
    destruct (fifo_others _ _ Hf j job Ej)
      as [Hl|[Hne|(job0 & Hw & Hst)]]; [|by auto|].
    + pose proof Hl as Hex.
      eapply line_exists in Hex as (job0 & Ej0 & Hst & _); [|done..].
      rewrite Ej in Ej0. injection Ej0 as <-.
      destruct (Hin j Hl) as [?|[[now ->]|(job0 & Ej0 & Hw)]]; [by left| |].
      * right; left. by rewrite (Hstart now).
      * rewrite Ej in Ej0. injection Ej0 as <-. right; right. eauto.
    + right; right. exists job0. split; [|done].
      by eapply apply_event_withdrawn.
Qed.

Lemma initial_fifo_inv : fifo_inv initial [].
Proof.
  split; cbn.
  - apply NoDup_nil_2.
  - intros j Hj. by apply elem_of_nil in Hj.
  - intros j job Hj. by apply elem_of_nil in Hj.
  - intros j job Hj. by rewrite lookup_empty in Hj.
Qed.

Lemma run_fifo_inv evs s ready s' ready' :
  invariant s → queue_by_priority s → fifo_inv s ready →
  run_fifo item_error s ready evs = Some (s', ready') →
  invariant s' ∧ queue_by_priority s' ∧ fifo_inv s' ready'.
Proof.
  revert s ready. induction evs as [|ev evs IH]; intros s ready Hinv Hs Hf H;
    cbn in H.
  - by injection H as <- <-.
  - destruct (apply_event item_error s ev) as [s1|] eqn:E; [cbn in H|done].
    destruct (ready_step s ready ev) as [ready1|] eqn:Er; [cbn in H|done].
    eapply (IH s1 ready1); [| | |done].
    + by eapply apply_event_invariant.
    + by eapply apply_event_queue_by_priority.
    + by eapply fifo_inv_step.
Qed.

Lemma line_not_started s ready a :
  invariant s → fifo_inv s ready → a ∈ ready ++ JOB_QUEUE s →
  not_started s a.
Proof.
  intros Hinv Hf Ha. eapply line_exists in Ha as (job & ? & ? & ?); [|done..].
  by exists job.
Qed.

Lemma withdrawn_not_started s a job0 :
  withdrawn s a job0 → started_at job0 = None → not_started s a.
Proof.
  intros ([t Hj] & _) Hst. eexists. split; [done|]. cbn. by split.
Qed.

(** A job that stands before another one in the line stays before it as
    long as the two wait, whatever happens. *)
Lemma ahead_step s ready ev s' ready' a b :
  invariant s → queue_by_priority s → fifo_inv s ready →
  apply_event item_error s ev = Some s' →
  ready_step s ready ev = Some ready' →
  (b ∈ ready ++ JOB_QUEUE s →
   before b a (ready ++ JOB_QUEUE s) ∨
   ∃ job0, withdrawn s a job0 ∧ started_at job0 = None) →
  is_Some (BATCH_JOBS s !! b) →
  b ∈ ready' ++ JOB_QUEUE s' →
  before b a (ready' ++ JOB_QUEUE s') ∨
  ∃ job0, withdrawn s' a job0 ∧ started_at job0 = None.
Proof.
  intros Hinv Hs Hf H Hr Hah [jb Hb] Hb'.
  pose proof (fifo_NoDup _ _ Hf) as Hnd.
  pose proof H as Hm. eapply line_step_members in Hm; [|done..].
  destruct Hm as (Hnd' & _ & Hin' & Hin & _).
  assert (Hbl : b ∈ ready ++ JOB_QUEUE s).
  { destruct (Hin' b Hb') as [_ [?|?]]; [done|congruence]. }
  destruct (Hah Hbl) as [Hbef|(job0 & Hw & Hst)].
  2:{ right. exists job0. split; [by eapply apply_event_withdrawn|done]. }
  pose proof (before_elem_of _ _ _ Hbef) as [_ Hal].
  pose proof H as Hl. eapply line_step in Hl; [|done..].
  destruct Hl
    as [(request & c & now & l1 & l2 & -> & Hc & -> & E & E')
       |[(x & now & -> & -> & E')
        |[(x & now & job0 & -> & Hx & Hj0 & -> & E' & Hw)
         |(Hnc & Hnt & E' & Hnew)]]].
  - left. rewrite E'. rewrite E in Hbef. rewrite app_assoc in *.
    by apply before_insert.
  - left. rewrite E' in *. cbn in Hbef, Hnd, Hal.
    eapply before_sublist; [|exact Hnd|exact Hbef|done|].
    + by apply sublist_cons.
    + apply elem_of_cons in Hal as [->|Hal]; [|done].
      by apply before_head in Hbef.
  - rewrite E' in *. destruct (decide (a = x)) as [->|Hne].
    + right. exists job0. split; [done|].
      eapply line_exists in Hal as (job & Ej & Hst & _); [|done..].
      congruence.
    + left. eapply before_sublist; [|exact Hnd|exact Hbef|done|].
      * apply sublist_app; [done|apply remove_first_sublist].
      * rewrite elem_of_app in *. by rewrite elem_of_remove_first_ne.
  - left. by rewrite E'.
Qed.

Lemma run_fifo_ahead evs s ready s' ready' a b :
  invariant s → queue_by_priority s → fifo_inv s ready →
  run_fifo item_error s ready evs = Some (s', ready') →
  (b ∈ ready ++ JOB_QUEUE s →
   before b a (ready ++ JOB_QUEUE s) ∨
   ∃ job0, withdrawn s a job0 ∧ started_at job0 = None) →
  is_Some (BATCH_JOBS s !! b) →
  b ∈ ready' ++ JOB_QUEUE s' →
  before b a (ready' ++ JOB_QUEUE s') ∨
  ∃ job0, withdrawn s' a job0 ∧ started_at job0 = None.
Proof.
  revert s ready.
  induction evs as [|ev evs IH]; intros s ready Hinv Hs Hf H Hah Hb;
    cbn in H.
  - injection H as <- <-. done.
  - destruct (apply_event item_error s ev) as [s1|] eqn:E; [cbn in H|done].
    destruct (ready_step s ready ev) as [ready1|] eqn:Er; [cbn in H|done].
    eapply (IH s1 ready1); [| | |done| |].
    + by eapply apply_event_invariant.
    + by eapply apply_event_queue_by_priority.
    + by eapply fifo_inv_step.
    + intros Hb1. by eapply ahead_step.
    + destruct Hb as [jb Hb].
      edestruct apply_event_started_at as (jb' & Eb & _);
        [exact E|exact Hb|]. by exists jb'.
Qed.

(** C6 (amended): along the runs in which the tasks run their first step
    in the order of their creation, as on the event loop.  The queue is
    ordered by priority, highest first, and jobs of the same priority stand
    in the order of their submission; this is the order of [created_at]
    when the clock values of the successive submissions do not decrease.
    An admission pass takes jobs from the head of the queue and creates
    their tasks in that order.  The jobs that wait form one line: the
    created tasks that have not run yet, then the queue.  A queued job [b]
    of a higher priority than a queued job [a] stands before [a], and so
    does a queued job [b] of the same or a higher priority than a job [a]
    that is then submitted.  Every job is in the line, or has made its
    first step (which sets [processing] and [started_at]), or was cancelled
    in the queue.  If [b] stands before [a] in the line then, whatever
    happens, as long as [b] is in the line, [a] is not processing and has
    not started. *)
Theorem queue_priority_then_fifo evs s ready :
  run_fifo item_error initial [] evs = Some (s, ready) →
  queue_by_priority s ∧
  (StronglySorted Qle (creation_times evs) → queue_ordered s) ∧
  JOB_QUEUE s
  = tasks_created (BATCH_JOBS s) (JOB_QUEUE s) (PROCESSING_JOBS s)
    ++ JOB_QUEUE (_process_job_queue s) ∧
  (∀ j, PROCESSING_JOBS (_process_job_queue s) !! j
        = if decide (j ∈ tasks_created (BATCH_JOBS s) (JOB_QUEUE s)
                           (PROCESSING_JOBS s))
          then Some task_created else PROCESSING_JOBS s !! j) ∧
  (∀ j, j ∈ ready → PROCESSING_JOBS s !! j = Some task_created) ∧
  (∀ a b,
     a ∈ JOB_QUEUE s → b ∈ JOB_QUEUE s →
     (priority_of (BATCH_JOBS s) a < priority_of (BATCH_JOBS s) b)%Z →
     before b a (ready ++ JOB_QUEUE s)) ∧
  (∀ request a now b,
     BATCH_JOBS s !! a = None → b ∈ JOB_QUEUE s →
     (req_priority request ≤ priority_of (BATCH_JOBS s) b)%Z →
     before b a
       (ready ++ JOB_QUEUE (create_batch_job request a now s))) ∧
  (∀ j job,
     BATCH_JOBS s !! j = Some job →
     j ∈ ready ++ JOB_QUEUE s ∨ started_at job ≠ None ∨
     ∃ job0, withdrawn s j job0 ∧ started_at job0 = None) ∧
  (∀ a b evs' s' ready',
     before b a (ready ++ JOB_QUEUE s) →
     run_fifo item_error s ready evs' = Some (s', ready') →
     b ∈ ready' ++ JOB_QUEUE s' → not_started s' a).
Proof.
  intros Hfifo.
  pose proof Hfifo as Hrun. apply run_fifo_run in Hrun.
  pose proof Hfifo as Hinvs.
  apply run_fifo_inv in Hinvs as (Hinv & Hs & Hf);
    [|apply initial_invariant|constructor|apply initial_fifo_inv].
  destruct (tasks_created_spec (BATCH_JOBS s) (JOB_QUEUE s)
              (PROCESSING_JOBS s)) as [E Hl].
  { intros j. by apply invariant_queue_pending. }
  split_and!; [done| |done|done|by apply fifo_ready|..|by apply fifo_others|].
  - intros Hts. destruct (initial_queue_ordered (creation_times evs)).
    eapply run_queue_ordered in Hrun; eauto using initial_invariant.
  - intros a b Ha Hb Hlt. apply before_app_l.
    eapply StronglySorted_before; [exact Hs|done|done| |].
    + unfold by_priority. lia.
    + intros ->. lia.
  - intros request a now b Ha Hb Hle. apply before_app_l.
    destruct (create_batch_job_queue s request a now) as [_ E']; [done..|].
    cbn zeta in E'. rewrite E'.
    assert (Hin : b ∈ queued_ahead s (req_priority request)).
    { unfold queued_ahead. apply list_elem_of_filter. by split. }
    apply list_elem_of_split in Hin as (m1 & m2 & ->).
    exists m1, m2, (queued_behind s (req_priority request)).
    by rewrite <- app_assoc.
  - intros a b evs' s' ready' Hbef Hfifo' Hb'.
    pose proof Hfifo' as Hinvs.
    apply run_fifo_inv in Hinvs as (Hinv' & _ & Hf'); [|done..].
    pose proof (before_elem_of _ _ _ Hbef) as [Hbl _].
    eapply line_exists in Hbl as (jb & Eb & _); [|done..].
    edestruct run_fifo_ahead as [Hbef'|(job0 & Hw & Hst)];
      [exact Hinv|exact Hs|exact Hf|exact Hfifo'|intros _; left; exact Hbef
      |by exists jb|exact Hb'| |].
    + apply before_elem_of in Hbef' as [_ Ha'].
      by eapply line_not_started.
    + by eapply withdrawn_not_started.
Qed.

End Proofs.

(** * Runs of the model *)

Lemma at_most_three_processing_witness :
  size (processing_status_jobs (state_after saturating_run)) ≤ 3 ∧
  size (PROCESSING_JOBS (state_after saturating_run)) ≤ 3 ∧
  size (PROCESSING_JOBS (_process_job_queue (state_after saturating_run))) ≤ 3 ∧
  (3 ≤ size (PROCESSING_JOBS (state_after saturating_run)) →
   _process_job_queue (state_after saturating_run)
   = state_after saturating_run).
Proof.
  apply (at_most_three_processing no_item_error saturating_run).
  vm_compute. reflexivity.
Defined.

Lemma pending_queued_or_popped_witness :
  (∀ j, j ∈ JOB_QUEUE (state_after saturating_run) →
     occurrences j (JOB_QUEUE (state_after saturating_run)) = 1 ∧
     ∃ job, BATCH_JOBS (state_after saturating_run) !! j = Some job ∧
            status job = PENDING) ∧
  (∀ j job, BATCH_JOBS (state_after saturating_run) !! j = Some job →
     status job = PENDING →
     occurrences j (JOB_QUEUE (state_after saturating_run)) = 1 ∧
     PROCESSING_JOBS (state_after saturating_run) !! j = None ∨
     occurrences j (JOB_QUEUE (state_after saturating_run)) = 0 ∧
     PROCESSING_JOBS (state_after saturating_run) !! j = Some task_created).
Proof.
  apply (pending_queued_or_popped no_item_error saturating_run).
  vm_compute. reflexivity.
Defined.

(** C9, as stated, fails: after the admission pass has popped a job and
    before its task runs, the job is pending and not in the queue. *)
Lemma pending_job_outside_queue :
  run no_item_error initial popped_run = Some (state_after popped_run) ∧
  ¬ queue_is_the_pending_jobs (state_after popped_run).
Proof.
  split; [vm_compute; reflexivity|]. intros [_ H].
  destruct (BATCH_JOBS (state_after popped_run) !! "j1") as [job|] eqn:E;
    [|vm_compute in E; discriminate].
  specialize (H "j1" job E).
  assert (Hst : status job = PENDING).
  { vm_compute in E. injection E as <-. reflexivity. }
  specialize (H Hst). vm_compute in H. discriminate.
Qed.

Lemma model_training_accepted_then_fails_witness :
  (∃ s' job,
     apply_event no_item_error initial
       (create_job (request MODEL_TRAINING [] [] 5) "j1" 1%Q) = Some s' ∧
     BATCH_JOBS s' !! "j1" = Some job ∧
     job_type job = MODEL_TRAINING ∧ status job = PENDING ∧
     errors job = [] ∧ "j1" ∈ JOB_QUEUE s') ∧
  (∃ s' job',
     apply_event no_item_error
       (state_after
          [create_job (request MODEL_TRAINING [] [] 5) "j1" 1%Q;
           admission_pass])
       (task_start "j1" 2%Q) = Some s' ∧
     BATCH_JOBS s' !! "j1" = Some job' ∧
     status job' = FAILED ∧
     errors job'
     = [] ++ [job_failure (ValueError_unknown_job_type MODEL_TRAINING) 2%Q] ∧
     PROCESSING_JOBS s' !! "j1" = None).
Proof.
  split.
  - apply (proj1 (model_training_accepted_then_fails no_item_error));
      reflexivity.
  - apply (proj2 (model_training_accepted_then_fails no_item_error)
             _ "j1" (new_job (request MODEL_TRAINING [] [] 5) "j1" 1%Q));
      vm_compute; reflexivity.
Defined.



(** C1 (defect in the code): the executors iterate
    [job.parameters.get("items", [])] and not the submitted [items].  A
    job submitted with two items and no [items] entry in [parameters] is
    completed with [total_items = 2], no item processed and no result or
    error recorded; so for the NLP executor as for the sequential ones. *)
Lemma submitted_items_are_not_processed :
  ∀ t, t = NLP_ANALYSIS ∨ t = DOCUMENT_CLASSIFICATION →
  ∃ job,
    job_after (two_items_run t) "j1" = Some job ∧
    status job = COMPLETED ∧ total_items job = 2 ∧
    processed_items job = 0 ∧ results job = [] ∧ errors job = [].
Proof.
  intros t [-> | ->]; eexists; (split; [vm_compute; reflexivity|]);
    cbn; done.
Qed.

Lemma submitted_items_are_not_processed_witness :
  ∃ job,
    job_after (two_items_run NLP_ANALYSIS) "j1" = Some job ∧
    status job = COMPLETED ∧ total_items job = 2 ∧
    processed_items job = 0 ∧ results job = [] ∧ errors job = [].
Proof.
  apply (submitted_items_are_not_processed NLP_ANALYSIS). left. reflexivity.
Defined.

(** C5 (defect in the code): [cancel_batch_job] rejects a completed job
    only.  A second cancellation of a cancelled job succeeds and
    overwrites [completed_at]; a failed job becomes cancelled. *)
Lemma cancel_of_terminal_job_succeeds :
  (∃ job, job_after cancelled_run "j1" = Some job ∧
          status job = CANCELLED ∧ completed_at job = Some 2%Q) ∧
  (∃ s' job',
     cancel_batch_job "j1" 3%Q (state_after cancelled_run) = inr s' ∧
     BATCH_JOBS s' !! "j1" = Some job' ∧
     status job' = CANCELLED ∧ completed_at job' = Some 3%Q) ∧
  (∃ s' job',
     cancel_batch_job "j1" 3%Q (state_after model_training_run) = inr s' ∧
     BATCH_JOBS s' !! "j1" = Some job' ∧
     status job' = CANCELLED ∧ completed_at job' = Some 3%Q) ∧
  cancel_batch_job "j1" 3%Q (state_after (two_items_run NLP_ANALYSIS))
  = inl HTTP_400.
Proof.
  split_and!.
  - eexists. split; [vm_compute; reflexivity|]. done.
  - eexists _, _. split_and!; [vm_compute; reflexivity..|done|done].
  - eexists _, _. split_and!; [vm_compute; reflexivity..|done|done].
  - vm_compute. reflexivity.
Qed.

(** C7 (defect in the code): between the admission pass, which pops the
    job and creates its task, and the first run of that task the job is
    still pending.  A cancellation in that window marks it cancelled and
    leaves the task alone; the task then runs and the job is processing. *)
Lemma cancelled_pending_job_is_processed :
  (∃ job, job_after popped_run "j1" = Some job ∧ status job = PENDING) ∧
  (∃ job, job_after (popped_run ++ [cancel_job "j1" 2%Q]) "j1" = Some job ∧
          status job = CANCELLED) ∧
  ("j1" ∉ JOB_QUEUE (state_after (popped_run ++ [cancel_job "j1" 2%Q]))) ∧
  run no_item_error initial cancel_before_start_run
  = Some (state_after cancel_before_start_run) ∧
  (∃ job, job_after cancel_before_start_run "j1" = Some job ∧
          status job = PROCESSING).
Proof.
  split_and!.
  - eexists. split; [vm_compute; reflexivity|]. done.
  - eexists. split; [vm_compute; reflexivity|]. done.
  - vm_compute. apply not_elem_of_nil.
  - vm_compute. reflexivity.
  - eexists. split; [vm_compute; reflexivity|]. done.
Qed.

Lemma admission_pass_only_on_submission_witness :
  (background_tasks
     (state_after (slot_freed_run ++ [cancel_job "j2" 11%Q])) = 0 ∧
   ∀ j, PROCESSING_JOBS (state_after slot_freed_run) !! j = None →
        PROCESSING_JOBS
          (state_after (slot_freed_run ++ [cancel_job "j2" 11%Q])) !! j
        = None) ∧
  (PROCESSING_JOBS (_process_job_queue (state_after slot_freed_run)) !! "j4"
   = Some task_created ∧
   "j4" ∉ JOB_QUEUE (_process_job_queue (state_after slot_freed_run))).
Proof.
  split.
  - apply (proj1 (proj2 (admission_pass_only_on_submission no_item_error))
             (state_after slot_freed_run) [cancel_job "j2" 11%Q]).
    + vm_compute. reflexivity.
    + repeat constructor.
    + vm_compute. reflexivity.
  - apply (proj2 (proj2 (admission_pass_only_on_submission no_item_error))
             slot_freed_run _ "j4" []).
    + vm_compute. reflexivity.
    + vm_compute. reflexivity.
    + vm_compute. lia.
Defined.

(** C8: the code does not do what the claim says.  After [slot_freed_run]
    job ["j1"] has completed and its slot is free (two tasks are
    registered), ["j4"] is pending at the head of the queue, and no pass
    is scheduled: the [finally] of [_process_batch_job] deletes the entry
    of the job from [PROCESSING_JOBS] and does not call
    [_process_job_queue].  No continuation without a new submission
    creates a task for ["j4"]; the pass of the next submission does.  The
    condition [len(PROCESSING_JOBS) < MAX_CONCURRENT_JOBS] of the pass
    shows that a free slot is meant to be filled from the queue. *)
Lemma queued_job_waits_for_next_submission :
  run no_item_error initial slot_freed_run
  = Some (state_after slot_freed_run) ∧
  status <$> job_after slot_freed_run "j1" = Some COMPLETED ∧
  status <$> job_after slot_freed_run "j4" = Some PENDING ∧
  JOB_QUEUE (state_after slot_freed_run) = ["j4"] ∧
  size (PROCESSING_JOBS (state_after slot_freed_run)) = 2 ∧
  background_tasks (state_after slot_freed_run) = 0 ∧
  ¬ started_without_submission no_item_error
      (state_after slot_freed_run) "j4" ∧
  PROCESSING_JOBS
    (state_after
       (slot_freed_run
        ++ [create_job (nlp_request 5) "j5" 11%Q; admission_pass]))
    !! "j4" = Some task_created.
Proof.
  split_and!; [vm_compute; reflexivity..| |vm_compute; reflexivity].
  intros (evs & s' & Hall & Hrun & Hsome).
  destruct (run_no_submission no_item_error _ _ _ Hrun Hall) as [_ Hp].
  { vm_compute. reflexivity. }
  rewrite Hp in Hsome; [by destruct Hsome|].
  vm_compute. reflexivity.
Qed.

Lemma submission_is_immutable_witness :
  (∃ job',
     BATCH_JOBS (state_after first_job_run) !! "j1" = Some job' ∧
     same_submission (new_job (nlp_request 5) "j1" 1%Q) job') ∧
  job_id half_done_job = "j1".
Proof.
  split.
  - apply (proj1 (submission_is_immutable no_item_error)
             (state_after [create_job (nlp_request 5) "j1" 1%Q])
             first_job_steps);
      vm_compute; reflexivity.
  - apply (proj2 (submission_is_immutable no_item_error)
             progress_run (state_after progress_run));
      vm_compute; reflexivity.
Defined.

Lemma records_only_grow_witness :
  ∃ job',
    BATCH_JOBS (state_after slot_freed_run) !! "j1" = Some job' ∧
    job_grows half_done_job job'.
Proof.
  apply (records_only_grow no_item_error (state_after progress_run)
           [item_enter "j1"; item_finish "j1" 0 9%Q; task_resume "j1" 10%Q]);
    vm_compute; reflexivity.
Defined.

Lemma entries_match_counters_witness :
  length (results half_done_job) = successful_items half_done_job ∧
  length (filter is_item_error (errors half_done_job))
  = failed_items half_done_job.
Proof.
  apply (entries_match_counters no_item_error progress_run
           (state_after progress_run) "j1");
    vm_compute; reflexivity.
Defined.

Lemma completed_job_is_final_witness :
  BATCH_JOBS
    (state_after (slot_freed_run ++ [cancel_job "j1" 11%Q;
                                     create_job (nlp_request 5) "j5" 12%Q;
                                     admission_pass])) !! "j1"
  = job_after slot_freed_run "j1".
Proof.
  destruct (job_after slot_freed_run "j1") as [job|] eqn:E;
    [|vm_compute in E; discriminate].
  apply (completed_job_is_final no_item_error slot_freed_run
           (state_after slot_freed_run)
           [cancel_job "j1" 11%Q; create_job (nlp_request 5) "j5" 12%Q;
            admission_pass]).
  - vm_compute. reflexivity.
  - vm_compute. reflexivity.
  - exact E.
  - vm_compute in E. injection E as <-. reflexivity.
Defined.

Lemma cancelled_in_queue_never_runs_witness :
  withdrawn
    (state_after (saturating_run ++ cancel_job "j4" 8%Q :: cancel_queued_steps))
    "j4" (new_job (nlp_request 5) "j4" 4%Q) ∧
  processed_items (new_job (nlp_request 5) "j4" 4%Q) = 0.
Proof.
  apply (cancelled_in_queue_never_runs no_item_error saturating_run
           (state_after saturating_run) "j4" _ 8%Q cancel_queued_steps).
  - vm_compute. reflexivity.
  - vm_compute. apply list_elem_of_singleton. reflexivity.
  - vm_compute. reflexivity.
  - vm_compute. reflexivity.
Defined.

Lemma sequential_executor_covers_items_witness :
  ∃ job',
    run_executor odd_items_fail 2%Q three_items_job = (job', returned) ∧
    processed_items job' = 3 ∧
    successful_items job' + failed_items job' = 3 ∧
    results job'
    = item_results odd_items_fail RISK_ASSESSMENT 2%Q
        (enumerate [PyStr "a"; PyStr "b"; PyStr "c"]) ∧
    errors job'
    = item_errors odd_items_fail RISK_ASSESSMENT 2%Q
        (enumerate [PyStr "a"; PyStr "b"; PyStr "c"]).
Proof.
  apply (sequential_executor_covers_items odd_items_fail 2%Q three_items_job
           [PyStr "a"; PyStr "b"; PyStr "c"]).
  - right; left; reflexivity.
  - reflexivity.
  - vm_compute; discriminate.
Defined.

Lemma uncounted_items_divide_by_zero_witness :
  ∃ s' job',
    apply_event no_item_error (state_after uncounted_items_run)
      (task_start "j1" 2%Q) = Some s' ∧
    BATCH_JOBS s' !! "j1" = Some job' ∧
    PROCESSING_JOBS s' !! "j1" = None ∧
    status job' = FAILED ∧
    completed_at job' = Some 2%Q ∧
    processed_items job' = 1 ∧
    successful_items job' + failed_items job' = 1 ∧
    length (results job') + length (errors job') = 2 ∧
    last (errors job') = Some (job_failure ZeroDivisionError 2%Q).
Proof.
  apply (uncounted_items_divide_by_zero no_item_error uncounted_items_run
           (state_after uncounted_items_run) "j1"
           (new_job
              (request RISK_ASSESSMENT []
                 [("items", PyList [PyStr "a"; PyStr "b"])] 5) "j1" 1%Q)
           2%Q (PyStr "a") [PyStr "b"]).
  - vm_compute; reflexivity.
  - vm_compute; reflexivity.
  - vm_compute; reflexivity.
  - reflexivity.
  - right; left; reflexivity.
  - reflexivity.
Defined.

Lemma new_job_queue_position_witness :
  let s := state_after priority_run in
  let s' := create_batch_job (nlp_request 5) "C" 9%Q s in
  queue_by_priority s ∧
  JOB_QUEUE s = ["B"] ++ ["A"] ∧
  JOB_QUEUE s' = ["B"] ++ "C" :: ["A"] ∧
  queue_position s' "C" = Some 2.
Proof.
  apply (new_job_queue_position no_item_error priority_run
           (state_after priority_run) (nlp_request 5) "C" 9%Q);
    vm_compute; reflexivity.
Defined.

Lemma result_pages_cover_witness :
  match BATCH_JOBS (state_after first_job_run) !! "j1" with
  | None => results_page (state_after first_job_run) "j1" 1 1 = inl 404
  | Some job =>
      ∃ r,
        results_page (state_after first_job_run) "j1" 1 1 = inr r ∧
        rr_total_results r = length (results job) ∧
        rr_results r = take 1 (drop 1 (results job)) ∧
        (rr_has_more r = true → length (rr_results r) = 1) ∧
        (rr_has_more r = false →
         collected_results (state_after first_job_run) "j1" 1 1
         = results job)
  end.
Proof.
  apply (result_pages_cover (state_after first_job_run) "j1" 1 1). lia.
Defined.

Lemma queue_status_of_reachable_witness :
  ∃ r,
    get_queue_status (state_after priority_run) = inr r ∧
    qs_status_counts r PENDING + qs_status_counts r PROCESSING
    + qs_status_counts r COMPLETED + qs_status_counts r FAILED
    + qs_status_counts r CANCELLED = qs_total_jobs r ∧
    qs_queue_length r ≤ qs_status_counts r PENDING ∧
    qs_status_counts r PROCESSING ≤ qs_processing_jobs r ∧
    qs_processing_jobs r ≤ 3 ∧
    length (qs_queue_preview r) = qs_queue_length r `min` 10 ∧
    ∀ i e,
      qs_queue_preview r !! i = Some e →
      qe_position e = S i ∧
      JOB_QUEUE (state_after priority_run) !! i = Some (qe_job_id e) ∧
      ∃ job,
        BATCH_JOBS (state_after priority_run) !! qe_job_id e = Some job ∧
        status job = PENDING ∧
        qe_name e = name job ∧ qe_job_type e = job_type job ∧
        qe_priority e = priority job ∧ qe_total_items e = total_items job.
Proof.
  apply (queue_status_of_reachable no_item_error priority_run).
  vm_compute; reflexivity.
Defined.

Lemma at_most_max_workers_items_witness :
  (Z.of_nat (in_semaphore (item_tasks_of (state_after two_workers_run) "j1"))
   ≤ Z.max 0 2)%Z.
Proof.
  apply (at_most_max_workers_items no_item_error two_workers_run
           (state_after two_workers_run) "j1"
           (default (new_job (nlp_request 5) "j1" 1%Q)
              (job_after two_workers_run "j1")));
    vm_compute; reflexivity.
Defined.

Lemma completed_job_covers_items_witness :
  ∃ items,
    parameter_items
      (default (new_job (nlp_request 5) "j1" 1%Q)
         (job_after first_job_run "j1")) = Some items ∧
    processed_items
      (default (new_job (nlp_request 5) "j1" 1%Q)
         (job_after first_job_run "j1")) = length items ∧
    recorded_indices
      (default (new_job (nlp_request 5) "j1" 1%Q)
         (job_after first_job_run "j1")) ≡ₚ seq 0 (length items) ∧
    ∀ r,
      r ∈ results
            (default (new_job (nlp_request 5) "j1" 1%Q)
               (job_after first_job_run "j1")) →
      items !! res_index r = Some (res_input r).
Proof.
  apply (completed_job_covers_items no_item_error first_job_run
           (state_after first_job_run) "j1");
    vm_compute; reflexivity.
Defined.

Lemma running_job_accounts_for_items_witness :
  ∃ items,
    parameter_items
      (default (new_job (nlp_request 5) "j1" 1%Q)
         (job_after two_workers_run "j1")) = Some items ∧
    recorded_indices
      (default (new_job (nlp_request 5) "j1" 1%Q)
         (job_after two_workers_run "j1"))
    ++ (waiting (item_tasks_of (state_after two_workers_run) "j1")).*1
    ++ (sleeping (item_tasks_of (state_after two_workers_run) "j1")).*1
    ≡ₚ seq 0 (length items) ∧
    (∀ it,
       it ∈ waiting (item_tasks_of (state_after two_workers_run) "j1")
            ++ sleeping (item_tasks_of (state_after two_workers_run) "j1") →
       items !! it.1 = Some it.2).
Proof.
  apply (running_job_accounts_for_items no_item_error two_workers_run
           (state_after two_workers_run) "j1" _ None);
    vm_compute; reflexivity.
Defined.

Lemma admission_pass_fills_free_slots_witness :
  let s := state_after slot_freed_run in
  let s' := _process_job_queue s in
  JOB_QUEUE s' = drop (free_slots_taken s) (JOB_QUEUE s) ∧
  size (PROCESSING_JOBS s')
  = size (PROCESSING_JOBS s) + free_slots_taken s ∧
  (∀ j, PROCESSING_JOBS s' !! j
        = if decide (j ∈ take (free_slots_taken s) (JOB_QUEUE s))
          then Some task_created else PROCESSING_JOBS s !! j) ∧
  (JOB_QUEUE s' = [] ∨ size (PROCESSING_JOBS s') = 3).
Proof.
  apply (admission_pass_fills_free_slots no_item_error slot_freed_run).
  vm_compute; reflexivity.
Defined.

Lemma listed_jobs_pass_filters_newest_first_witness :
  let s := state_after slot_freed_run in
  let r := list_batch_jobs (stored_jobs s) (Some PROCESSING) None 10 0 in
  jp_total_jobs r
  = length (filter (passes (Some PROCESSING) None) (stored_jobs s)) ∧
  (∃ l, l ≡ₚ filter (passes (Some PROCESSING) None) (stored_jobs s) ∧
        jp_jobs r `sublist_of` l) ∧
  (∀ job, job ∈ jp_jobs r →
     passes (Some PROCESSING) None job ∧
     ∃ j, BATCH_JOBS s !! j = Some job) ∧
  newest_first (jp_jobs r) ∧
  (0%Z = 0%Z → (Z.of_nat (jp_total_jobs r) ≤ 10)%Z →
   jp_jobs r ≡ₚ filter (passes (Some PROCESSING) None) (stored_jobs s) ∧
   jp_has_more r = false).
Proof.
  apply (listed_jobs_pass_filters_newest_first
           (state_after slot_freed_run)
           (stored_jobs (state_after slot_freed_run))
           (Some PROCESSING) None 10 0).
  reflexivity.
Defined.

Lemma upload_answers_500_or_creates_witness :
  (∀ fname,
     Some "jobs.txt" = Some fname → endswith fname ".json" = false →
     endswith fname ".csv" = false →
     upload_request (λ _, Some "[]") loads_empty_list loads_empty_list
       items_of_list parameters_of_dict (Some "jobs.txt") []
       NLP_ANALYSIS "Uploaded Batch Job" None "{}"
     = inl unsupported_file_format ∧
     create_job_from_file (λ _, Some "[]") loads_empty_list loads_empty_list
       items_of_list parameters_of_dict (Some "jobs.txt") []
       NLP_ANALYSIS "Uploaded Batch Job" None "{}" "j1" 1%Q initial
     = inl 500) ∧
  endswith "jobs.txt" ".json" = false ∧
  endswith "jobs.txt" ".csv" = false ∧
  ∃ s',
    create_job_from_file (λ _, Some "[]") loads_empty_list loads_empty_list
      items_of_list parameters_of_dict (Some "jobs.json") []
      NLP_ANALYSIS "Uploaded Batch Job" None "{}" "j1" 1%Q initial
    = inr s'.
Proof.
  split_and!.
  - apply (upload_answers_500_or_creates (λ _, Some "[]") loads_empty_list
             loads_empty_list items_of_list parameters_of_dict
             (Some "jobs.txt") [] NLP_ANALYSIS "Uploaded Batch Job" None
             "{}" "j1" 1%Q initial).
  - vm_compute; reflexivity.
  - vm_compute; reflexivity.
  - eexists. vm_compute. reflexivity.
Defined.

Lemma cancelled_while_running_stays_cancelled_witness :
  ∃ job',
    BATCH_JOBS
      (state_after
         (two_workers_run ++ cancel_job "j1" 4%Q :: cancel_running_steps))
      !! "j1" = Some job' ∧
    status job' = CANCELLED ∧
    results job'
    = results (default (new_job (nlp_request 5) "j1" 1%Q)
                 (job_after two_workers_run "j1")) ∧
    errors job'
    = errors (default (new_job (nlp_request 5) "j1" 1%Q)
                (job_after two_workers_run "j1")) ∧
    successful_items job'
    = successful_items (default (new_job (nlp_request 5) "j1" 1%Q)
                          (job_after two_workers_run "j1")) ∧
    failed_items job'
    = failed_items (default (new_job (nlp_request 5) "j1" 1%Q)
                      (job_after two_workers_run "j1")) ∧
    processed_items (default (new_job (nlp_request 5) "j1" 1%Q)
                       (job_after two_workers_run "j1"))
    ≤ processed_items job' ∧
    processed_items job'
    ≤ processed_items (default (new_job (nlp_request 5) "j1" 1%Q)
                         (job_after two_workers_run "j1"))
      + length (sleeping (item_tasks_of (state_after two_workers_run) "j1")) ∧
    PROCESSING_JOBS
      (state_after
         (two_workers_run ++ cancel_job "j1" 4%Q :: cancel_running_steps))
      !! "j1" = None ∧
    ("j1" ∉ JOB_QUEUE
              (state_after
                 (two_workers_run
                  ++ cancel_job "j1" 4%Q :: cancel_running_steps))).
Proof.
  apply (cancelled_while_running_stays_cancelled no_item_error
           two_workers_run (state_after two_workers_run) "j1"
           (default (new_job (nlp_request 5) "j1" 1%Q)
              (job_after two_workers_run "j1"))
           4%Q cancel_running_steps).
  - vm_compute; reflexivity.
  - vm_compute; reflexivity.
  - vm_compute; reflexivity.
  - vm_compute; lia.
  - vm_compute; reflexivity.
Defined.



Lemma queue_priority_then_fifo_witness :
  JOB_QUEUE (state_after two_slots_freed_run) = ["B"; "A"] ∧
  size (PROCESSING_JOBS (state_after two_slots_freed_run)) = 1 ∧
  tasks_created (BATCH_JOBS (state_after two_slots_freed_run))
    (JOB_QUEUE (state_after two_slots_freed_run))
    (PROCESSING_JOBS (state_after two_slots_freed_run)) = ["B"; "A"] ∧
  run_fifo no_item_error (state_after two_slots_freed_run) []
    next_submission
  = Some (state_after (two_slots_freed_run ++ next_submission),
          ["B"; "A"]) ∧
  not_started (state_after (two_slots_freed_run ++ next_submission)) "A" ∧
  run_fifo no_item_error (state_after two_slots_freed_run) []
    (next_submission ++ [task_start "A" 16%Q]) = None ∧
  status <$> job_after (two_slots_freed_run ++ next_submission
                        ++ [task_start "B" 16%Q]) "B" = Some PROCESSING ∧
  status <$> job_after (two_slots_freed_run ++ next_submission
                        ++ [task_start "B" 16%Q]) "A" = Some PENDING.
Proof.
  destruct (queue_priority_then_fifo no_item_error two_slots_freed_run
              (state_after two_slots_freed_run) [])
    as (_ & _ & _ & _ & _ & _ & _ & _ & Hpair); [vm_compute; reflexivity|].
  split_and!; try (vm_compute; reflexivity).
  apply (Hpair "A" "B" next_submission _ ["B"; "A"]).
  - exists [], [], []. vm_compute. reflexivity.
  - vm_compute. reflexivity.
  - apply elem_of_app. left. by left.
Defined.

(** C6: the queue is sorted by priority alone; with equal priorities the
    jobs stay in the order of their submission, which is not the order of
    [created_at] when the clock is set back between two submissions. *)
Lemma queue_not_by_creation_time :
  run_fifo no_item_error initial [] clock_back_run
  = Some (state_after clock_back_run, []) ∧
  JOB_QUEUE (state_after clock_back_run) = ["A"; "B"] ∧
  created_at <$> job_after clock_back_run "A" = Some 2%Q ∧
  created_at <$> job_after clock_back_run "B" = Some 1%Q ∧
  priority <$> job_after clock_back_run "A"
  = priority <$> job_after clock_back_run "B" ∧
  ¬ queue_ordered (state_after clock_back_run).
Proof.
  split_and!; try (vm_compute; reflexivity).
  unfold queue_ordered. intros Hs.
  assert (Hq : JOB_QUEUE (state_after clock_back_run) = ["A"; "B"])
    by (vm_compute; reflexivity).
  rewrite Hq in Hs. apply StronglySorted_cons in Hs as [Hall _].
  apply Forall_cons in Hall as [(ja & jb & Ea & Eb & Hor) _].
  vm_compute in Ea, Eb. injection Ea as <-. injection Eb as <-.
  cbn in Hor. destruct Hor as [?|[_ Hle]]; [lia|].
  unfold Qle in Hle. cbn in Hle. lia.
Qed.
